(** * Voice-AI server: worker supervision and event broadcast

    A shallow embedding of [server.py]: the reader thread that parses the
    worker's output lines, the module-level buffers and subscriber lists,
    the fan-out through the event loop, the [/start] and [/stop] handlers
    and the generators of the two streaming endpoints.

    - Strings are [string]; a character is a code point below 256.
    - The module-level variables are the fields of one [state] record.
    - The [asyncio.Queue] objects live in a heap, [queues], indexed by
      identity: a subscriber list and a generator hold the same queue.
    - [_fan_out] does not put anything into a queue: it hands
      [q.put_nowait] to the event loop, which runs it later. The state has
      the callbacks not run yet, and running one is a step of its own.
    - A generator is an object with a program point; resuming it runs it
      to its next [yield], closing it raises [GeneratorExit] where it is
      suspended.
    - The reader thread, the loop and the clients interleave: the server
      is a transition system whose steps are one iteration of the
      reader's loop, the end of the worker's output, one callback of the
      loop, one request, one resumption or one closing of a generator.
      Each step is atomic. *)

From stdpp Require Import base list strings.
From Stdlib Require Import Ascii ZArith Lia.

Open Scope string_scope.
Open Scope nat_scope.
Open Scope list_scope.

(** ** Python string operations used by the reader thread *)

Module Str.

(** [str.isspace] on one character, for code points below 256:
    TAB, LF, VT, FF, CR, the separators FS, GS, RS, US, SPACE, NEL and
    NO-BREAK SPACE. *)
Definition isspace (c : ascii) : bool :=
  let n := nat_of_ascii c in
  ((9 <=? n) && (n <=? 13)) || ((28 <=? n) && (n <=? 32))
  || (n =? 133) || (n =? 160).

(** [s.lstrip()] *)
Fixpoint lstrip (s : string) : string :=
  match s with
  | EmptyString => EmptyString
  | String c s' => if isspace c then lstrip s' else s
  end.

(** [s.rstrip()] *)
Fixpoint rstrip (s : string) : string :=
  match s with
  | EmptyString => EmptyString
  | String c s' =>
      match rstrip s' with
      | EmptyString => if isspace c then EmptyString else String c EmptyString
      | r => String c r
      end
  end.

(** [s.strip()] *)
Definition strip (s : string) : string := rstrip (lstrip s).

(** [not s] on a string: true exactly for the empty string. *)
Definition is_empty (s : string) : bool :=
  match s with
  | EmptyString => true
  | String _ _ => false
  end.

(** [s.startswith(p)] *)
Fixpoint startswith (p s : string) : bool :=
  match p, s with
  | EmptyString, _ => true
  | String _ _, EmptyString => false
  | String a p', String b s' => if Ascii.eqb a b then startswith p' s' else false
  end.

(** [s[n:]] *)
Fixpoint drop_chars (n : nat) (s : string) : string :=
  match n, s with
  | O, _ => s
  | S _, EmptyString => EmptyString
  | S n', String _ s' => drop_chars n' s'
  end.

(** [sep in s]: [sep] occurs somewhere in [s]. *)
Fixpoint contains (sep s : string) : bool :=
  if startswith sep s then true
  else match s with
       | EmptyString => false
       | String _ s' => contains sep s'
       end.

(** [s.split(sep, 1)] for a non-empty [sep]: cut at the leftmost
    occurrence of [sep]; a one-element list when there is none. *)
Fixpoint split_1 (sep s : string) : list string :=
  if startswith sep s then [EmptyString; drop_chars (String.length sep) s]
  else match s with
       | EmptyString => [EmptyString]
       | String c s' =>
           match split_1 sep s' with
           | hd :: tl => String c hd :: tl
           | [] => []
           end
       end.

End Str.

(** ** Events and queue payloads *)

Inductive role := User | Agent.

(** The dicts built by the reader thread:
    [{"type": "transcript", "role": r, "text": t}] and
    [{"type": "state", "state": st}]. *)
Inductive event :=
| Transcript (r : role) (text : string)
| State (st : string).

(** What [_fan_out] is called with: a log line, [None] (the end of the
    logs) or an event dict. *)
Inductive payload :=
| PLine (line : string)
| PNone
| PEvent (ev : event).

#[global] Instance role_eq_dec : EqDecision role.
Proof. solve_decision. Defined.
#[global] Instance event_eq_dec : EqDecision event.
Proof. solve_decision. Defined.
#[global] Instance payload_eq_dec : EqDecision payload.
Proof. solve_decision. Defined.

Definition TRANSCRIPT_USER : string := "TRANSCRIPT_USER:".
Definition TRANSCRIPT_AGENT : string := "TRANSCRIPT_AGENT:".
Definition AGENT_STATE : string := "AGENT_STATE:".

Definition stopped : event := State "stopped".

(** [ev.get("type") == "state" and ev.get("state") == "stopped"] *)
Definition is_stopped (ev : event) : bool :=
  match ev with
  | State st => bool_decide (st = "stopped")
  | Transcript _ _ => false
  end.

Definition is_transcript (ev : event) : bool :=
  match ev with
  | Transcript _ _ => true
  | State _ => false
  end.

(** ** The server state *)

(** An [asyncio.Queue] is known by its identity: the index at which it was
    allocated in [queues]. *)
Abbreviation qid := nat (only parsing).

(** [asyncio.Queue(maxsize=n)]: a FIFO of payloads. *)
Record Queue := { maxsize : nat; items : list payload }.

(** [Queue.full()]: a queue with [maxsize <= 0] is never full. *)
Definition full (Q : Queue) : bool :=
  (0 <? maxsize Q) && (maxsize Q <=? length (items Q)).

(** The [subprocess.Popen] handle: [returncode] is [None] while the worker
    runs. *)
Record Popen := { pid : nat; returncode : option Z }.

Definition poll (p : Popen) : option Z := returncode p.

(** The request body of [/start]. *)
Record AgentConfig := { instructions : string; voice : string; model : string }.

(** What the server did to the operating system: the worker processes it
    spawned and the signals it sent. *)
Inductive os_event :=
| Spawned (p : nat) (cfg : AgentConfig)
| Terminated (p : nat)
| Killed (p : nat).

Inductive channel := Logs | Events.

(** What a streaming generator yields, named by the [yield] statement it
    comes from: [Data p] is the [data: ...] made of a backlog entry or of
    a queue item, [Exited] the [data: agent process exited] that
    [stream_logs] yields for the [None] at the end of the output, [Ping]
    the keep-alive [: ping]. The strings themselves are given by
    [log_chunk_text]: the text of [Exited] is also the text of the [Data]
    of a worker line [agent process exited], so a client cannot tell the
    two apart. *)
Inductive chunk :=
| Data (p : payload)
| Exited
| Ping.

(** Where a [generate()] coroutine of [stream_logs] / [stream_events] is
    suspended:
    - [Created]: not started yet;
    - [Backlog rest]: at the [yield] of the backlog loop, which is before
      the [try]; [rest] is what the loop still has to yield;
    - [Live]: inside the [try], at a [yield] of the [while] loop after
      which the loop goes on to [q.get()];
    - [Exiting]: inside the [try], at the last [yield] before the loop is
      left ([break], or the exception of [ev.get] on a payload that is not
      a dict);
    - [Done]: finished or closed. *)
Inductive pc :=
| Created
| Backlog (rest : list payload)
| Live
| Exiting
| Done.

Record Generator := { kind : channel; q : qid; at_pc : pc; sent : list chunk }.

#[global] Instance chunk_eq_dec : EqDecision chunk.
Proof. solve_decision. Defined.
#[global] Instance channel_eq_dec : EqDecision channel.
Proof. solve_decision. Defined.
#[global] Instance pc_eq_dec : EqDecision pc.
Proof. solve_decision. Defined.

(** The module-level variables of [server.py], the queue objects, the
    callbacks handed to the event loop and not run yet ([ready]), the puts
    that raised [QueueFull] inside the loop ([dropped]), the trace of
    process operations and the generator objects. *)
Record state := {
  loop_ok : bool;                     (* [_loop] is set and not closed *)
  agent_process : option Popen;
  log_buffer : list string;
  log_subscribers : list qid;
  tx_buffer : list event;
  tx_subscribers : list qid;
  queues : list Queue;
  ready : list (qid * payload);
  dropped : list (qid * payload);
  os_log : list os_event;
  streams : list Generator
}.

(** Assignment to one variable. *)
Definition with_agent_process (v : option Popen) (s : state) : state :=
  {| loop_ok := loop_ok s; agent_process := v; log_buffer := log_buffer s;
     log_subscribers := log_subscribers s; tx_buffer := tx_buffer s;
     tx_subscribers := tx_subscribers s; queues := queues s;
     ready := ready s; dropped := dropped s; os_log := os_log s;
     streams := streams s |}.

Definition with_log_buffer (v : list string) (s : state) : state :=
  {| loop_ok := loop_ok s; agent_process := agent_process s;
     log_buffer := v; log_subscribers := log_subscribers s;
     tx_buffer := tx_buffer s; tx_subscribers := tx_subscribers s;
     queues := queues s; ready := ready s; dropped := dropped s;
     os_log := os_log s; streams := streams s |}.

Definition with_log_subscribers (v : list qid) (s : state) : state :=
  {| loop_ok := loop_ok s; agent_process := agent_process s;
     log_buffer := log_buffer s; log_subscribers := v;
     tx_buffer := tx_buffer s; tx_subscribers := tx_subscribers s;
     queues := queues s; ready := ready s; dropped := dropped s;
     os_log := os_log s; streams := streams s |}.

Definition with_tx_buffer (v : list event) (s : state) : state :=
  {| loop_ok := loop_ok s; agent_process := agent_process s;
     log_buffer := log_buffer s; log_subscribers := log_subscribers s;
     tx_buffer := v; tx_subscribers := tx_subscribers s;
     queues := queues s; ready := ready s; dropped := dropped s;
     os_log := os_log s; streams := streams s |}.

Definition with_tx_subscribers (v : list qid) (s : state) : state :=
  {| loop_ok := loop_ok s; agent_process := agent_process s;
     log_buffer := log_buffer s; log_subscribers := log_subscribers s;
     tx_buffer := tx_buffer s; tx_subscribers := v; queues := queues s;
     ready := ready s; dropped := dropped s; os_log := os_log s;
     streams := streams s |}.

Definition with_queues (v : list Queue) (s : state) : state :=
  {| loop_ok := loop_ok s; agent_process := agent_process s;
     log_buffer := log_buffer s; log_subscribers := log_subscribers s;
     tx_buffer := tx_buffer s; tx_subscribers := tx_subscribers s;
     queues := v; ready := ready s; dropped := dropped s;
     os_log := os_log s; streams := streams s |}.

Definition with_ready (v : list (qid * payload)) (s : state) : state :=
  {| loop_ok := loop_ok s; agent_process := agent_process s;
     log_buffer := log_buffer s; log_subscribers := log_subscribers s;
     tx_buffer := tx_buffer s; tx_subscribers := tx_subscribers s;
     queues := queues s; ready := v; dropped := dropped s;
     os_log := os_log s; streams := streams s |}.

Definition with_dropped (v : list (qid * payload)) (s : state) : state :=
  {| loop_ok := loop_ok s; agent_process := agent_process s;
     log_buffer := log_buffer s; log_subscribers := log_subscribers s;
     tx_buffer := tx_buffer s; tx_subscribers := tx_subscribers s;
     queues := queues s; ready := ready s; dropped := v;
     os_log := os_log s; streams := streams s |}.

Definition with_os_log (v : list os_event) (s : state) : state :=
  {| loop_ok := loop_ok s; agent_process := agent_process s;
     log_buffer := log_buffer s; log_subscribers := log_subscribers s;
     tx_buffer := tx_buffer s; tx_subscribers := tx_subscribers s;
     queues := queues s; ready := ready s; dropped := dropped s;
     os_log := v; streams := streams s |}.

Definition with_streams (v : list Generator) (s : state) : state :=
  {| loop_ok := loop_ok s; agent_process := agent_process s;
     log_buffer := log_buffer s; log_subscribers := log_subscribers s;
     tx_buffer := tx_buffer s; tx_subscribers := tx_subscribers s;
     queues := queues s; ready := ready s; dropped := dropped s;
     os_log := os_log s; streams := v |}.

(** The state when the application has started: the lifespan hook has
    stored the running loop, nothing else has happened. *)
Definition initial : state :=
  {| loop_ok := true; agent_process := None; log_buffer := [];
     log_subscribers := []; tx_buffer := []; tx_subscribers := [];
     queues := []; ready := []; dropped := []; os_log := []; streams := [] |}.

(** ** [_fan_out] and the event loop *)

(** [_loop.call_soon_threadsafe(q.put_nowait, payload)]: the call is added
    at the end of the loop's callbacks. *)
Definition call_soon_threadsafe (qu : qid) (p : payload) (s : state) : state :=
  with_ready (ready s ++ [(qu, p)]) s.

(** [_fan_out(subscribers, payload)] *)
Definition _fan_out (subscribers : list qid) (p : payload) (s : state) : state :=
  if negb (loop_ok s) then s
  else foldl (fun s qu => call_soon_threadsafe qu p s) s subscribers.

(** [q.put_nowait(payload)] run by the loop. On a full queue it raises
    [QueueFull]; the loop reports the exception and goes on, the payload
    is lost for this queue. *)
Definition put_nowait (qu : qid) (p : payload) (s : state) : state :=
  match queues s !! qu with
  | Some Q =>
      if full Q then with_dropped (dropped s ++ [(qu, p)]) s
      else with_queues
             (<[qu := {| maxsize := maxsize Q; items := items Q ++ [p] |}]> (queues s)) s
  | None => s
  end.

(** The loop runs its oldest callback. *)
Definition run_callback (s : state) : state :=
  match ready s with
  | [] => s
  | (qu, p) :: rest => put_nowait qu p (with_ready rest s)
  end.

(** The loop runs the callbacks [cbs], oldest first. *)
Definition deliver (cbs : list (qid * payload)) (s : state) : state :=
  foldl (fun s cb => put_nowait cb.1 cb.2 s) s cbs.

(** The loop runs every callback it has. *)
Definition run_callbacks (s : state) : state :=
  deliver (ready s) (with_ready [] s).

(** ** [_reader_thread] *)

(** [log_buffer.append(line)], then [log_buffer = log_buffer[-500:]] when
    it has more than 500 entries. *)
Definition log_append (line : string) (s : state) : state :=
  let s := with_log_buffer (log_buffer s ++ [line]) s in
  if 500 <? length (log_buffer s)
  then with_log_buffer (drop (length (log_buffer s) - 500) (log_buffer s)) s
  else s.

(** One iteration of the [for raw in iter(proc.stdout.readline, "")] loop;
    [None] when an exception leaves the loop body (the [IndexError] of
    [[1]] on a list of one element). *)
Definition reader_line (raw : string) (s : state) : option state :=
  let line := Str.rstrip raw in
  if Str.is_empty line then Some s
  else
    let s := log_append line s in
    let s := _fan_out (log_subscribers s) (PLine line) s in
    if Str.contains TRANSCRIPT_USER line then
      part ← Str.split_1 TRANSCRIPT_USER line !! 1;
      let text := Str.strip part in
      if Str.is_empty text then Some s
      else
        let ev := Transcript User text in
        let s := with_tx_buffer (tx_buffer s ++ [ev]) s in
        Some (_fan_out (tx_subscribers s) (PEvent ev) s)
    else if Str.contains TRANSCRIPT_AGENT line then
      part ← Str.split_1 TRANSCRIPT_AGENT line !! 1;
      let text := Str.strip part in
      if Str.is_empty text then Some s
      else
        let ev := Transcript Agent text in
        let s := with_tx_buffer (tx_buffer s ++ [ev]) s in
        Some (_fan_out (tx_subscribers s) (PEvent ev) s)
    else if Str.contains AGENT_STATE line then
      part ← Str.split_1 AGENT_STATE line !! 1;
      let state := Str.strip part in
      Some (_fan_out (tx_subscribers s) (PEvent (State state)) s)
    else Some s.

(** The two calls after the loop, when [readline] has returned [""]. *)
Definition reader_eof (s : state) : state :=
  let s := _fan_out (log_subscribers s) PNone s in
  _fan_out (tx_subscribers s) (PEvent stopped) s.

(** What a call of [proc.stdout.readline()] gives before the output ends:
    a line, or the [UnicodeDecodeError] of the text-mode pipe (opened with
    [text=True] and the default strict error handling) on bytes that are
    not valid in its encoding. *)
Inductive read :=
| Line (raw : string)
| DecodeError.

(** How the thread ends, with the state it leaves: it returns after the
    two calls that follow the loop, or an exception ends it inside the
    loop, which has no [try] around it. *)
Inductive thread_end :=
| Returned (s : state)
| Died (s : state).

(** The whole of [_reader_thread] on what [readline] gives before the
    output ends. An exception raised by [readline] or by the loop body
    ends the thread before the two calls that follow the loop. *)
Fixpoint _reader_thread (reads : list read) (s : state) : thread_end :=
  match reads with
  | [] => Returned (reader_eof s)
  | Line raw :: reads' =>
      match reader_line raw s with
      | Some s' => _reader_thread reads' s'
      | None => Died s
      end
  | DecodeError :: _ => Died s
  end.

(** ** [/start] and [/stop] *)

(** [agent_process and agent_process.poll() is None] *)
Definition running (s : state) : bool :=
  match agent_process s with
  | Some p => bool_decide (poll p = None)
  | None => false
  end.

(** The handlers' answers: the dicts with message [Agent already
    running], [Agent started] (and the pid), [Agent stopped], [Agent was
    not running]; [Raised] when an exception leaves the handler. *)
Inductive response :=
| AlreadyRunning
| Started (p : nat)
| Stopped
| WasNotRunning
| Raised.

Definition default_instructions : string :=
  "You are a helpful and friendly AI voice assistant. " +:+
  "Listen carefully to what the user says and respond naturally.".

(** [config.instructions or (...)] *)
Definition effective (config : AgentConfig) : AgentConfig :=
  {| instructions := if Str.is_empty (instructions config)
                     then default_instructions else instructions config;
     voice := voice config; model := model config |}.

(** [start_agent(config)]. [spawn] is what the operating system answers
    to writing the agent file and to [subprocess.Popen]: the pid of the
    new process, or [None] when one of them raises. The reader thread
    started for the new process takes its steps through [reader_line] and
    [reader_eof]. *)
Definition start_agent (config : AgentConfig) (spawn : option nat) (s : state)
  : response * state :=
  if running s then (AlreadyRunning, s)
  else
    let s := with_log_buffer [] s in
    let s := with_tx_buffer [] s in
    let s := with_log_subscribers [] s in
    let s := with_tx_subscribers [] s in
    match spawn with
    | None => (Raised, s)
    | Some p =>
        let s := with_os_log (os_log s ++ [Spawned p (effective config)]) s in
        let s := with_agent_process (Some {| pid := p; returncode := None |}) s in
        (Started p, s)
    end.

(** [stop_agent()]. [in_time] tells whether the worker exits within the 6
    seconds the handler waits after [terminate()]. *)
Definition stop_agent (in_time : bool) (s : state) : response * state :=
  match agent_process s with
  | Some p =>
      if bool_decide (poll p = None) then
        let sig := if in_time then [Terminated (pid p)]
                   else [Terminated (pid p); Killed (pid p)] in
        (Stopped, with_agent_process None (with_os_log (os_log s ++ sig) s))
      else (WasNotRunning, s)
  | None => (WasNotRunning, s)
  end.

(** The worker process ends by itself with exit status [code]. *)
Definition worker_exit (code : Z) (s : state) : state :=
  match agent_process s with
  | Some p =>
      if bool_decide (poll p = None)
      then with_agent_process (Some {| pid := pid p; returncode := Some code |}) s
      else s
  | None => s
  end.

(** ** [/logs/stream] and [/events/stream] *)

Definition buffer_of (k : channel) (s : state) : list payload :=
  match k with
  | Logs => PLine <$> log_buffer s
  | Events => PEvent <$> tx_buffer s
  end.

Definition subscribers_of (k : channel) (s : state) : list qid :=
  match k with
  | Logs => log_subscribers s
  | Events => tx_subscribers s
  end.

Definition with_subscribers (k : channel) (v : list qid) (s : state) : state :=
  match k with
  | Logs => with_log_subscribers v s
  | Events => with_tx_subscribers v s
  end.

(** [asyncio.Queue(maxsize=500)] for the logs, [maxsize=200] for the
    events. *)
Definition capacity (k : channel) : nat :=
  match k with
  | Logs => 500
  | Events => 200
  end.

(** The handler [stream_logs()] / [stream_events()] up to its [return]: a
    new queue is made and appended to the subscriber list, and the
    generator object is created; its body has not started. The result is
    the index of the generator in [streams]. *)
Definition stream (k : channel) (s : state) : nat * state :=
  let qu := length (queues s) in
  let s := with_queues (queues s ++ [{| maxsize := capacity k; items := [] |}]) s in
  let s := with_subscribers k (subscribers_of k s ++ [qu]) s in
  let g := length (streams s) in
  (g, with_streams (streams s ++ [{| kind := k; q := qu; at_pc := Created; sent := [] |}]) s).

Definition stream_logs : state -> nat * state := stream Logs.
Definition stream_events : state -> nat * state := stream Events.

(** [l.remove(x)]: the first occurrence goes. *)
Fixpoint list_remove_first (x : qid) (l : list qid) : list qid :=
  match l with
  | [] => []
  | y :: l' => if bool_decide (y = x) then l' else y :: list_remove_first x l'
  end.

(** The [finally] block: [if q in subscribers: subscribers.remove(q)]. *)
Definition finally (k : channel) (qu : qid) (s : state) : state :=
  if bool_decide (qu ∈ subscribers_of k s)
  then with_subscribers k (list_remove_first qu (subscribers_of k s)) s
  else s.

(** [await asyncio.wait_for(q.get(), timeout=25)]: the oldest item of the
    queue, or [None] for [TimeoutError] when the queue stays empty. *)
Definition get (qu : qid) (s : state) : option payload * state :=
  match queues s !! qu with
  | Some Q =>
      match items Q with
      | x :: xs =>
          (Some x, with_queues (<[qu := {| maxsize := maxsize Q; items := xs |}]> (queues s)) s)
      | [] => (None, s)
      end
  | None => (None, s)
  end.

(** The generator yields [c] and is suspended at [at']. *)
Definition yield (c : chunk) (at' : pc) (G : Generator) : Generator :=
  {| kind := kind G; q := q G; at_pc := at'; sent := sent G ++ [c] |}.

Definition finished (G : Generator) : Generator :=
  {| kind := kind G; q := q G; at_pc := Done; sent := sent G |}.

Definition set_generator (g : nat) (G : Generator) (s : state) : state :=
  with_streams (<[g := G]> (streams s)) s.

(** After [yield data: json.dumps(ev)] the events generator evaluates
    [ev.get("type") == "state" and ev.get("state") == "stopped"]: it
    leaves the loop on the stopped event, and also when [ev] is no dict
    and [ev.get] raises. *)
Definition leaves_events_loop (x : payload) : bool :=
  match x with
  | PEvent ev => is_stopped ev
  | PLine _ | PNone => true
  end.

(** One round of the [while True] loop, up to its [yield]. *)
Definition live_step (g : nat) (G : Generator) (s : state) : state :=
  match get (q G) s with
  | (None, s) => set_generator g (yield Ping Live G) s
  | (Some x, s) =>
      match kind G with
      | Logs =>
          match x with
          | PNone => set_generator g (yield Exited Exiting G) s
          | _ => set_generator g (yield (Data x) Live G) s
          end
      | Events =>
          set_generator g
            (yield (Data x) (if leaves_events_loop x then Exiting else Live) G) s
      end
  end.

(** The backlog loop with [rest] still to yield; when nothing is left the
    generator enters the [try] and the [while] loop. *)
Definition backlog_step (g : nat) (G : Generator) (rest : list payload) (s : state)
  : state :=
  match rest with
  | x :: rest' => set_generator g (yield (Data x) (Backlog rest') G) s
  | [] => live_step g G s
  end.

(** The generator [g] is resumed and runs to its next [yield] or to its
    end. The first resumption copies the buffer ([list(log_buffer)],
    [list(tx_buffer)]). *)
Definition resume (g : nat) (s : state) : state :=
  match streams s !! g with
  | None => s
  | Some G =>
      match at_pc G with
      | Created => backlog_step g G (buffer_of (kind G) s) s
      | Backlog rest => backlog_step g G rest s
      | Live => live_step g G s
      | Exiting => set_generator g (finished G) (finally (kind G) (q G) s)
      | Done => s
      end
  end.

(** The generator [g] is closed where it is suspended (the client went
    away, the response task was cancelled): [GeneratorExit] is raised at
    that point. Inside the [try] the [finally] block runs; at the backlog
    [yield], which is outside the [try], and in a generator that never
    started, it does not. *)
Definition close (g : nat) (s : state) : state :=
  match streams s !! g with
  | None => s
  | Some G =>
      match at_pc G with
      | Created | Backlog _ => set_generator g (finished G) s
      | Live | Exiting => set_generator g (finished G) (finally (kind G) (q G) s)
      | Done => s
      end
  end.

(** ** The server as a transition system *)

(** What can happen next: the reader thread reads a line or the end of
    the output, the loop runs a callback, the worker exits, a request
    arrives, a generator is resumed or closed. *)
Inductive action :=
| ReadLine (raw : string)
| ReadEOF
| RunCallback
| WorkerExit (code : Z)
| StartAgent (config : AgentConfig) (spawn : option nat)
| StopAgent (in_time : bool)
| Stream (k : channel)
| Resume (g : nat)
| Close (g : nat).

Definition step (a : action) (s : state) : state :=
  match a with
  | ReadLine raw => default s (reader_line raw s)
  | ReadEOF => reader_eof s
  | RunCallback => run_callback s
  | WorkerExit code => worker_exit code s
  | StartAgent config spawn => (start_agent config spawn s).2
  | StopAgent in_time => (stop_agent in_time s).2
  | Stream k => (stream k s).2
  | Resume g => resume g s
  | Close g => close g s
  end.

Definition run (acts : list action) (s : state) : state :=
  foldl (fun s a => step a s) s acts.

Definition reachable (s : state) : Prop :=
  exists acts, s = run acts initial.

(** ** Vocabulary of the properties *)

(** The event that the [if] / [elif] chain of the reader makes of one
    stripped, non-empty line: [None] stands for an exception, [Some None]
    for no event. *)
Definition parse_line (line : string) : option (option event) :=
  if Str.contains TRANSCRIPT_USER line then
    part ← Str.split_1 TRANSCRIPT_USER line !! 1;
    let text := Str.strip part in
    Some (if Str.is_empty text then None else Some (Transcript User text))
  else if Str.contains TRANSCRIPT_AGENT line then
    part ← Str.split_1 TRANSCRIPT_AGENT line !! 1;
    let text := Str.strip part in
    Some (if Str.is_empty text then None else Some (Transcript Agent text))
  else if Str.contains AGENT_STATE line then
    part ← Str.split_1 AGENT_STATE line !! 1;
    Some (Some (State (Str.strip part)))
  else Some None.

(** What it does with that event: a transcript is appended to [tx_buffer]
    and fanned out, a state is fanned out only. *)
Definition publish_event (ev : event) (s : state) : state :=
  match ev with
  | Transcript _ _ =>
      let s := with_tx_buffer (tx_buffer s ++ [ev]) s in
      _fan_out (tx_subscribers s) (PEvent ev) s
  | State _ => _fan_out (tx_subscribers s) (PEvent ev) s
  end.

(** The log lines and the events that one raw line of the worker makes the
    reader publish. *)
Definition line_logs (raw : string) : list string :=
  let line := Str.rstrip raw in
  if Str.is_empty line then [] else [line].

Definition line_events (raw : string) : list event :=
  let line := Str.rstrip raw in
  if Str.is_empty line then []
  else match parse_line line with
       | Some (Some ev) => [ev]
       | _ => []
       end.

(** [line] is [a], then the leftmost occurrence of [m], then [b]. *)
Definition first_occurrence (m line a b : string) : Prop :=
  line = a +:+ m +:+ b /\
  forall a' b', line = a' +:+ m +:+ b' -> String.length a <= String.length a'.

(** The transcript event of role [r] for the text [b] that follows a
    marker: none when [b] is blank. *)
Definition transcript_of (r : role) (b : string) : list event :=
  if Str.is_empty (Str.strip b) then [] else [Transcript r (Str.strip b)].

(** What an action publishes on a channel. *)
Definition published (k : channel) (a : action) : list payload :=
  match a, k with
  | ReadLine raw, Logs => PLine <$> line_logs raw
  | ReadLine raw, Events => PEvent <$> line_events raw
  | ReadEOF, Logs => [PNone]
  | ReadEOF, Events => [PEvent stopped]
  | _, _ => []
  end.

Definition published_all (k : channel) (acts : list action) : list payload :=
  acts ≫= published k.

(** What a client has received on a stream, keep-alives left out; the
    line [agent process exited] stands for the [None] it was made of. *)
Definition payload_of (c : chunk) : list payload :=
  match c with
  | Data p => [p]
  | Exited => [PNone]
  | Ping => []
  end.

Definition received (G : Generator) : list payload := sent G ≫= payload_of.

(** What a generator still holds of its backlog. *)
Definition backlog_rest (G : Generator) : list payload :=
  match at_pc G with
  | Backlog rest => rest
  | _ => []
  end.

(** The items of queue [qu], the payloads of the callbacks waiting in the
    loop for it, and the payloads it lost to [QueueFull]. *)
Definition queued (qu : qid) (s : state) : list payload :=
  match queues s !! qu with
  | Some Q => items Q
  | None => []
  end.

Definition for_queue (qu : qid) (cbs : list (qid * payload)) : list payload :=
  (filter (fun cb => cb.1 = qu) cbs).*2.

Definition pending (qu : qid) (s : state) : list payload := for_queue qu (ready s).

Definition lost (qu : qid) (s : state) : list payload := for_queue qu (dropped s).

(** Everything generator [G] has sent or has still to send, in order. *)
Definition view (G : Generator) (s : state) : list payload :=
  received G ++ backlog_rest G ++ queued (q G) s ++ pending (q G) s.

(** The last [n] elements of a list, as the slice [l[-n:]] for [n > 0]. *)
Definition last_n {A : Type} (n : nat) (l : list A) : list A :=
  drop (length l - n) l.

(** A payload that is a transcript event. *)
Definition is_transcript_payload (p : payload) : bool :=
  match p with
  | PEvent ev => is_transcript ev
  | PLine _ | PNone => false
  end.

(** Every generator of the events stream has only transcript events
    left in its backlog. *)
Definition backlogs_transcripts_only (s : state) : Prop :=
  forall g G, streams s !! g = Some G -> kind G = Events ->
    Forall (fun p => is_transcript_payload p = true) (backlog_rest G).

(** The callbacks that [_fan_out] adds for the payloads [ps]. *)
Definition scheduled (s : state) (subs : list qid) (ps : list payload)
  : list (qid * payload) :=
  if loop_ok s then ps ≫= (fun p => (fun qu => (qu, p)) <$> subs) else [].

(** The item that ends a stream of channel [k]. *)
Definition terminal (k : channel) : payload :=
  match k with
  | Logs => PNone
  | Events => PEvent stopped
  end.

(** The chunk a generator of channel [k] yields for that item. *)
Definition end_chunk (k : channel) : chunk :=
  match k with
  | Logs => Exited
  | Events => Data (PEvent stopped)
  end.

(** The shape of the states the server can be in: the subscriber lists
    hold distinct queues of their channel's size, callbacks point at
    allocated queues, and every generator has a queue of its own. *)
Record wf (s : state) : Prop := {
  wf_subscribers : forall k qu, qu ∈ subscribers_of k s ->
    exists Q, queues s !! qu = Some Q /\ maxsize Q = capacity k;
  wf_nodup : forall k, NoDup (subscribers_of k s);
  wf_ready : forall cb, cb ∈ ready s -> cb.1 < length (queues s);
  wf_dropped : forall cb, cb ∈ dropped s -> cb.1 < length (queues s);
  wf_generator : forall g G, streams s !! g = Some G ->
    exists Q, queues s !! q G = Some Q /\ maxsize Q = capacity (kind G);
  wf_own_queue : forall g g' G G', streams s !! g = Some G ->
    streams s !! g' = Some G' -> q G = q G' -> g = g'
}.

(** The log lines and the transcript events that a run puts into the
    buffers. *)
Definition logged (acts : list action) : list string :=
  acts ≫= (fun a => match a with ReadLine raw => line_logs raw | _ => [] end).

Definition transcripts (acts : list action) : list event :=
  acts ≫= (fun a => match a with
                    | ReadLine raw => filter (fun ev => is_transcript ev = true) (line_events raw)
                    | _ => []
                    end).

Definition is_start (a : action) : bool :=
  match a with
  | StartAgent _ _ => true
  | _ => false
  end.

Definition is_close (g : nat) (a : action) : bool :=
  match a with
  | Close g' => bool_decide (g' = g)
  | _ => false
  end.

(** ** Runs used as examples *)

Definition a_config : AgentConfig :=
  {| instructions := ""; voice := "Puck"; model := "m" |}.

(** The worker writes [n] transcript lines. *)
Definition transcript_lines (n : nat) : list action :=
  repeat (ReadLine "TRANSCRIPT_USER: hi") n.



(** A worker is started, a client opens the events stream and takes the
    empty backlog; the worker writes 200 transcript lines and the loop
    puts them into the client's queue, which is then full, while the
    client reads nothing; the output ends and the loop runs the two
    callbacks of the end; then the client reads 300 times. *)
Definition stalled_subscriber : list action :=
  [StartAgent a_config (Some 7); Stream Events; Resume 0]
  ++ transcript_lines 200 ++ repeat RunCallback 200
  ++ [ReadEOF; RunCallback; RunCallback]
  ++ repeat (Resume 0) 300.

(** A client subscribes, the worker writes a line, and only then the
    generator takes its copy of the buffer. *)
Definition copy_after_publish : list action :=
  [StartAgent a_config (Some 7); Stream Logs; ReadLine "hello"; RunCallback;
   Resume 0; Resume 0].

(** A session: the worker is running, it writes a user transcript and a
    state line; a client then opens the events stream, and the worker
    writes an agent transcript and another state line while the loop and
    the client go on. *)
Definition after_start : state := run [StartAgent a_config (Some 7)] initial.

Definition session_before : list action :=
  [ReadLine "TRANSCRIPT_USER: hi"; ReadLine "AGENT_STATE: active"].

Definition session_after : list action :=
  [ReadLine "TRANSCRIPT_AGENT: hello"; RunCallback; Resume 0;
   ReadLine "AGENT_STATE: idle"; RunCallback; Resume 0; Resume 0].

(** A client of the events stream that keeps up: it has taken the empty
    backlog, the worker writes one transcript line and its output ends. *)
Definition before_the_end : state :=
  run [StartAgent a_config (Some 7); Stream Events; Resume 0;
       ReadLine "TRANSCRIPT_USER: hi"] initial.

(** The same client once the loop has run all callbacks and the client
    has read the transcript: the end item is the next in its queue. *)
Definition at_the_end : state :=
  run [ReadEOF; RunCallback; RunCallback; RunCallback; Resume 0] before_the_end.

(** Two clients of the events stream and 200 transcripts: the first
    client reads nothing and its queue is full, the second has read one
    transcript. *)
Definition one_stalled_one_reading : state :=
  run ([StartAgent a_config (Some 7); Stream Events; Stream Events; Resume 0; Resume 1]
       ++ transcript_lines 200 ++ repeat RunCallback 400 ++ [Resume 1]) initial.

(** ** [/status] and the module before the application starts *)

(** The answers of [get_status()]: [{"status": "running"}] and
    [{"status": "stopped"}]. *)
Inductive status :=
| StatusRunning
| StatusStopped.

(** [get_status()] *)
Definition get_status (s : state) : status :=
  if running s then StatusRunning else StatusStopped.

(** The module has been loaded: [_loop] is still [None], the buffers and
    the subscriber lists are empty. *)
Definition imported : state :=
  {| loop_ok := false; agent_process := None; log_buffer := [];
     log_subscribers := []; tx_buffer := []; tx_subscribers := [];
     queues := []; ready := []; dropped := []; os_log := []; streams := [] |}.

(** ** The reads of the reader thread *)

(** The lines [readline] has given before its first exception, and
    whether it has given lines only. *)
Fixpoint decoded (reads : list read) : list string :=
  match reads with
  | Line raw :: reads' => raw :: decoded reads'
  | _ => []
  end.

Fixpoint complete (reads : list read) : bool :=
  match reads with
  | [] => true
  | Line _ :: reads' => complete reads'
  | DecodeError :: _ => false
  end.

(** ** Vocabulary of the further properties *)

(** The strings [generate()] of [stream_logs] yields: [f"data: {line}\n\n"]
    for a backlog entry and for a queue item that is a line,
    ["data: agent process exited\n\n"] for the [None] of the end, and
    [": ping\n\n"]. [None] for a chunk that is not of the log stream. *)
Definition log_chunk_text (c : chunk) : option string :=
  match c with
  | Data (PLine line) => Some ("data: " +:+ line +:+ String "010" (String "010" ""))
  | Exited => Some ("data: agent process exited" +:+ String "010" (String "010" ""))
  | Ping => Some (": ping" +:+ String "010" (String "010" ""))
  | Data _ => None
  end.

(** The payloads of a channel: lines and [None] for the logs, event dicts
    for the events. *)
Definition payload_ok (k : channel) (p : payload) : bool :=
  match k, p with
  | Logs, PLine _ | Logs, PNone | Events, PEvent _ => true
  | _, _ => false
  end.

(** The chunks a generator of a channel yields for such payloads. *)
Definition chunk_ok (k : channel) (c : chunk) : bool :=
  match c with
  | Ping => true
  | Exited => bool_decide (k = Logs)
  | Data p => payload_ok k p && negb (bool_decide (p = PNone))
  end.

(** The chunk after which a generator of channel [k] leaves its loop: on
    the log stream the one yielded for the [None] of the end (a [Data]
    with the same text is not), on the events stream every state event
    [stopped], the worker's own included. *)
Definition is_terminal_chunk (k : channel) (c : chunk) : bool :=
  match k, c with
  | Logs, Exited => true
  | Events, Data x => leaves_events_loop x
  | _, _ => false
  end.

(** Every queue is a queue of one of the two channels, holds payloads of
    that channel only and no more than its size; the callbacks waiting in
    the loop carry payloads of their queue's channel; every generator has
    yielded, and has left in its backlog, payloads of its channel only. *)
Record typed (s : state) : Prop := {
  typed_queues : forall qu Q, queues s !! qu = Some Q ->
    exists k, maxsize Q = capacity k /\
      Forall (fun p => payload_ok k p = true) (items Q) /\
      length (items Q) <= maxsize Q;
  typed_ready : forall qu p, (qu, p) ∈ ready s ->
    exists Q k, queues s !! qu = Some Q /\ maxsize Q = capacity k /\
      payload_ok k p = true;
  typed_generators : forall g G, streams s !! g = Some G ->
    Forall (fun c => chunk_ok (kind G) c = true) (sent G) /\
    Forall (fun p => payload_ok (kind G) p = true /\ p <> PNone) (backlog_rest G)
}.

(** The terminal chunk of a generator, if it has yielded one, is the last
    chunk it has yielded, and the generator is then about to finish or
    finished. *)
Definition ends_at_terminal (G : Generator) : Prop :=
  forall l c l', sent G = l ++ c :: l' ->
    is_terminal_chunk (kind G) c = true ->
    l' = [] /\ (at_pc G = Exiting \/ at_pc G = Done).

(** The same, in the form that every step keeps: what the generator has
    yielded is a list of chunks that are not terminal, followed by
    nothing or, once it has left its loop, by one chunk. *)
Definition terminal_only_last (G : Generator) : Prop :=
  exists l tail, sent G = l ++ tail /\
    Forall (fun c => is_terminal_chunk (kind G) c = false) l /\
    (tail = [] \/ exists c, tail = [c] /\ (at_pc G = Exiting \/ at_pc G = Done)).

(** ** Further runs used as examples *)

(** Two clients of the log stream, both in the loop of their
    generator. *)
Definition two_log_clients : state :=
  run [Stream Logs; Stream Logs; Resume 0; Resume 1] initial.

(** A client of the log stream and a worker that writes the very line
    which announces the end of the output, twice. *)
Definition worker_writes_exit_line : list action :=
  [Stream Logs; Resume 0; ReadLine "agent process exited";
   ReadLine "agent process exited"; RunCallback; RunCallback; Resume 0; Resume 0].

(** A stream whose handler has returned before a [/start] and whose
    generator starts only after the new worker has written a line. *)
Definition generator_starts_after_restart : list action :=
  [Stream Logs; StartAgent a_config (Some 8); ReadLine "new worker"; Resume 0].

(** ** Invariants of the further properties *)

(** What is waiting for queue [qu]: its items and the payloads of the
    callbacks scheduled for it. *)
Definition waiting (qu : qid) (s : state) : list payload :=
  queued qu s ++ pending qu s.

(** Every subscribed queue is the queue of a generator of its channel. *)
Definition owned (s : state) : Prop :=
  forall k qu, qu ∈ subscribers_of k s ->
    exists g G, streams s !! g = Some G /\ q G = qu /\ kind G = k.

(** * Properties *)

(** Unfold the handlers and the generator steps down to record updates. *)
Ltac unfold_ops :=
  unfold run_callback, put_nowait, worker_exit, start_agent, stop_agent,
    stream, resume, close, backlog_step, live_step, get, finally,
    set_generator, with_subscribers, subscribers_of.

(** ** Strings *)

Section string_facts.

Lemma app_cons (a : ascii) (s t : string) : String a s +:+ t = String a (s +:+ t).
Proof. reflexivity. Qed.

Lemma app_empty (t : string) : "" +:+ t = t.
Proof. reflexivity. Qed.

Lemma startswith_app (p t : string) : Str.startswith p (p +:+ t) = true.
Proof.
  induction p as [|a p IH]; [done|].
  rewrite app_cons. simpl. by rewrite Ascii.eqb_refl.
Qed.

Lemma startswith_inv (p s : string) :
  Str.startswith p s = true ->
  s = p +:+ Str.drop_chars (String.length p) s.
Proof.
  revert s; induction p as [|a p IH]; intros s; simpl; [done|].
  destruct s as [|b s]; [done|].
  destruct (Ascii.eqb_spec a b) as [->|]; [|done].
  intros H. rewrite app_cons. f_equal. by apply IH.
Qed.

Lemma drop_chars_app (p t : string) :
  Str.drop_chars (String.length p) (p +:+ t) = t.
Proof. induction p as [|a p IH]; [by destruct t|by rewrite app_cons]. Qed.

(** Where [sep] occurs, [split_1] cuts at its leftmost occurrence. *)
Lemma split_1_contains (sep s : string) :
  Str.contains sep s = true ->
  exists a b,
    Str.split_1 sep s = [a; b] /\ s = a +:+ sep +:+ b /\
    forall a' b', s = a' +:+ sep +:+ b' -> String.length a <= String.length a'.
Proof.
  induction s as [|c s IH]; simpl.
  - destruct (Str.startswith sep "") eqn:E; [|done].
    intros _. exists "", (Str.drop_chars (String.length sep) "").
    split; [done|]. split; [by apply startswith_inv|]. intros; simpl; lia.
  - destruct (Str.startswith sep (String c s)) eqn:E.
    + intros _. exists "", (Str.drop_chars (String.length sep) (String c s)).
      split; [done|]. split; [by apply startswith_inv|]. intros; simpl; lia.
    + intros H. destruct (IH H) as (a & b & Hs & Heq & Hleft).
      exists (String c a), b. rewrite Hs. split; [done|].
      split; [rewrite app_cons; by f_equal|].
      intros a' b' Heq'. destruct a' as [|c' a'].
      * rewrite app_empty in Heq'. rewrite Heq', startswith_app in E. done.
      * rewrite app_cons in Heq'. injection Heq' as -> Heq'.
        simpl. specialize (Hleft _ _ Heq'). lia.
Qed.

(** Where it does not occur, the line comes back whole. *)
Lemma split_1_absent (sep s : string) :
  Str.contains sep s = false -> Str.split_1 sep s = [s].
Proof.
  induction s as [|c s IH]; simpl.
  - by destruct (Str.startswith sep "").
  - destruct (Str.startswith sep (String c s)); [done|].
    intros H. by rewrite IH.
Qed.

Lemma contains_app (sep a b : string) : Str.contains sep (a +:+ sep +:+ b) = true.
Proof.
  induction a as [|c a IH].
  - rewrite app_empty. destruct (sep +:+ b) eqn:E; simpl; rewrite <- E, startswith_app; done.
  - rewrite app_cons. simpl. rewrite IH. by destruct (Str.startswith sep _).
Qed.

Lemma is_empty_true (s : string) : Str.is_empty s = true <-> s = "".
Proof. by destruct s. Qed.

Lemma is_empty_false (s : string) : Str.is_empty s = false <-> s <> "".
Proof. by destruct s. Qed.

End string_facts.

(** ** [_fan_out] and the loop *)

Section fan_out_facts.

Lemma with_ready_id (s : state) : with_ready (ready s) s = s.
Proof. by destruct s. Qed.

(** The [for] loop of [_fan_out] adds one callback per subscriber, in the
    order of the list. *)
Lemma _fan_out_eq (subs : list qid) (p : payload) (s : state) :
  _fan_out subs p s =
  if loop_ok s then with_ready (ready s ++ ((fun qu => (qu, p)) <$> subs)) s else s.
Proof.
  unfold _fan_out. destruct (loop_ok s) eqn:Hl; simpl; [|done].
  clear Hl. revert s. induction subs as [|qu subs IH]; intros s; simpl.
  - by rewrite app_nil_r, with_ready_id.
  - rewrite IH. unfold call_soon_threadsafe, with_ready; simpl.
    by rewrite <- app_assoc.
Qed.

Lemma for_queue_app (qu : qid) (l1 l2 : list (qid * payload)) :
  for_queue qu (l1 ++ l2) = for_queue qu l1 ++ for_queue qu l2.
Proof. unfold for_queue. by rewrite filter_app, fmap_app. Qed.

Lemma for_queue_fan (qu : qid) (p : payload) (subs : list qid) :
  NoDup subs ->
  for_queue qu ((fun x => (x, p)) <$> subs) = if bool_decide (qu ∈ subs) then [p] else [].
Proof.
  induction subs as [|x subs IH]; intros Hnd; [done|].
  apply NoDup_cons in Hnd as [Hx Hnd]. specialize (IH Hnd).
  unfold for_queue in *. rewrite fmap_cons.
  destruct (decide (x = qu)) as [->|Hne].
  - rewrite filter_cons_True by done.
    rewrite (bool_decide_eq_true_2 (qu ∈ qu :: subs)) by apply list_elem_of_here.
    rewrite fmap_cons, IH. by rewrite bool_decide_eq_false_2.
  - rewrite filter_cons_False by done. rewrite IH.
    rewrite (bool_decide_ext (qu ∈ x :: subs) (qu ∈ subs)); [done|].
    rewrite elem_of_cons. intuition congruence.
Qed.

End fan_out_facts.

(** ** The shape of the state is kept by every step *)

Section well_formed.

(** A change that touches neither the subscriber lists nor the queues:
    the first two fields of [wf] carry over by computation. *)
Local Ltac wf_frame H :=
  destruct H as [H1 H2 H3 H3' H4 H5];
  split;
  [ intros k; destruct k; [exact (H1 Logs) | exact (H1 Events)]
  | intros k; destruct k; [exact (H2 Logs) | exact (H2 Events)]
  | .. ].

Lemma wf_initial : wf initial.
Proof.
  split; simpl.
  - intros [] qu Hq; simpl in Hq; by apply elem_of_nil in Hq.
  - intros []; simpl; constructor.
  - intros cb Hc. by apply elem_of_nil in Hc.
  - intros cb Hc. by apply elem_of_nil in Hc.
  - intros g G Hg. done.
  - intros g g' G G' Hg. done.
Qed.

Lemma wf_with_log_buffer (v : list string) (s : state) :
  wf s -> wf (with_log_buffer v s).
Proof. intros Hwf. by wf_frame Hwf. Qed.

Lemma wf_with_tx_buffer (v : list event) (s : state) :
  wf s -> wf (with_tx_buffer v s).
Proof. intros Hwf. by wf_frame Hwf. Qed.

Lemma wf_with_agent_process (v : option Popen) (s : state) :
  wf s -> wf (with_agent_process v s).
Proof. intros Hwf. by wf_frame Hwf. Qed.

Lemma wf_with_os_log (v : list os_event) (s : state) :
  wf s -> wf (with_os_log v s).
Proof. intros Hwf. by wf_frame Hwf. Qed.

Lemma wf_with_dropped (v : list (qid * payload)) (s : state) :
  wf s -> (forall cb, cb ∈ v -> cb.1 < length (queues s)) -> wf (with_dropped v s).
Proof. intros Hwf Hv. by wf_frame Hwf. Qed.

Lemma wf_with_ready (v : list (qid * payload)) (s : state) :
  wf s -> (forall cb, cb ∈ v -> cb.1 < length (queues s)) -> wf (with_ready v s).
Proof. intros Hwf Hv. by wf_frame Hwf. Qed.

Lemma subscriber_allocated (k : channel) (qu : qid) (s : state) :
  wf s -> qu ∈ subscribers_of k s -> qu < length (queues s).
Proof.
  intros Hwf Hq. destruct (wf_subscribers _ Hwf _ _ Hq) as (Q & HQ & _).
  by eapply lookup_lt_Some.
Qed.

Lemma wf_fan_out (k : channel) (p : payload) (s : state) :
  wf s -> wf (_fan_out (subscribers_of k s) p s).
Proof.
  intros Hwf. rewrite _fan_out_eq. destruct (loop_ok s); [|done].
  apply wf_with_ready; [done|]. intros cb [Hc|Hc]%elem_of_app.
  - by apply (wf_ready _ Hwf).
  - apply list_elem_of_fmap in Hc as (qu & -> & Hq). simpl.
    by eapply subscriber_allocated.
Qed.

(** Replacing a queue by one of the same size. *)
Lemma wf_with_queue (qu : qid) (Q Q' : Queue) (s : state) :
  wf s -> queues s !! qu = Some Q -> maxsize Q' = maxsize Q ->
  wf (with_queues (<[qu := Q']> (queues s)) s).
Proof.
  intros [H1 H2 H3 H3' H4 H5] HQ Hm.
  assert (Hlk : forall x R, queues s !! x = Some R ->
            exists R', <[qu := Q']> (queues s) !! x = Some R' /\ maxsize R' = maxsize R).
  { intros x R HR. destruct (decide (qu = x)) as [->|Hne].
    - exists Q'. rewrite list_lookup_insert_eq by (by eapply lookup_lt_Some).
      split; [done|]. congruence.
    - exists R. by rewrite list_lookup_insert_ne. }
  split; simpl.
  - intros k x Hx. assert (Hx' : x ∈ subscribers_of k s) by (by destruct k).
    destruct (H1 _ _ Hx') as (R & HR & HmR).
    destruct (Hlk _ _ HR) as (R' & HR' & HmR'). exists R'. split; [done|].
    by rewrite HmR'.
  - intros k; destruct k; [exact (H2 Logs) | exact (H2 Events)].
  - intros cb Hc. rewrite length_insert. by apply H3.
  - intros cb Hc. rewrite length_insert. by apply H3'.
  - intros g G Hg. destruct (H4 _ _ Hg) as (R & HR & HmR).
    destruct (Hlk _ _ HR) as (R' & HR' & HmR'). exists R'. split; [done|].
    by rewrite HmR'.
  - done.
Qed.

Lemma wf_put_nowait (qu : qid) (p : payload) (s : state) :
  wf s -> wf (put_nowait qu p s).
Proof.
  intros Hwf. unfold put_nowait. destruct (queues s !! qu) as [Q|] eqn:HQ; [|done].
  destruct (full Q).
  - apply wf_with_dropped; [done|]. intros cb [Hc|Hc]%elem_of_app.
    + by apply (wf_dropped _ Hwf).
    + apply list_elem_of_singleton in Hc as ->. by eapply lookup_lt_Some.
  - by eapply wf_with_queue.
Qed.

Lemma wf_run_callback (s : state) : wf s -> wf (run_callback s).
Proof.
  intros Hwf. unfold run_callback. destruct (ready s) as [|[qu p] rest] eqn:Hr; [done|].
  apply wf_put_nowait, wf_with_ready; [done|].
  intros cb Hc. apply (wf_ready _ Hwf). rewrite Hr. by apply list_elem_of_further.
Qed.

Lemma wf_get (qu : qid) (s : state) : wf s -> wf (get qu s).2.
Proof.
  intros Hwf. unfold get. destruct (queues s !! qu) as [Q|] eqn:HQ; [|done].
  destruct (items Q); [done|]. simpl. by eapply wf_with_queue.
Qed.

(** Replacing a generator by one of the same kind on the same queue. *)
Lemma wf_set_generator (g : nat) (G G' : Generator) (s : state) :
  wf s -> streams s !! g = Some G -> q G' = q G -> kind G' = kind G ->
  wf (set_generator g G' s).
Proof.
  intros [H1 H2 H3 H3' H4 H5] Hg Hq Hk.
  assert (Hlk : forall x X, <[g := G']> (streams s) !! x = Some X ->
            exists X', streams s !! x = Some X' /\ q X = q X' /\ kind X = kind X').
  { intros x X HX. apply list_lookup_insert_Some in HX as [(-> & -> & _)|[Hne HX]].
    - by exists G.
    - by exists X. }
  split; simpl.
  - intros k; destruct k; [exact (H1 Logs) | exact (H1 Events)].
  - intros k; destruct k; [exact (H2 Logs) | exact (H2 Events)].
  - done.
  - done.
  - intros x X HX. destruct (Hlk _ _ HX) as (X' & HX' & -> & ->). by eapply H4.
  - intros x x' X X' HX HX' Heq.
    destruct (Hlk _ _ HX) as (Y & HY & Hq1 & _).
    destruct (Hlk _ _ HX') as (Y' & HY' & Hq2 & _).
    eapply H5; [done..|congruence].
Qed.

Lemma list_remove_first_subseteq (x y : qid) (l : list qid) :
  y ∈ list_remove_first x l -> y ∈ l.
Proof.
  induction l as [|z l IH]; simpl; [done|].
  case_bool_decide.
  - by apply list_elem_of_further.
  - intros [->|Hy]%elem_of_cons; [apply list_elem_of_here|].
    by apply list_elem_of_further, IH.
Qed.

Lemma list_remove_first_NoDup (x : qid) (l : list qid) :
  NoDup l -> NoDup (list_remove_first x l).
Proof.
  induction 1 as [|z l Hz Hnd IH]; simpl; [constructor|].
  case_bool_decide; [done|]. constructor; [|done].
  intros Hin. by apply Hz, (list_remove_first_subseteq x).
Qed.

Lemma list_remove_first_gone (x : qid) (l : list qid) :
  NoDup l -> x ∉ list_remove_first x l.
Proof.
  induction 1 as [|z l Hz Hnd IH]; simpl; [by intros ?%elem_of_nil|].
  case_bool_decide as Hzx; [by subst|].
  intros [->|Hin]%elem_of_cons; [done|]. by apply IH.
Qed.

Lemma list_remove_first_other (x y : qid) (l : list qid) :
  y <> x -> y ∈ l -> y ∈ list_remove_first x l.
Proof.
  intros Hne. induction l as [|z l IH]; simpl; [done|].
  intros [->|Hy]%elem_of_cons.
  - rewrite bool_decide_eq_false_2 by done. apply list_elem_of_here.
  - case_bool_decide; [done|]. by apply list_elem_of_further, IH.
Qed.

(** Shrinking a subscriber list. *)
Lemma wf_with_subscribers (k : channel) (v : list qid) (s : state) :
  wf s -> NoDup v -> (forall qu, qu ∈ v -> qu ∈ subscribers_of k s) ->
  wf (with_subscribers k v s).
Proof.
  intros [H1 H2 H3 H3' H4 H5] Hnd Hsub. split.
  - intros k' qu Hq. assert (Hq' : qu ∈ subscribers_of k' s).
    { destruct k, k'; simpl in *; auto. }
    destruct (H1 _ _ Hq') as (Q & HQ & Hm). exists Q. by destruct k.
  - intros k'. specialize (H2 k'). destruct k, k'; simpl in *; auto.
  - by destruct k.
  - by destruct k.
  - by destruct k.
  - by destruct k.
Qed.

Lemma wf_finally (k : channel) (qu : qid) (s : state) :
  wf s -> wf (finally k qu s).
Proof.
  intros Hwf. unfold finally. case_bool_decide; [|done].
  apply wf_with_subscribers; [done|..].
  - apply list_remove_first_NoDup, (wf_nodup _ Hwf).
  - intros x. apply list_remove_first_subseteq.
Qed.

End well_formed.

Section well_formed_steps.

(** [line.split(marker, 1)[1]] is only evaluated where [marker in line]
    holds, so the index is in range. *)
Lemma parse_line_total (line : string) : is_Some (parse_line line).
Proof.
  unfold parse_line.
  destruct (Str.contains TRANSCRIPT_USER line) eqn:E1.
  { destruct (split_1_contains _ _ E1) as (a & b & -> & _). by eexists. }
  destruct (Str.contains TRANSCRIPT_AGENT line) eqn:E2.
  { destruct (split_1_contains _ _ E2) as (a & b & -> & _). by eexists. }
  destruct (Str.contains AGENT_STATE line) eqn:E3.
  { destruct (split_1_contains _ _ E3) as (a & b & -> & _). by eexists. }
  by eexists.
Qed.

(** The loop body of the reader is: append and fan out the line, then
    publish the event that [parse_line] makes of it. *)
Lemma reader_line_parse (raw : string) (s : state) :
  reader_line raw s =
  let line := Str.rstrip raw in
  if Str.is_empty line then Some s
  else
    let s1 := _fan_out (log_subscribers (log_append line s)) (PLine line)
                (log_append line s) in
    oev ← parse_line line;
    match oev with
    | Some ev => Some (publish_event ev s1)
    | None => Some s1
    end.
Proof.
  unfold reader_line, parse_line. cbv zeta.
  destruct (Str.is_empty (Str.rstrip raw)); [done|].
  destruct (Str.contains TRANSCRIPT_USER _).
  { destruct (_ !! 1) as [part|]; simpl; [|done]. by destruct (Str.is_empty _). }
  destruct (Str.contains TRANSCRIPT_AGENT _).
  { destruct (_ !! 1) as [part|]; simpl; [|done]. by destruct (Str.is_empty _). }
  destruct (Str.contains AGENT_STATE _); [|done].
  by destruct (_ !! 1).
Qed.

Lemma reader_line_total (raw : string) (s : state) : is_Some (reader_line raw s).
Proof.
  rewrite reader_line_parse. cbv zeta.
  destruct (Str.is_empty (Str.rstrip raw)); [by eexists|].
  destruct (parse_line_total (Str.rstrip raw)) as [[ev|] ->]; by eexists.
Qed.

Lemma wf_log_append (line : string) (s : state) : wf s -> wf (log_append line s).
Proof.
  intros Hwf. unfold log_append.
  destruct (500 <? _); repeat apply wf_with_log_buffer; done.
Qed.

Lemma wf_publish_event (ev : event) (s : state) : wf s -> wf (publish_event ev s).
Proof.
  intros Hwf. destruct ev as [r text|st]; unfold publish_event.
  - apply (wf_fan_out Events _ (with_tx_buffer _ s)). by apply wf_with_tx_buffer.
  - by apply (wf_fan_out Events).
Qed.

Lemma wf_reader_line (raw : string) (s s' : state) :
  wf s -> reader_line raw s = Some s' -> wf s'.
Proof.
  intros Hwf. rewrite reader_line_parse. cbv zeta.
  destruct (Str.is_empty (Str.rstrip raw)); [by intros [= <-]|].
  destruct (parse_line (Str.rstrip raw)) as [[ev|]|]; simpl; [| |done]; intros [= <-].
  - apply wf_publish_event, (wf_fan_out Logs), wf_log_append, Hwf.
  - apply (wf_fan_out Logs), wf_log_append, Hwf.
Qed.

Lemma wf_reader_eof (s : state) : wf s -> wf (reader_eof s).
Proof. intros Hwf. by apply (wf_fan_out Events), (wf_fan_out Logs). Qed.

Lemma wf_start_agent (config : AgentConfig) (spawn : option nat) (s : state) :
  wf s -> wf (start_agent config spawn s).2.
Proof.
  intros Hwf. unfold start_agent. destruct (running s); [done|].
  assert (Hc : wf (with_tx_subscribers [] (with_log_subscribers []
                 (with_tx_buffer [] (with_log_buffer [] s))))).
  { apply (wf_with_subscribers Events); [|constructor|by intros ? ?%elem_of_nil].
    apply (wf_with_subscribers Logs); [|constructor|by intros ? ?%elem_of_nil].
    by apply wf_with_tx_buffer, wf_with_log_buffer. }
  destruct spawn; simpl; [|done].
  by apply wf_with_agent_process, wf_with_os_log.
Qed.

Lemma wf_stop_agent (in_time : bool) (s : state) :
  wf s -> wf (stop_agent in_time s).2.
Proof.
  intros Hwf. unfold stop_agent. destruct (agent_process s); [|done].
  case_bool_decide; [|done]. by apply wf_with_agent_process, wf_with_os_log.
Qed.

Lemma wf_worker_exit (code : Z) (s : state) : wf s -> wf (worker_exit code s).
Proof.
  intros Hwf. unfold worker_exit. destruct (agent_process s); [|done].
  case_bool_decide; [|done]. by apply wf_with_agent_process.
Qed.

Lemma subscribers_of_stream (k k' : channel) (s : state) :
  subscribers_of k' (stream k s).2 =
  subscribers_of k' s ++ (if bool_decide (k' = k) then [length (queues s)] else []).
Proof. destruct k, k'; simpl; by rewrite ?app_nil_r. Qed.

Lemma queues_stream (k : channel) (s : state) :
  queues (stream k s).2 = queues s ++ [{| maxsize := capacity k; items := [] |}].
Proof. by destruct k. Qed.

Lemma streams_stream (k : channel) (s : state) :
  streams (stream k s).2 =
  streams s ++ [{| kind := k; q := length (queues s); at_pc := Created; sent := [] |}].
Proof. by destruct k. Qed.

Lemma ready_stream (k : channel) (s : state) : ready (stream k s).2 = ready s.
Proof. by destruct k. Qed.

Lemma dropped_stream (k : channel) (s : state) : dropped (stream k s).2 = dropped s.
Proof. by destruct k. Qed.

Lemma wf_stream (k : channel) (s : state) : wf s -> wf (stream k s).2.
Proof.
  intros Hwf. split.
  - intros k' qu. rewrite subscribers_of_stream, queues_stream.
    intros [Hq|Hq]%elem_of_app.
    + destruct (wf_subscribers _ Hwf _ _ Hq) as (Q & HQ & Hm).
      exists Q. split; [|done]. by apply lookup_app_l_Some.
    + case_bool_decide as Hk; [|by apply elem_of_nil in Hq].
      apply list_elem_of_singleton in Hq as ->. subst k'.
      exists {| maxsize := capacity k; items := [] |}. split; [|done].
      rewrite lookup_app_r by lia. by rewrite Nat.sub_diag.
  - intros k'. rewrite subscribers_of_stream. apply NoDup_app.
    split; [apply (wf_nodup _ Hwf)|]. split.
    + intros qu Hq Hq'. case_bool_decide; [|by apply elem_of_nil in Hq'].
      apply list_elem_of_singleton in Hq' as ->.
      apply (subscriber_allocated _ _ _ Hwf) in Hq. lia.
    + case_bool_decide; [apply NoDup_singleton|constructor].
  - intros cb. rewrite ready_stream, queues_stream, length_app. intros Hc.
    apply (wf_ready _ Hwf) in Hc. lia.
  - intros cb. rewrite dropped_stream, queues_stream, length_app. intros Hc.
    apply (wf_dropped _ Hwf) in Hc. lia.
  - intros g G. rewrite streams_stream, queues_stream.
    intros [[Hg HG]|[-> <-]]%lookup_snoc_Some.
    + destruct (wf_generator _ Hwf _ _ HG) as (Q & HQ & Hm).
      exists Q. split; [|done]. by apply lookup_app_l_Some.
    + simpl. exists {| maxsize := capacity k; items := [] |}. split; [|done].
      rewrite lookup_app_r by lia. by rewrite Nat.sub_diag.
  - assert (Hlt : forall g G, streams s !! g = Some G -> q G < length (queues s)).
    { intros g G HG. destruct (wf_generator _ Hwf _ _ HG) as (Q & HQ & _).
      by eapply lookup_lt_Some. }
    intros g g' G G'. rewrite streams_stream.
    intros [[Hg HG]|[-> <-]]%lookup_snoc_Some [[Hg' HG']|[-> <-]]%lookup_snoc_Some;
      simpl; intros Heq.
    + by eapply (wf_own_queue _ Hwf).
    + apply Hlt in HG. lia.
    + apply Hlt in HG'. lia.
    + done.
Qed.

Lemma wf_live_step (g : nat) (G : Generator) (s : state) :
  wf s -> streams s !! g = Some G -> wf (live_step g G s).
Proof.
  intros Hwf HG. unfold live_step.
  pose proof (wf_get (q G) s Hwf) as Hget.
  assert (Hst : streams (get (q G) s).2 = streams s).
  { unfold get. destruct (queues s !! q G) as [Q|]; [|done]. by destruct (items Q). }
  destruct (get (q G) s) as [[x|] s1]; simpl in *.
  - destruct (kind G); [destruct x|];
      (apply (wf_set_generator g G); [done|by rewrite Hst|done..]).
  - apply (wf_set_generator g G); [done|by rewrite Hst|done..].
Qed.

Lemma wf_backlog_step (g : nat) (G : Generator) (rest : list payload) (s : state) :
  wf s -> streams s !! g = Some G -> wf (backlog_step g G rest s).
Proof.
  intros Hwf HG. destruct rest; simpl.
  - by apply wf_live_step.
  - by apply (wf_set_generator g G).
Qed.

Lemma streams_finally (k : channel) (qu : qid) (s : state) :
  streams (finally k qu s) = streams s.
Proof. unfold finally. case_bool_decide; [|done]. by destruct k. Qed.

Lemma wf_resume (g : nat) (s : state) : wf s -> wf (resume g s).
Proof.
  intros Hwf. unfold resume. destruct (streams s !! g) as [G|] eqn:HG; [|done].
  destruct (at_pc G).
  - by apply wf_backlog_step.
  - by apply wf_backlog_step.
  - by apply wf_live_step.
  - apply (wf_set_generator g G);
      [by apply wf_finally|by rewrite streams_finally|done..].
  - done.
Qed.

Lemma wf_close (g : nat) (s : state) : wf s -> wf (close g s).
Proof.
  intros Hwf. unfold close. destruct (streams s !! g) as [G|] eqn:HG; [|done].
  destruct (at_pc G); try done;
    try (by apply (wf_set_generator g G));
    (apply (wf_set_generator g G);
       [by apply wf_finally|by rewrite streams_finally|done..]).
Qed.

Lemma wf_step (a : action) (s : state) : wf s -> wf (step a s).
Proof.
  intros Hwf. destruct a; simpl.
  - destruct (reader_line raw s) as [s'|] eqn:E; [|done]. by eapply wf_reader_line.
  - by apply wf_reader_eof.
  - by apply wf_run_callback.
  - by apply wf_worker_exit.
  - by apply wf_start_agent.
  - by apply wf_stop_agent.
  - by apply wf_stream.
  - by apply wf_resume.
  - by apply wf_close.
Qed.

Lemma run_snoc (acts : list action) (a : action) (s : state) :
  run (acts ++ [a]) s = step a (run acts s).
Proof. unfold run. by rewrite foldl_app. Qed.

Lemma run_app (acts acts' : list action) (s : state) :
  run (acts ++ acts') s = run acts' (run acts s).
Proof. unfold run. by rewrite foldl_app. Qed.

Lemma wf_run (acts : list action) (s : state) : wf s -> wf (run acts s).
Proof.
  revert s. induction acts as [|a acts IH]; intros s Hwf; [done|].
  apply IH. by apply wf_step.
Qed.

Lemma reachable_wf (s : state) : reachable s -> wf s.
Proof. intros [acts ->]. apply wf_run, wf_initial. Qed.

End well_formed_steps.

(** ** What the reader thread does to the state *)

Section reader_effects.

Lemma last_n_short {A : Type} (n : nat) (l : list A) :
  length l <= n -> last_n n l = l.
Proof. intros H. unfold last_n. by replace (length l - n) with 0 by lia. Qed.

Lemma length_last_n {A : Type} (n : nat) (l : list A) :
  length (last_n n l) = length l `min` n.
Proof. unfold last_n. rewrite length_drop. lia. Qed.

Lemma last_n_app {A : Type} (n : nat) (l k : list A) :
  last_n n (last_n n l ++ k) = last_n n (l ++ k).
Proof.
  destruct (decide (length l <= n)) as [Hle|Hgt]; [by rewrite (last_n_short n l)|].
  unfold last_n at 1 3. rewrite !length_app, length_last_n.
  unfold last_n. rewrite <- (drop_app_le l k (length l - n)) by lia.
  rewrite drop_drop. f_equal. lia.
Qed.

(** The append followed by the slice keeps the last 500 lines. *)
Lemma log_append_eq (line : string) (s : state) :
  log_append line s = with_log_buffer (last_n 500 (log_buffer s ++ [line])) s.
Proof.
  unfold log_append. simpl. destruct (500 <? _) eqn:E.
  - done.
  - apply Nat.ltb_ge in E. by rewrite last_n_short.
Qed.

(** One line: the log buffer takes the stripped line and keeps its last
    500, a transcript goes to the end of [tx_buffer], and one callback per
    subscriber is handed to the loop for the line and for the event. The
    reader touches nothing else. *)
Lemma reader_line_effect (raw : string) (s : state) :
  exists s', reader_line raw s = Some s' /\
    log_buffer s' = match line_logs raw with
                    | [] => log_buffer s
                    | ls => last_n 500 (log_buffer s ++ ls)
                    end /\
    tx_buffer s' = tx_buffer s ++ filter (fun ev => is_transcript ev = true) (line_events raw) /\
    ready s' = ready s
               ++ scheduled s (log_subscribers s) (PLine <$> line_logs raw)
               ++ scheduled s (tx_subscribers s) (PEvent <$> line_events raw) /\
    loop_ok s' = loop_ok s /\ agent_process s' = agent_process s /\
    log_subscribers s' = log_subscribers s /\ tx_subscribers s' = tx_subscribers s /\
    queues s' = queues s /\ dropped s' = dropped s /\ os_log s' = os_log s /\
    streams s' = streams s.
Proof.
  rewrite reader_line_parse. unfold line_logs, line_events, scheduled. cbv zeta.
  destruct (Str.is_empty (Str.rstrip raw)) eqn:He.
  { exists s. simpl. destruct (loop_ok s); by rewrite !app_nil_r. }
  destruct (parse_line_total (Str.rstrip raw)) as [oev Hp]. rewrite Hp.
  rewrite log_append_eq, _fan_out_eq. simpl.
  destruct oev as [[r text|st]|]; simpl; eexists; (split; [reflexivity|]);
    rewrite ?_fan_out_eq; simpl; destruct (loop_ok s) eqn:Hl; simpl;
    rewrite ?Hl, ?app_nil_r, <- ?app_assoc; by repeat split.
Qed.

(** The end of the output: one callback per subscriber for the end
    marker of each channel; the buffers stay as they are. *)
Lemma reader_eof_effect (s : state) :
  log_buffer (reader_eof s) = log_buffer s /\
  tx_buffer (reader_eof s) = tx_buffer s /\
  ready (reader_eof s) = ready s
     ++ scheduled s (log_subscribers s) [PNone]
     ++ scheduled s (tx_subscribers s) [PEvent stopped] /\
  loop_ok (reader_eof s) = loop_ok s /\ agent_process (reader_eof s) = agent_process s /\
  log_subscribers (reader_eof s) = log_subscribers s /\
  tx_subscribers (reader_eof s) = tx_subscribers s /\
  queues (reader_eof s) = queues s /\ dropped (reader_eof s) = dropped s /\
  os_log (reader_eof s) = os_log s /\ streams (reader_eof s) = streams s.
Proof.
  unfold reader_eof, scheduled. rewrite !_fan_out_eq.
  destruct (loop_ok s) eqn:Hl; simpl; rewrite ?Hl; simpl;
    rewrite ?app_nil_r, <- ?app_assoc; by repeat split.
Qed.

End reader_effects.

(** ** What each step does to the buffers *)

Section buffers.

Local Ltac by_cases := unfold_ops; repeat (case_match; simplify_eq/=; try done).

(** The lines and the events that an action makes the reader publish. *)
Lemma step_log_buffer (a : action) (s : state) :
  log_buffer (step a s) =
  match a with
  | ReadLine raw =>
      match line_logs raw with
      | [] => log_buffer s
      | ls => last_n 500 (log_buffer s ++ ls)
      end
  | StartAgent _ _ => if running s then log_buffer s else []
  | _ => log_buffer s
  end.
Proof.
  destruct a; simpl; try by by_cases.
  - destruct (reader_line_effect raw s) as (s' & -> & H & _). done.
  - apply reader_eof_effect.
Qed.

Lemma step_tx_buffer (a : action) (s : state) :
  tx_buffer (step a s) =
  match a with
  | ReadLine raw =>
      tx_buffer s ++ filter (fun ev => is_transcript ev = true) (line_events raw)
  | StartAgent _ _ => if running s then tx_buffer s else []
  | _ => tx_buffer s
  end.
Proof.
  destruct a; simpl; try by by_cases.
  - destruct (reader_line_effect raw s) as (s' & -> & _ & H & _). done.
  - apply reader_eof_effect.
Qed.

Lemma line_logs_length (raw : string) : length (line_logs raw) <= 1.
Proof. unfold line_logs. destruct (Str.is_empty _); simpl; lia. Qed.

Lemma step_log_buffer_bound (a : action) (s : state) :
  length (log_buffer s) <= 500 -> length (log_buffer (step a s)) <= 500.
Proof.
  intros H. rewrite step_log_buffer. destruct a; try done.
  - destruct (line_logs raw); [done|]. rewrite length_last_n. lia.
  - destruct (running s); simpl; [done|lia].
Qed.

Lemma run_log_buffer_bound (acts : list action) (s : state) :
  length (log_buffer s) <= 500 -> length (log_buffer (run acts s)) <= 500.
Proof.
  revert s. induction acts as [|a acts IH]; intros s H; [done|].
  apply IH. by apply step_log_buffer_bound.
Qed.

Lemma step_transcripts_only (a : action) (s : state) :
  Forall (fun ev => is_transcript ev = true) (tx_buffer s) ->
  Forall (fun ev => is_transcript ev = true) (tx_buffer (step a s)).
Proof.
  intros H. rewrite step_tx_buffer. destruct a; try done.
  - apply Forall_app. split; [done|]. apply Forall_forall.
    by intros ev [He _]%list_elem_of_filter.
  - by destruct (running s).
Qed.

Lemma run_transcripts_only (acts : list action) (s : state) :
  Forall (fun ev => is_transcript ev = true) (tx_buffer s) ->
  Forall (fun ev => is_transcript ev = true) (tx_buffer (run acts s)).
Proof.
  revert s. induction acts as [|a acts IH]; intros s H; [done|].
  apply IH. by apply step_transcripts_only.
Qed.

End buffers.

(** ** Classification of a line *)

Section classification.

(** The three branches of the reader, one per marker, in the order of
    the [if] / [elif] chain. *)
Lemma parse_line_user (line : string) :
  Str.contains TRANSCRIPT_USER line = true ->
  exists a b, first_occurrence TRANSCRIPT_USER line a b /\
    parse_line line = Some (head (transcript_of User b)).
Proof.
  intros E. destruct (split_1_contains _ _ E) as (a & b & Hs & Heq & Hleft).
  exists a, b. split; [done|]. unfold parse_line, transcript_of. rewrite E, Hs. simpl.
  by destruct (Str.is_empty _).
Qed.

Lemma parse_line_agent (line : string) :
  Str.contains TRANSCRIPT_USER line = false ->
  Str.contains TRANSCRIPT_AGENT line = true ->
  exists a b, first_occurrence TRANSCRIPT_AGENT line a b /\
    parse_line line = Some (head (transcript_of Agent b)).
Proof.
  intros E0 E. destruct (split_1_contains _ _ E) as (a & b & Hs & Heq & Hleft).
  exists a, b. split; [done|]. unfold parse_line, transcript_of. rewrite E0, E, Hs. simpl.
  by destruct (Str.is_empty _).
Qed.

Lemma parse_line_state (line : string) :
  Str.contains TRANSCRIPT_USER line = false ->
  Str.contains TRANSCRIPT_AGENT line = false ->
  Str.contains AGENT_STATE line = true ->
  exists a b, first_occurrence AGENT_STATE line a b /\
    parse_line line = Some (Some (State (Str.strip b))).
Proof.
  intros E0 E1 E. destruct (split_1_contains _ _ E) as (a & b & Hs & Heq & Hleft).
  exists a, b. split; [done|]. unfold parse_line. by rewrite E0, E1, E, Hs.
Qed.

Lemma parse_line_plain (line : string) :
  Str.contains TRANSCRIPT_USER line = false ->
  Str.contains TRANSCRIPT_AGENT line = false ->
  Str.contains AGENT_STATE line = false ->
  parse_line line = Some None.
Proof. intros E0 E1 E. unfold parse_line. by rewrite E0, E1, E. Qed.

Lemma line_events_eq (raw : string) (oev : option event) :
  Str.rstrip raw <> "" -> parse_line (Str.rstrip raw) = Some oev ->
  line_events raw = option_list oev.
Proof.
  intros Hne Hp. unfold line_events. rewrite Hp.
  apply is_empty_false in Hne as ->. by destruct oev.
Qed.

Lemma option_list_head {A : Type} (l : list A) :
  length l <= 1 -> option_list (head l) = l.
Proof. destruct l as [|x [|y l]]; simpl; [done..|lia]. Qed.

Lemma transcript_of_length (r : role) (b : string) : length (transcript_of r b) <= 1.
Proof. unfold transcript_of. destruct (Str.is_empty _); simpl; lia. Qed.

End classification.

Section classification_theorems.

Lemma app_inv_length (a a' x y : string) :
  a +:+ x = a' +:+ y -> String.length a = String.length a' -> a = a' /\ x = y.
Proof.
  revert a'. induction a as [|c a IH]; intros [|c' a']; simpl; try done.
  rewrite !app_cons. intros [= -> Heq] [= Hlen].
  destruct (IH _ Heq Hlen) as [-> ->]. done.
Qed.

Lemma first_occurrence_unique (m line a b a' b' : string) :
  first_occurrence m line a b -> first_occurrence m line a' b' -> a = a' /\ b = b'.
Proof.
  intros [Heq Hleft] [Heq' Hleft'].
  pose proof (Hleft _ _ Heq'). pose proof (Hleft' _ _ Heq).
  rewrite Heq in Heq'.
  destruct (app_inv_length _ _ _ _ Heq') as [-> Hb]; [lia|].
  by apply String.app_inj in Hb.
Qed.

Lemma first_occurrence_contains (m line a b : string) :
  first_occurrence m line a b -> Str.contains m line = true.
Proof. intros [-> _]. apply contains_app. Qed.

Lemma first_occurrence_at_start (m rest : string) :
  first_occurrence m (m +:+ rest) "" rest.
Proof. split; [done|]. intros; simpl; lia. Qed.

Lemma line_events_user (raw a b : string) :
  Str.rstrip raw <> "" ->
  first_occurrence TRANSCRIPT_USER (Str.rstrip raw) a b ->
  line_events raw = transcript_of User b.
Proof.
  intros Hne Hf. destruct (parse_line_user _ (first_occurrence_contains _ _ _ _ Hf))
    as (a' & b' & Hf' & Hp).
  destruct (first_occurrence_unique _ _ _ _ _ _ Hf Hf') as [<- <-].
  rewrite (line_events_eq _ _ Hne Hp). apply option_list_head, transcript_of_length.
Qed.

Lemma line_events_agent (raw a b : string) :
  Str.rstrip raw <> "" ->
  Str.contains TRANSCRIPT_USER (Str.rstrip raw) = false ->
  first_occurrence TRANSCRIPT_AGENT (Str.rstrip raw) a b ->
  line_events raw = transcript_of Agent b.
Proof.
  intros Hne E0 Hf.
  destruct (parse_line_agent _ E0 (first_occurrence_contains _ _ _ _ Hf))
    as (a' & b' & Hf' & Hp).
  destruct (first_occurrence_unique _ _ _ _ _ _ Hf Hf') as [<- <-].
  rewrite (line_events_eq _ _ Hne Hp). apply option_list_head, transcript_of_length.
Qed.

Lemma line_events_state (raw a b : string) :
  Str.rstrip raw <> "" ->
  Str.contains TRANSCRIPT_USER (Str.rstrip raw) = false ->
  Str.contains TRANSCRIPT_AGENT (Str.rstrip raw) = false ->
  first_occurrence AGENT_STATE (Str.rstrip raw) a b ->
  line_events raw = [State (Str.strip b)].
Proof.
  intros Hne E0 E1 Hf.
  destruct (parse_line_state _ E0 E1 (first_occurrence_contains _ _ _ _ Hf))
    as (a' & b' & Hf' & Hp).
  destruct (first_occurrence_unique _ _ _ _ _ _ Hf Hf') as [<- <-].
  by rewrite (line_events_eq _ _ Hne Hp).
Qed.

Lemma line_events_plain (raw : string) :
  Str.contains TRANSCRIPT_USER (Str.rstrip raw) = false ->
  Str.contains TRANSCRIPT_AGENT (Str.rstrip raw) = false ->
  Str.contains AGENT_STATE (Str.rstrip raw) = false ->
  line_events raw = [].
Proof.
  intros E0 E1 E. unfold line_events. rewrite (parse_line_plain _ E0 E1 E).
  by destruct (Str.is_empty _).
Qed.

Lemma line_logs_nonempty (raw : string) :
  Str.rstrip raw <> "" -> line_logs raw = [Str.rstrip raw].
Proof. intros Hne. unfold line_logs. by apply is_empty_false in Hne as ->. Qed.

(** C2, as amended: for every raw line whose stripped form [line] is not
    empty the reader never fails; it appends [line] verbatim to the log
    buffer (keeping the last 500) and hands it to every log subscriber;
    and it classifies [line] by the markers that occur anywhere in it,
    tried in the order TRANSCRIPT_USER:, TRANSCRIPT_AGENT:, AGENT_STATE:,
    the first that occurs winning: the event carries the stripped text
    after the leftmost occurrence of that marker, a transcript with blank
    text is dropped, and a line in which no marker occurs makes no event.
    In particular a line that starts with TRANSCRIPT_USER: is a user
    transcript of the stripped remainder, and a line that starts with one
    of the other two markers is classified by it when no marker tried
    earlier occurs in the line. *)
Theorem reader_line_classification (raw : string) (s : state) :
  Str.rstrip raw <> "" ->
  let line := Str.rstrip raw in
  (exists s', reader_line raw s = Some s' /\
     log_buffer s' = last_n 500 (log_buffer s ++ [line]) /\
     tx_buffer s' =
       tx_buffer s ++ filter (fun ev => is_transcript ev = true) (line_events raw) /\
     ready s' = ready s ++ scheduled s (log_subscribers s) [PLine line]
                        ++ scheduled s (tx_subscribers s) (PEvent <$> line_events raw)) /\
  (forall a b, first_occurrence TRANSCRIPT_USER line a b ->
     line_events raw = transcript_of User b) /\
  (Str.contains TRANSCRIPT_USER line = false ->
   forall a b, first_occurrence TRANSCRIPT_AGENT line a b ->
     line_events raw = transcript_of Agent b) /\
  (Str.contains TRANSCRIPT_USER line = false ->
   Str.contains TRANSCRIPT_AGENT line = false ->
   forall a b, first_occurrence AGENT_STATE line a b ->
     line_events raw = [State (Str.strip b)]) /\
  (Str.contains TRANSCRIPT_USER line = false ->
   Str.contains TRANSCRIPT_AGENT line = false ->
   Str.contains AGENT_STATE line = false ->
   line_events raw = []) /\
  (forall rest, line = TRANSCRIPT_USER +:+ rest ->
     line_events raw = transcript_of User rest) /\
  (forall rest, line = TRANSCRIPT_AGENT +:+ rest ->
     Str.contains TRANSCRIPT_USER line = false ->
     line_events raw = transcript_of Agent rest) /\
  (forall rest, line = AGENT_STATE +:+ rest ->
     Str.contains TRANSCRIPT_USER line = false ->
     Str.contains TRANSCRIPT_AGENT line = false ->
     line_events raw = [State (Str.strip rest)]).
Proof.
  intros Hne line. repeat split.
  - destruct (reader_line_effect raw s) as (s' & Hs' & Hlog & Htx & Hready & _).
    exists s'. rewrite Hlog, Hready, (line_logs_nonempty _ Hne). by repeat split.
  - intros a b. by apply line_events_user.
  - intros E0 a b. by apply line_events_agent.
  - intros E0 E1 a b. by apply line_events_state.
  - apply line_events_plain.
  - intros rest Heq. apply (line_events_user raw "" rest); [done|].
    fold line. rewrite Heq. apply first_occurrence_at_start.
  - intros rest Heq E0. apply (line_events_agent raw "" rest); [done..|].
    fold line. rewrite Heq. apply first_occurrence_at_start.
  - intros rest Heq E0 E1. apply (line_events_state raw "" rest); [done..|].
    fold line. rewrite Heq. apply first_occurrence_at_start.
Qed.

(** The example of the specification: one user transcript with text
    [hello]. *)
Lemma reader_line_classification_witness :
  Str.rstrip "TRANSCRIPT_USER: hello" <> "" /\
  line_events "TRANSCRIPT_USER: hello" = [Transcript User "hello"] /\
  line_logs "TRANSCRIPT_USER: hello" = ["TRANSCRIPT_USER: hello"].
Proof.
  split; [discriminate|]. split; [|reflexivity].
  destruct (reader_line_classification "TRANSCRIPT_USER: hello" initial)
    as (_ & _ & _ & _ & _ & H & _); [discriminate|].
  exact (H " hello" eq_refl).
Defined.

(** C2 as stated fails: a line can start with no marker and still make a
    transcript event, and a line that starts with AGENT_STATE: is a user
    transcript when TRANSCRIPT_USER: occurs later in it. *)
Lemma prefix_classification_counterexample :
  Str.startswith TRANSCRIPT_USER "note TRANSCRIPT_USER: hi" = false /\
  Str.startswith TRANSCRIPT_AGENT "note TRANSCRIPT_USER: hi" = false /\
  Str.startswith AGENT_STATE "note TRANSCRIPT_USER: hi" = false /\
  line_events "note TRANSCRIPT_USER: hi" = [Transcript User "hi"] /\
  Str.startswith AGENT_STATE "AGENT_STATE: TRANSCRIPT_USER: hi" = true /\
  line_events "AGENT_STATE: TRANSCRIPT_USER: hi" = [Transcript User "hi"].
Proof. by vm_compute. Qed.

Lemma strip_blank (t : string) : Str.strip t = "" -> Str.rstrip t = "".
Proof.
  unfold Str.strip. induction t as [|c t IH]; [done|]. simpl.
  destruct (Str.isspace c) eqn:Hc.
  - intros H. by rewrite (IH H).
  - simpl. rewrite Hc. by destruct (Str.rstrip t).
Qed.

Lemma rstrip_app_blank (p t : string) :
  Str.rstrip t = "" -> Str.rstrip (p +:+ t) = Str.rstrip p.
Proof.
  intros Ht. induction p as [|c p IH]; [by rewrite app_empty|].
  rewrite app_cons. simpl. by rewrite IH.
Qed.

Lemma parse_line_transcript_nonempty (line : string) (r : role) (text : string) :
  parse_line line = Some (Some (Transcript r text)) -> text <> "".
Proof.
  unfold parse_line.
  destruct (Str.contains TRANSCRIPT_USER line).
  { destruct (_ !! 1) as [part|]; simpl; [|done].
    destruct (Str.is_empty (Str.strip part)) eqn:He; [done|].
    intros [= <- <-]. by apply is_empty_false. }
  destruct (Str.contains TRANSCRIPT_AGENT line).
  { destruct (_ !! 1) as [part|]; simpl; [|done].
    destruct (Str.is_empty (Str.strip part)) eqn:He; [done|].
    intros [= <- <-]. by apply is_empty_false. }
  destruct (Str.contains AGENT_STATE line); [|done].
  by destruct (_ !! 1).
Qed.

(** C8: a raw line that is empty or blank once stripped changes nothing:
    no log line, no event, the state is as before. A line that is a
    transcript marker followed by blanks only makes no event; more
    generally, when the text after the leftmost occurrence of the marker
    that the reader picks is blank, the line makes no event, and no
    transcript event ever carries an empty text. When a line makes no
    event the events buffer stays as it is and only the log subscribers
    get a callback. *)
Theorem blank_lines_and_empty_transcripts (raw : string) (s : state) :
  (Str.rstrip raw = "" ->
     reader_line raw s = Some s /\ line_logs raw = [] /\ line_events raw = []) /\
  (forall rest, raw = TRANSCRIPT_USER +:+ rest \/ raw = TRANSCRIPT_AGENT +:+ rest ->
     Str.strip rest = "" -> line_events raw = []) /\
  (forall a b, Str.strip b = "" ->
     first_occurrence TRANSCRIPT_USER (Str.rstrip raw) a b \/
     (Str.contains TRANSCRIPT_USER (Str.rstrip raw) = false /\
      first_occurrence TRANSCRIPT_AGENT (Str.rstrip raw) a b) ->
     line_events raw = []) /\
  (forall r text, Transcript r text ∈ line_events raw -> text <> "") /\
  (line_events raw = [] ->
     exists s', reader_line raw s = Some s' /\ tx_buffer s' = tx_buffer s /\
       ready s' = ready s ++ scheduled s (log_subscribers s) (PLine <$> line_logs raw)).
Proof.
  split; [|split; [|split; [|split]]].
  - unfold reader_line, line_logs, line_events. by intros ->.
  - intros rest Hraw Hrest%strip_blank. unfold line_events.
    destruct Hraw as [-> | ->]; by rewrite rstrip_app_blank.
  - intros a b Hb Hocc.
    assert (Hne : Str.rstrip raw <> "").
    { destruct Hocc as [[Heq _]|[_ [Heq _]]]; rewrite Heq; by destruct a. }
    destruct Hocc as [Hf|[E0 Hf]].
    + rewrite (line_events_user raw a b Hne Hf). unfold transcript_of. by rewrite Hb.
    + rewrite (line_events_agent raw a b Hne E0 Hf). unfold transcript_of. by rewrite Hb.
  - intros r text. unfold line_events. destruct (Str.is_empty _); [by intros ?%elem_of_nil|].
    destruct (parse_line (Str.rstrip raw)) as [[ev|]|] eqn:Hp;
      [|by intros ?%elem_of_nil..].
    intros <-%list_elem_of_singleton. by eapply parse_line_transcript_nonempty.
  - intros He. destruct (reader_line_effect raw s) as (s' & Hs' & _ & Htx & Hready & _).
    exists s'. rewrite Htx, Hready, He. simpl.
    split; [done|]. split; [by rewrite app_nil_r|].
    unfold scheduled at 2. destruct (loop_ok s); by rewrite app_nil_r.
Qed.

Lemma blank_lines_and_empty_transcripts_witness :
  Str.rstrip "   " = "" /\ reader_line "   " initial = Some initial /\
  Str.strip "  " = "" /\ line_events "TRANSCRIPT_AGENT:  " = [].
Proof.
  destruct (blank_lines_and_empty_transcripts "   " initial) as (H1 & _).
  destruct (blank_lines_and_empty_transcripts "TRANSCRIPT_AGENT:  " initial)
    as (_ & H2 & _).
  split; [reflexivity|]. split; [apply (H1 eq_refl)|].
  split; [reflexivity|]. apply (H2 "  "); [by right|reflexivity].
Defined.

End classification_theorems.

(** ** The history buffers *)

Section history.

Lemma buffer_of_events_transcripts (s : state) :
  Forall (fun ev => is_transcript ev = true) (tx_buffer s) ->
  Forall (fun p => is_transcript_payload p = true) (buffer_of Events s).
Proof. intros H. simpl. rewrite Forall_fmap. exact H. Qed.

Lemma set_generator_backlogs (g : nat) (G : Generator) (s : state) :
  backlogs_transcripts_only s ->
  (kind G = Events -> Forall (fun p => is_transcript_payload p = true) (backlog_rest G)) ->
  backlogs_transcripts_only (set_generator g G s).
Proof.
  intros H HG x X. unfold set_generator. simpl.
  intros [(-> & -> & _)|[_ HX]]%list_lookup_insert_Some; [done|by apply (H x)].
Qed.

Lemma backlogs_frame (s s' : state) :
  streams s' = streams s -> backlogs_transcripts_only s -> backlogs_transcripts_only s'.
Proof. intros Heq H g G. rewrite Heq. apply H. Qed.

Lemma streams_get (qu : qid) (s : state) : streams (get qu s).2 = streams s.
Proof. unfold get. by repeat case_match. Qed.

Lemma live_step_backlogs (g : nat) (G : Generator) (s : state) :
  backlogs_transcripts_only s -> backlogs_transcripts_only (live_step g G s).
Proof.
  intros H. unfold live_step.
  pose proof (streams_get (q G) s) as Hst.
  destruct (get (q G) s) as [[x|] s1]; simpl in Hst;
    repeat case_match; (apply set_generator_backlogs;
      [by apply (backlogs_frame s)|intros _; apply Forall_nil_2]).
Qed.

Lemma backlog_step_backlogs (g : nat) (G : Generator) (rest : list payload) (s : state) :
  backlogs_transcripts_only s ->
  (kind G = Events -> Forall (fun p => is_transcript_payload p = true) rest) ->
  backlogs_transcripts_only (backlog_step g G rest s).
Proof.
  intros H Hrest. destruct rest as [|x rest]; simpl.
  - by apply live_step_backlogs.
  - apply set_generator_backlogs; [done|]. simpl. intros Hk.
    by apply Forall_cons in Hrest as [_ ?].
Qed.

Lemma step_backlogs (a : action) (s : state) :
  Forall (fun ev => is_transcript ev = true) (tx_buffer s) ->
  backlogs_transcripts_only s -> backlogs_transcripts_only (step a s).
Proof.
  intros Hbuf H. destruct a; cbn [step].
  - destruct (reader_line_effect raw s) as (s' & -> & Heq). simpl.
    apply (backlogs_frame s); [|done]. apply Heq.
  - apply (backlogs_frame s); [|done]. apply reader_eof_effect.
  - apply (backlogs_frame s); [|done]. unfold_ops. by repeat case_match.
  - apply (backlogs_frame s); [|done]. unfold_ops. by repeat case_match.
  - apply (backlogs_frame s); [|done]. unfold_ops. by repeat case_match.
  - apply (backlogs_frame s); [|done]. unfold_ops. by repeat case_match.
  - intros g G. rewrite streams_stream.
    intros [[_ HG]|[_ <-]]%lookup_snoc_Some; [by apply (H g)|]. intros _. apply Forall_nil_2.
  - unfold resume. destruct (streams s !! g) as [G|] eqn:HG; [|done].
    destruct (at_pc G) eqn:Hpc.
    + apply backlog_step_backlogs; [done|]. intros ->. by apply buffer_of_events_transcripts.
    + apply backlog_step_backlogs; [done|]. intros Hk.
      specialize (H _ _ HG Hk). unfold backlog_rest in H. by rewrite Hpc in H.
    + by apply live_step_backlogs.
    + apply set_generator_backlogs; [|intros _; apply Forall_nil_2].
      apply (backlogs_frame s); [apply streams_finally|done].
    + done.
  - unfold close. destruct (streams s !! g) as [G|] eqn:HG; [|done].
    destruct (at_pc G) eqn:Hpc; try done;
      (apply set_generator_backlogs; [|intros _; apply Forall_nil_2]);
      try done; (apply (backlogs_frame s); [apply streams_finally|done]).
Qed.

Lemma run_backlogs (acts : list action) (s : state) :
  Forall (fun ev => is_transcript ev = true) (tx_buffer s) ->
  backlogs_transcripts_only s ->
  Forall (fun ev => is_transcript ev = true) (tx_buffer (run acts s)) /\
  backlogs_transcripts_only (run acts s).
Proof.
  revert s. induction acts as [|a acts IH]; intros s Hb H; [done|].
  apply IH; [by apply step_transcripts_only|by apply step_backlogs].
Qed.

(** C10: a state event is handed to the subscribers registered at that
    moment (one callback for each) and is not appended to [tx_buffer],
    neither for an AGENT_STATE: line nor for the stopped event at the end
    of the output. So in every state the server can reach, [tx_buffer]
    holds transcript events only, and so does the backlog that a generator
    of the events stream copies from it and replays. *)
Theorem state_events_are_not_buffered (acts : list action) :
  let s := run acts initial in
  (forall raw st, line_events raw = [State st] ->
     exists s', reader_line raw s = Some s' /\ tx_buffer s' = tx_buffer s /\
       ready s' = ready s ++ scheduled s (log_subscribers s) (PLine <$> line_logs raw)
                          ++ scheduled s (tx_subscribers s) [PEvent (State st)]) /\
  (tx_buffer (reader_eof s) = tx_buffer s /\
   ready (reader_eof s) = ready s ++ scheduled s (log_subscribers s) [PNone]
                                  ++ scheduled s (tx_subscribers s) [PEvent stopped]) /\
  Forall (fun ev => is_transcript ev = true) (tx_buffer s) /\
  Forall (fun p => is_transcript_payload p = true) (buffer_of Events s) /\
  (forall g G, streams s !! g = Some G -> kind G = Events ->
     Forall (fun p => is_transcript_payload p = true) (backlog_rest G)).
Proof.
  intros s.
  destruct (run_backlogs acts initial) as [Hbuf Hback]; [constructor|by intros g G|].
  split; [|split; [|split; [|split]]].
  - intros raw st He.
    destruct (reader_line_effect raw s) as (s' & Hs' & _ & Htx & Hready & _).
    exists s'. rewrite Htx, Hready, He. simpl. by rewrite app_nil_r.
  - split; apply reader_eof_effect.
  - done.
  - by apply buffer_of_events_transcripts.
  - done.
Qed.

Lemma state_events_are_not_buffered_witness :
  streams (run [Stream Events; ReadLine "TRANSCRIPT_USER: a";
                ReadLine "AGENT_STATE: active"; Stream Events; Resume 1] initial) !! 1
  = Some {| kind := Events; q := 1; at_pc := Backlog [];
            sent := [Data (PEvent (Transcript User "a"))] |} /\
  Forall (fun p => is_transcript_payload p = true) [].
Proof.
  split; [reflexivity|].
  destruct (state_events_are_not_buffered
              [Stream Events; ReadLine "TRANSCRIPT_USER: a";
               ReadLine "AGENT_STATE: active"; Stream Events; Resume 1])
    as (_ & _ & _ & _ & H).
  exact (H 1 _ eq_refl eq_refl).
Defined.

End history.

(** ** Claims on the buffers and on the handlers *)

Section handlers.

Lemma line_events_length (raw : string) : length (line_events raw) <= 1.
Proof. unfold line_events. repeat case_match; simpl; lia. Qed.

(** C1, as amended: in every state the server can reach the log buffer
    holds at most 500 lines, and one more raw line leaves in it the last
    500 of the old lines followed by the new one: the reader appends and
    then cuts, so the oldest lines are the ones that go. The reader
    changes the events buffer only by appending at its end, at most one
    event per line. *)
Theorem log_buffer_keeps_last_500 (acts : list action) (raw : string) :
  let s := run acts initial in
  length (log_buffer s) <= 500 /\
  exists s', reader_line raw s = Some s' /\
    log_buffer s' = last_n 500 (log_buffer s ++ line_logs raw) /\
    length (log_buffer s') <= 500 /\
    exists new, tx_buffer s' = tx_buffer s ++ new /\ length new <= 1.
Proof.
  intros s.
  assert (Hb : length (log_buffer s) <= 500) by (apply run_log_buffer_bound; simpl; lia).
  split; [done|].
  destruct (reader_line_effect raw s) as (s' & Hs' & Hlog & Htx & _).
  exists s'. split; [done|].
  assert (Heq : log_buffer s' = last_n 500 (log_buffer s ++ line_logs raw)).
  { rewrite Hlog. destruct (line_logs raw); [|done].
    by rewrite app_nil_r, last_n_short. }
  split; [done|]. split; [rewrite Heq, length_last_n; lia|].
  eexists. split; [done|].
  etrans; [apply length_filter|apply line_events_length].
Qed.

(** C1 as stated fails: after 201 transcript lines the events buffer
    holds 201 entries, nothing was evicted; and between the append and
    the cut of the reader the log buffer holds 501 lines. *)
Lemma events_buffer_counterexample :
  length (tx_buffer (run (transcript_lines 201) initial)) = 201 /\
  200 < 201 /\
  length (log_buffer (run (transcript_lines 500) initial)) = 500 /\
  length (log_buffer (with_log_buffer
            (log_buffer (run (transcript_lines 500) initial) ++ ["TRANSCRIPT_USER: hi"])
            (run (transcript_lines 500) initial))) = 501.
Proof. vm_compute. repeat split; lia. Qed.

(** C6: while a worker runs, [/start] answers that it is already running
    and leaves the state as it is. Otherwise it clears both buffers and
    both subscriber lists; then, when the process can be spawned, it
    spawns one worker, keeps its handle and answers with its pid, so that
    a second [/start] is answered with already running; when the spawn
    fails the buffers are cleared all the same and no process exists. *)
Theorem start_agent_spec (config : AgentConfig) (spawn : option nat) (s : state) :
  (running s = true -> start_agent config spawn s = (AlreadyRunning, s)) /\
  (running s = false ->
     let s' := (start_agent config spawn s).2 in
     log_buffer s' = [] /\ tx_buffer s' = [] /\
     log_subscribers s' = [] /\ tx_subscribers s' = [] /\
     match spawn with
     | Some p =>
         (start_agent config spawn s).1 = Started p /\
         agent_process s' = Some {| pid := p; returncode := None |} /\
         os_log s' = os_log s ++ [Spawned p (effective config)] /\
         forall config' spawn',
           start_agent config' spawn' s' = (AlreadyRunning, s')
     | None =>
         (start_agent config spawn s).1 = Raised /\
         agent_process s' = agent_process s /\ os_log s' = os_log s
     end).
Proof.
  unfold start_agent. split; intros ->; [done|].
  destruct spawn as [p|]; simpl; by repeat split.
Qed.

Lemma start_agent_spec_witness :
  running initial = false /\
  (start_agent a_config (Some 7) initial).1
  = Started 7.
Proof.
  split; [reflexivity|].
  destruct (start_agent_spec a_config
              (Some 7) initial) as [_ H].
  destruct (H eq_refl) as (_ & _ & _ & _ & H' & _). exact H'.
Defined.

(** C7: when no worker runs, [/stop] answers that the agent was not
    running and changes nothing: not the handle, not the buffers, not the
    subscriber lists, and no signal is sent; calling it again gives the
    same answer and the same state. *)
Theorem stop_agent_not_running (in_time : bool) (s : state) :
  running s = false ->
  stop_agent in_time s = (WasNotRunning, s) /\
  forall in_time', stop_agent in_time' (stop_agent in_time s).2 = (WasNotRunning, s).
Proof.
  intros Hr.
  assert (H : forall b, stop_agent b s = (WasNotRunning, s)).
  { intros b. unfold running in Hr. unfold stop_agent.
    destruct (agent_process s) as [p|]; [|done]. by rewrite Hr. }
  split; [apply H|]. intros b. rewrite (H in_time). apply H.
Qed.

Lemma stop_agent_not_running_witness :
  running initial = false /\ stop_agent true initial = (WasNotRunning, initial).
Proof. split; [reflexivity|]. by apply stop_agent_not_running. Defined.

(** Closing a generator inside the [try] unsubscribes its queue; closing
    it before, at the backlog [yield] or before its first step, leaves
    the subscriber list as it is. *)
Lemma close_inside_try (g : nat) (G : Generator) (s : state) :
  wf s -> streams s !! g = Some G -> at_pc G = Live \/ at_pc G = Exiting ->
  q G ∉ subscribers_of (kind G) (close g s).
Proof.
  intros Hwf HG Hpc. unfold close. rewrite HG.
  assert (Hs : subscribers_of (kind G)
                 (set_generator g (finished G) (finally (kind G) (q G) s))
               = subscribers_of (kind G) (finally (kind G) (q G) s))
    by by destruct (kind G).
  assert (Hgone : q G ∉ subscribers_of (kind G) (finally (kind G) (q G) s)).
  { unfold finally. case_bool_decide as Hin; [|done].
    destruct (kind G); simpl in *;
      [apply list_remove_first_gone, (wf_nodup _ Hwf Logs)
      |apply list_remove_first_gone, (wf_nodup _ Hwf Events)]. }
  destruct Hpc as [-> | ->]; by rewrite Hs.
Qed.

Lemma close_outside_try (g : nat) (G : Generator) (s : state) (k : channel) :
  streams s !! g = Some G -> at_pc G = Created \/ (exists rest, at_pc G = Backlog rest) ->
  subscribers_of k (close g s) = subscribers_of k s /\
  (at_pc <$> streams (close g s) !! g) = Some Done.
Proof.
  intros HG Hpc. unfold close. rewrite HG.
  pose proof (lookup_lt_Some _ _ _ HG) as Hg.
  destruct Hpc as [-> | [rest ->]]; (split; [by destruct k|]);
    unfold set_generator; simpl; by rewrite list_lookup_insert_eq.
Qed.


End handlers.

(** ** Delivery into the queues *)

Section delivery.

Lemma put_nowait_lookup_ne (x qu : qid) (p : payload) (s : state) :
  x <> qu -> queues (put_nowait x p s) !! qu = queues s !! qu.
Proof.
  intros Hne. unfold put_nowait. destruct (queues s !! x) as [Q|]; [|done].
  destruct (full Q); [done|]. simpl. by rewrite list_lookup_insert_ne.
Qed.

Lemma put_nowait_lookup_eq (qu : qid) (p : payload) (s : state) (Q : Queue) :
  queues s !! qu = Some Q ->
  queues (put_nowait qu p s) !! qu =
  Some (if full Q then Q else {| maxsize := maxsize Q; items := items Q ++ [p] |}).
Proof.
  intros HQ. unfold put_nowait. rewrite HQ. destruct (full Q); [done|]. simpl.
  apply list_lookup_insert_eq. by eapply lookup_lt_Some.
Qed.

Lemma put_nowait_dropped (x : qid) (p : payload) (s : state) :
  dropped (put_nowait x p s) =
  dropped s ++ match queues s !! x with
               | Some Q => if full Q then [(x, p)] else []
               | None => []
               end.
Proof.
  unfold put_nowait. destruct (queues s !! x) as [Q|]; [|by rewrite app_nil_r].
  destruct (full Q); simpl; [done|by rewrite app_nil_r].
Qed.

Lemma put_nowait_lost_ne (x qu : qid) (p : payload) (s : state) :
  x <> qu -> lost qu (put_nowait x p s) = lost qu s.
Proof.
  intros Hne. unfold lost. rewrite put_nowait_dropped, for_queue_app.
  destruct (queues s !! x) as [Q|]; [|by rewrite app_nil_r].
  destruct (full Q); [|by rewrite app_nil_r].
  unfold for_queue. rewrite filter_cons_False by done. by rewrite app_nil_r.
Qed.

Lemma put_nowait_lost_eq (qu : qid) (p : payload) (s : state) (Q : Queue) :
  queues s !! qu = Some Q ->
  lost qu (put_nowait qu p s) = lost qu s ++ (if full Q then [p] else []).
Proof.
  intros HQ. unfold lost. rewrite put_nowait_dropped, for_queue_app, HQ.
  destruct (full Q); [|done].
  unfold for_queue. by rewrite filter_cons_True by done.
Qed.

Lemma put_nowait_other_fields (x : qid) (p : payload) (s : state) :
  ready (put_nowait x p s) = ready s /\
  log_buffer (put_nowait x p s) = log_buffer s /\
  tx_buffer (put_nowait x p s) = tx_buffer s /\
  log_subscribers (put_nowait x p s) = log_subscribers s /\
  tx_subscribers (put_nowait x p s) = tx_subscribers s /\
  streams (put_nowait x p s) = streams s.
Proof. unfold put_nowait. by repeat case_match. Qed.

Lemma deliver_cons (x : qid) (p : payload) (cbs : list (qid * payload)) (s : state) :
  deliver ((x, p) :: cbs) s = deliver cbs (put_nowait x p s).
Proof. reflexivity. Qed.

(** One round of [_fan_out] over distinct subscribers reaches the queue
    [qu] once if it is subscribed and not at all otherwise; what happens
    to the other queues does not matter. *)
Lemma deliver_fan (subs : list qid) (p : payload) (s : state) (qu : qid) (Q : Queue) :
  NoDup subs -> queues s !! qu = Some Q ->
  let s' := deliver ((fun x => (x, p)) <$> subs) s in
  queues s' !! qu =
    Some (if bool_decide (qu ∈ subs) && negb (full Q)
          then {| maxsize := maxsize Q; items := items Q ++ [p] |} else Q) /\
  lost qu s' = lost qu s ++ (if bool_decide (qu ∈ subs) && full Q then [p] else []).
Proof.
  intros Hnd. revert s Q. induction Hnd as [|x subs Hx Hnd IH]; intros s Q HQ; cbv zeta.
  { simpl. by rewrite app_nil_r. }
  rewrite fmap_cons, deliver_cons. cbv zeta in IH.
  destruct (decide (x = qu)) as [->|Hne].
  - rewrite (bool_decide_eq_true_2 (qu ∈ qu :: subs)) by apply list_elem_of_here.
    destruct (IH _ _ (put_nowait_lookup_eq qu p s Q HQ)) as [Hq Hl].
    rewrite Hq, Hl, (put_nowait_lost_eq _ _ _ _ HQ).
    rewrite (bool_decide_eq_false_2 (qu ∈ subs)) by done. simpl.
    destruct (full Q); simpl; by rewrite ?app_nil_r.
  - pose proof (put_nowait_lookup_ne x qu p s Hne) as HQ'. rewrite HQ in HQ'.
    destruct (IH _ _ HQ') as [Hq Hl].
    rewrite Hq, Hl, (put_nowait_lost_ne _ _ _ _ Hne).
    rewrite (bool_decide_ext (qu ∈ x :: subs) (qu ∈ subs)); [done|].
    rewrite elem_of_cons. intuition congruence.
Qed.

Lemma deliver_app (cbs cbs' : list (qid * payload)) (s : state) :
  deliver (cbs ++ cbs') s = deliver cbs' (deliver cbs s).
Proof. unfold deliver. by rewrite foldl_app. Qed.

Lemma run_callbacks_fan_out (subs : list qid) (p : payload) (s : state) :
  loop_ok s = true ->
  run_callbacks (_fan_out subs p s) = deliver ((fun x => (x, p)) <$> subs) (run_callbacks s).
Proof.
  intros Hl. rewrite _fan_out_eq, Hl. unfold run_callbacks. simpl.
  by rewrite deliver_app.
Qed.

Lemma deliver_other_fields (cbs : list (qid * payload)) (s : state) :
  ready (deliver cbs s) = ready s /\
  log_buffer (deliver cbs s) = log_buffer s /\
  tx_buffer (deliver cbs s) = tx_buffer s /\
  log_subscribers (deliver cbs s) = log_subscribers s /\
  tx_subscribers (deliver cbs s) = tx_subscribers s /\
  streams (deliver cbs s) = streams s.
Proof.
  revert s. induction cbs as [|[x p] cbs IH]; intros s; [done|]. simpl.
  destruct (IH (put_nowait x p s)) as (-> & -> & -> & -> & -> & ->).
  apply put_nowait_other_fields.
Qed.

(** C5: [_fan_out] never waits and never fails: when the loop is closed
    it does nothing, otherwise it only hands one [put_nowait] per
    subscriber to the loop. When the loop has run them, a subscribed
    queue with room has the payload at its end, a subscribed queue that
    was full is unchanged and the payload is lost for it alone, and a
    queue that is not subscribed is unchanged; whether one queue is full
    has no effect on any other. *)
Theorem fan_out_delivery (subs : list qid) (p : payload) (s : state)
    (qu : qid) (Q : Queue) :
  NoDup subs ->
  queues (run_callbacks s) !! qu = Some Q ->
  (loop_ok s = false -> _fan_out subs p s = s) /\
  (loop_ok s = true ->
     _fan_out subs p s = with_ready (ready s ++ ((fun x => (x, p)) <$> subs)) s /\
     let s' := run_callbacks (_fan_out subs p s) in
     queues s' !! qu =
       Some (if bool_decide (qu ∈ subs) && negb (full Q)
             then {| maxsize := maxsize Q; items := items Q ++ [p] |} else Q) /\
     lost qu s' =
       lost qu (run_callbacks s) ++ (if bool_decide (qu ∈ subs) && full Q then [p] else []) /\
     ready s' = []).
Proof.
  intros Hnd HQ. split; intros Hl.
  - by rewrite _fan_out_eq, Hl.
  - split; [by rewrite _fan_out_eq, Hl|]. simpl. rewrite run_callbacks_fan_out by done.
    destruct (deliver_fan subs p _ qu Q Hnd HQ) as [Hq Hlost].
    split; [done|]. split; [done|].
    destruct (deliver_other_fields ((fun x => (x, p)) <$> subs) (run_callbacks s)) as [-> _].
    unfold run_callbacks.
    by destruct (deliver_other_fields (ready s) (with_ready [] s)) as [-> _].
Qed.

Lemma fan_out_delivery_witness :
  NoDup (tx_subscribers one_stalled_one_reading) /\
  tx_subscribers one_stalled_one_reading = [0; 1] /\
  (length <$> (items <$> queues (run_callbacks one_stalled_one_reading) !! 0)) = Some 200 /\
  (length <$> (items <$> queues (run_callbacks one_stalled_one_reading) !! 1)) = Some 199 /\
  let s' := run_callbacks (_fan_out (tx_subscribers one_stalled_one_reading)
                             (PEvent (State "idle")) one_stalled_one_reading) in
  queues s' !! 0 = queues one_stalled_one_reading !! 0 /\
  lost 0 s' = [PEvent (State "idle")] /\
  queued 1 s' = queued 1 one_stalled_one_reading ++ [PEvent (State "idle")] /\
  lost 1 s' = [].
Proof.
  assert (Hnd : NoDup (tx_subscribers one_stalled_one_reading)).
  { assert (Hwf : wf one_stalled_one_reading)
      by (unfold one_stalled_one_reading; apply wf_run, wf_initial).
    exact (wf_nodup _ Hwf Events). }
  assert (HQ0 : exists Q, queues (run_callbacks one_stalled_one_reading) !! 0 = Some Q /\
              full Q = true /\ queues one_stalled_one_reading !! 0 = Some Q).
  { eexists. split; [vm_compute; reflexivity|]. split; vm_compute; reflexivity. }
  assert (HQ1 : exists Q, queues (run_callbacks one_stalled_one_reading) !! 1 = Some Q /\
              full Q = false /\ queued 1 one_stalled_one_reading = items Q).
  { eexists. split; [vm_compute; reflexivity|]. split; vm_compute; reflexivity. }
  destruct HQ0 as (Q0 & HQ0 & Hf0 & HQ0'), HQ1 as (Q1 & HQ1 & Hf1 & HQ1').
  destruct (fan_out_delivery (tx_subscribers one_stalled_one_reading)
              (PEvent (State "idle")) one_stalled_one_reading 0 Q0 Hnd HQ0) as [_ H0].
  destruct (fan_out_delivery (tx_subscribers one_stalled_one_reading)
              (PEvent (State "idle")) one_stalled_one_reading 1 Q1 Hnd HQ1) as [_ H1].
  destruct (H0 eq_refl) as (_ & Hq0 & Hl0 & _).
  destruct (H1 eq_refl) as (_ & Hq1 & Hl1 & _).
  cbv zeta in *. rewrite Hf0 in Hq0, Hl0. rewrite Hf1 in Hq1, Hl1.
  split; [exact Hnd|]. split; [vm_compute; reflexivity|].
  split; [vm_compute; reflexivity|]. split; [vm_compute; reflexivity|].
  split; [|split; [|split]].
  - rewrite Hq0, HQ0'. by rewrite andb_false_r.
  - rewrite Hl0. reflexivity.
  - unfold queued at 1. rewrite Hq1, HQ1'. reflexivity.
  - rewrite Hl1. reflexivity.
Defined.

End delivery.

(** ** What a subscriber sees *)

Section subscriber_view.

Lemma for_queue_fresh (qu : qid) (cbs : list (qid * payload)) :
  (forall cb, cb ∈ cbs -> cb.1 < qu) -> for_queue qu cbs = [].
Proof.
  intros H. unfold for_queue. induction cbs as [|cb cbs IH]; [done|].
  rewrite filter_cons_False.
  - apply IH. intros cb' Hcb. apply H. by apply list_elem_of_further.
  - specialize (H cb (list_elem_of_here _ _)). lia.
Qed.

Lemma for_queue_scheduled (qu : qid) (s : state) (subs : list qid) (ps : list payload) :
  NoDup subs -> loop_ok s = true ->
  for_queue qu (scheduled s subs ps) = if bool_decide (qu ∈ subs) then ps else [].
Proof.
  intros Hnd Hl. unfold scheduled. rewrite Hl.
  induction ps as [|p ps IH]; [by destruct (bool_decide _)|].
  rewrite bind_cons, for_queue_app, IH, for_queue_fan by done.
  by destruct (bool_decide _).
Qed.

(** A queue is subscribed to the channel of its size only. *)
Lemma registered_kind (g : nat) (G : Generator) (k : channel) (s : state) :
  wf s -> streams s !! g = Some G -> q G ∈ subscribers_of k s -> k = kind G.
Proof.
  intros Hwf HG Hq.
  destruct (wf_generator _ Hwf _ _ HG) as (Q & HQ & Hm).
  destruct (wf_subscribers _ Hwf _ _ Hq) as (Q' & HQ' & Hm').
  assert (Q = Q') as <- by congruence.
  destruct k, (kind G); simpl in *; congruence.
Qed.

Lemma pending_publish (g : nat) (G : Generator) (s : state) (pl pe : list payload) :
  wf s -> loop_ok s = true -> streams s !! g = Some G ->
  for_queue (q G) (scheduled s (log_subscribers s) pl ++ scheduled s (tx_subscribers s) pe)
  = if bool_decide (q G ∈ subscribers_of (kind G) s)
    then match kind G with Logs => pl | Events => pe end
    else [].
Proof.
  intros Hwf Hl HG.
  rewrite for_queue_app.
  rewrite (for_queue_scheduled _ _ (log_subscribers s)) by (done || exact (wf_nodup _ Hwf Logs)).
  rewrite (for_queue_scheduled _ _ (tx_subscribers s)) by (done || exact (wf_nodup _ Hwf Events)).
  pose proof (registered_kind g G Logs s Hwf HG) as HL.
  pose proof (registered_kind g G Events s Hwf HG) as HE.
  simpl in HL, HE.
  destruct (kind G); simpl.
  - rewrite (bool_decide_eq_false_2 (q G ∈ tx_subscribers s)); [by rewrite app_nil_r|].
    intros H. by specialize (HE H).
  - rewrite (bool_decide_eq_false_2 (q G ∈ log_subscribers s)); [done|].
    intros H. by specialize (HL H).
Qed.

Lemma subscribers_step (a : action) (s : state) (k : channel) (qu : qid) :
  qu ∈ subscribers_of k (step a s) ->
  qu ∈ subscribers_of k s \/ qu = length (queues s).
Proof.
  destruct a; cbn [step].
  - destruct (reader_line_effect raw s) as (s' & -> & _ & _ & _ & _ & _ & HL & HT & _).
    simpl. destruct k; simpl; rewrite ?HL, ?HT; auto.
  - destruct (reader_eof_effect s) as (_ & _ & _ & _ & _ & HL & HT & _).
    destruct k; simpl; rewrite ?HL, ?HT; auto.
  - unfold_ops. repeat case_match; simplify_eq/=; auto.
  - unfold_ops. repeat case_match; simplify_eq/=; auto.
  - unfold_ops. repeat case_match; simplify_eq/=; auto;
      by intros ?%elem_of_nil.
  - unfold_ops. repeat case_match; simplify_eq/=; auto.
  - rewrite subscribers_of_stream. intros [H|H]%elem_of_app; [by left|].
    case_bool_decide; [|by apply elem_of_nil in H].
    apply list_elem_of_singleton in H. by right.
  - unfold resume. destruct (streams s !! g) as [G|]; [|by left].
    assert (Hfin : forall s0, subscribers_of k s0 = subscribers_of k s ->
              qu ∈ subscribers_of k (finally (kind G) (q G) s0) -> qu ∈ subscribers_of k s).
    { intros s0 H0. unfold finally. case_bool_decide; [|by rewrite H0].
      destruct k, (kind G); simpl in *; rewrite <- ?H0; auto;
        apply list_remove_first_subseteq. }
    assert (Hlive : forall G0, subscribers_of k (live_step g G0 s) = subscribers_of k s).
    { intros G0. unfold_ops. by repeat case_match; simplify_eq/=. }
    destruct (at_pc G) as [| [|x rest] | | |]; simpl; try (rewrite Hlive); auto.
    + destruct (buffer_of (kind G) s); simpl; [rewrite Hlive|destruct k]; auto.
    + intros H. left. apply (Hfin s eq_refl). by destruct k.
  - unfold close. destruct (streams s !! g) as [G|]; [|by left].
    assert (Hfin : qu ∈ subscribers_of k (finally (kind G) (q G) s) -> qu ∈ subscribers_of k s).
    { unfold finally. case_bool_decide; [|done].
      destruct k, (kind G); simpl in *; auto; apply list_remove_first_subseteq. }
    destruct (at_pc G); simpl; auto; try (destruct k; by auto);
      intros H; left; apply Hfin; by destruct k.
Qed.

Lemma dropped_step (a : action) (s : state) :
  exists extra, dropped (step a s) = dropped s ++ extra.
Proof.
  destruct a; cbn [step].
  - destruct (reader_line_effect raw s) as (s' & -> & H). simpl.
    exists []. rewrite app_nil_r. apply H.
  - exists []. rewrite app_nil_r. apply reader_eof_effect.
  - unfold run_callback. destruct (ready s) as [|[x p] rest]; [exists []; by rewrite app_nil_r|].
    rewrite put_nowait_dropped. by eexists.
  - exists []. rewrite app_nil_r. unfold_ops. by repeat case_match.
  - exists []. rewrite app_nil_r. unfold_ops. by repeat case_match.
  - exists []. rewrite app_nil_r. unfold_ops. by repeat case_match.
  - exists []. rewrite app_nil_r. apply dropped_stream.
  - exists []. rewrite app_nil_r. unfold_ops. by repeat case_match; simplify_eq/=.
  - exists []. rewrite app_nil_r. unfold_ops. by repeat case_match; simplify_eq/=.
Qed.

Lemma lost_step (a : action) (s : state) (qu : qid) :
  lost qu s `prefix_of` lost qu (step a s).
Proof.
  destruct (dropped_step a s) as [extra He]. unfold lost. rewrite He, for_queue_app.
  by apply prefix_app_r.
Qed.

Lemma lost_run (acts : list action) (s : state) (qu : qid) :
  lost qu s `prefix_of` lost qu (run acts s).
Proof.
  revert s. induction acts as [|a acts IH]; intros s; [done|].
  etrans; [apply (lost_step a)|apply IH].
Qed.

Lemma queues_length_step (a : action) (s : state) :
  length (queues s) <= length (queues (step a s)).
Proof.
  destruct a; cbn [step].
  - destruct (reader_line_effect raw s) as (s' & -> & _ & _ & _ & _ & _ & _ & _ & Hq & _).
    simpl. by rewrite Hq.
  - destruct (reader_eof_effect s) as (_ & _ & _ & _ & _ & _ & _ & Hq & _). by rewrite Hq.
  - unfold_ops. repeat case_match; simplify_eq/=; rewrite ?length_insert; done.
  - unfold_ops. repeat case_match; simplify_eq/=; done.
  - unfold_ops. repeat case_match; simplify_eq/=; done.
  - unfold_ops. repeat case_match; simplify_eq/=; done.
  - rewrite queues_stream, length_app. lia.
  - unfold_ops. repeat case_match; simplify_eq/=; rewrite ?length_insert; done.
  - unfold_ops. repeat case_match; simplify_eq/=; rewrite ?length_insert; done.
Qed.

End subscriber_view.

Section subscriber_view_steps.

Lemma view_frame (G : Generator) (s s' : state) :
  queues s' !! q G = queues s !! q G -> ready s' = ready s -> view G s' = view G s.
Proof. intros Hq Hr. unfold view, queued, pending. by rewrite Hq, Hr. Qed.

Lemma received_yield (c : chunk) (at' : pc) (G : Generator) :
  received (yield c at' G) = received G ++ payload_of c.
Proof. unfold received, yield. simpl. by rewrite bind_app, bind_singleton. Qed.

Lemma nothing_published (b : bool) (l : list payload) :
  l ++ (if b then [] else []) = l.
Proof. destruct b; by rewrite app_nil_r. Qed.

Lemma finally_fields (k : channel) (qu : qid) (s : state) :
  queues (finally k qu s) = queues s /\ ready (finally k qu s) = ready s /\
  dropped (finally k qu s) = dropped s.
Proof. unfold finally. case_bool_decide; [|done]. by destruct k. Qed.

Lemma worker_exit_fields (code : Z) (s : state) :
  streams (worker_exit code s) = streams s /\
  queues (worker_exit code s) = queues s /\ ready (worker_exit code s) = ready s.
Proof. unfold worker_exit. by repeat case_match. Qed.

Lemma start_agent_fields (config : AgentConfig) (spawn : option nat) (s : state) :
  streams (start_agent config spawn s).2 = streams s /\
  queues (start_agent config spawn s).2 = queues s /\
  ready (start_agent config spawn s).2 = ready s.
Proof. unfold start_agent. by repeat case_match. Qed.

Lemma stop_agent_fields (in_time : bool) (s : state) :
  streams (stop_agent in_time s).2 = streams s /\
  queues (stop_agent in_time s).2 = queues s /\
  ready (stop_agent in_time s).2 = ready s.
Proof. unfold stop_agent. by repeat case_match. Qed.

(** The generator takes the oldest item of its queue, or pings. *)
Lemma live_step_view (g : nat) (G : Generator) (s : state) :
  wf s -> streams s !! g = Some G -> backlog_rest G = [] ->
  exists G', streams (live_step g G s) !! g = Some G' /\ q G' = q G /\ kind G' = kind G /\
    at_pc G' <> Created /\ backlog_rest G' = [] /\
    view G' (live_step g G s) = view G s /\
    dropped (live_step g G s) = dropped s.
Proof.
  intros Hwf HG Hrest.
  destruct (wf_generator _ Hwf _ _ HG) as (Q & HQ & _).
  pose proof (lookup_lt_Some _ _ _ HG) as Hg.
  pose proof (lookup_lt_Some _ _ _ HQ) as Hq.
  unfold live_step, get. rewrite HQ.
  destruct (items Q) as [|x xs] eqn:Hit.
  - eexists. split; [apply list_lookup_insert_eq, Hg|]. simpl.
    repeat split; try done.
    unfold view, queued, pending. simpl.
    rewrite received_yield, Hrest. simpl. by rewrite app_nil_r.
  - assert (Hview : forall c at',
      payload_of c = [x] -> at' = Live \/ at' = Exiting ->
      let s' := set_generator g (yield c at' G)
                  (with_queues (<[q G := {| maxsize := maxsize Q; items := xs |}]> (queues s)) s) in
      view (yield c at' G) s' = view G s).
    { intros c at' Hc Hat. unfold view, queued, pending. simpl.
      rewrite list_lookup_insert_eq, HQ, Hit, received_yield, Hc, Hrest by done. simpl.
      unfold backlog_rest. simpl. destruct Hat as [-> | ->]; simpl;
        by rewrite <- !app_assoc. }
    destruct (kind G) eqn:Hk.
    + destruct x.
      * eexists. split; [apply list_lookup_insert_eq, Hg|].
        repeat split; try done. by apply Hview; [|left].
      * eexists. split; [apply list_lookup_insert_eq, Hg|].
        repeat split; try done. by apply Hview; [|right].
      * eexists. split; [apply list_lookup_insert_eq, Hg|].
        repeat split; try done. by apply Hview; [|left].
    + eexists. split; [apply list_lookup_insert_eq, Hg|].
      repeat split; try done.
      * simpl. by destruct (leaves_events_loop x).
      * unfold backlog_rest. simpl. by destruct (leaves_events_loop x).
      * apply Hview; [done|]. destruct (leaves_events_loop x); auto.
Qed.

(** What a step changes in what generator [g] has sent and has still to
    send: nothing, except that a line or the end of the output adds what
    it publishes on the generator's channel when the queue is
    subscribed. The step must not close the generator, the generator has
    taken its copy of the buffer, and the step loses nothing for its
    queue. *)
Lemma view_step (a : action) (s : state) (g : nat) (G : Generator) :
  wf s -> loop_ok s = true -> streams s !! g = Some G -> at_pc G <> Created ->
  is_close g a = false ->
  exists G', streams (step a s) !! g = Some G' /\ q G' = q G /\ kind G' = kind G /\
    at_pc G' <> Created /\
    (lost (q G) (step a s) = lost (q G) s ->
     view G' (step a s) =
       view G s ++ (if bool_decide (q G ∈ subscribers_of (kind G) s)
                    then published (kind G) a else [])).
Proof.
  intros Hwf Hl HG HnC Hclose.
  destruct (wf_generator _ Hwf _ _ HG) as (Q & HQ & _).
  pose proof (lookup_lt_Some _ _ _ HG) as Hg.
  pose proof (lookup_lt_Some _ _ _ HQ) as Hq.
  destruct a; cbn [step].
  - (* a line *)
    destruct (reader_line_effect raw s)
      as (s' & -> & _ & _ & Hr & _ & _ & _ & _ & Hqs & Hd & _ & Hst).
    simpl. exists G. rewrite Hst. repeat split; try done. intros _.
    unfold view, queued, pending. rewrite Hqs, Hr, for_queue_app.
    rewrite (pending_publish g G s) by done.
    by rewrite <- !app_assoc.
  - (* the end of the output *)
    destruct (reader_eof_effect s) as (_ & _ & Hr & _ & _ & _ & _ & Hqs & Hd & _ & Hst).
    exists G. rewrite Hst. repeat split; try done. intros _.
    unfold view, queued, pending. rewrite Hqs, Hr, for_queue_app.
    rewrite (pending_publish g G s) by done.
    by rewrite <- !app_assoc.
  - (* the loop runs a callback *)
    unfold run_callback. destruct (ready s) as [|[x p] rest] eqn:Hr.
    { exists G. repeat split; try done. intros _. by rewrite nothing_published. }
    destruct (put_nowait_other_fields x p (with_ready rest s)) as (Hr' & _ & _ & _ & _ & Hst).
    exists G. rewrite Hst. repeat split; try done. rewrite nothing_published.
    destruct (decide (x = q G)) as [->|Hne].
    + rewrite (put_nowait_lost_eq _ _ _ Q) by done.
      unfold view, queued, pending.
      rewrite (put_nowait_lookup_eq _ _ _ Q), HQ, Hr', Hr by done. simpl.
      destruct (full Q).
      * intros Hlost. apply (f_equal length) in Hlost. rewrite length_app in Hlost.
        simpl in Hlost. unfold lost in Hlost. simpl in Hlost. lia.
      * intros _. unfold for_queue. rewrite filter_cons_True by done.
        rewrite fmap_cons. simpl. by rewrite <- !app_assoc.
    + intros _. unfold view, queued, pending.
      rewrite put_nowait_lookup_ne, Hr', Hr by done. simpl.
      unfold for_queue. by rewrite filter_cons_False by done.
  - (* the worker exits *)
    destruct (worker_exit_fields code s) as (Hst & Hqs & Hr).
    exists G. rewrite Hst. repeat split; try done. intros _.
    rewrite nothing_published. by apply view_frame; [rewrite Hqs|].
  - (* /start *)
    destruct (start_agent_fields config spawn s) as (Hst & Hqs & Hr).
    exists G. rewrite Hst. repeat split; try done. intros _.
    rewrite nothing_published. by apply view_frame; [rewrite Hqs|].
  - (* /stop *)
    destruct (stop_agent_fields in_time s) as (Hst & Hqs & Hr).
    exists G. rewrite Hst. repeat split; try done. intros _.
    rewrite nothing_published. by apply view_frame; [rewrite Hqs|].
  - (* a new stream *)
    exists G. rewrite streams_stream, lookup_app_l by done.
    repeat split; try done. intros _. rewrite nothing_published.
    apply view_frame; [|apply ready_stream].
    by rewrite queues_stream, lookup_app_l.
  - (* a generator is resumed *)
    rename g0 into g'. destruct (decide (g' = g)) as [->|Hne].
    + unfold resume. rewrite HG. destruct (at_pc G) as [|rest| | |] eqn:Hpc; [done| | | |].
      * destruct rest as [|x rest]; simpl.
        -- destruct (live_step_view g G s Hwf HG) as (G' & HG' & Hq' & Hk' & Hc' & _ & Hv & _).
           { unfold backlog_rest. by rewrite Hpc. }
           exists G'. repeat split; try done. intros _. by rewrite nothing_published.
        -- eexists. split; [apply list_lookup_insert_eq, Hg|].
           repeat split; try done. intros _. rewrite nothing_published.
           unfold view, queued, pending. simpl. rewrite received_yield.
           unfold backlog_rest. simpl. rewrite Hpc. simpl. by rewrite <- !app_assoc.
      * destruct (live_step_view g G s Hwf HG) as (G' & HG' & Hq' & Hk' & Hc' & _ & Hv & _).
        { unfold backlog_rest. by rewrite Hpc. }
        exists G'. repeat split; try done. intros _. by rewrite nothing_published.
      * destruct (finally_fields (kind G) (q G) s) as (Hfq & Hfr & Hfd).
        exists (finished G). split.
        { unfold set_generator. simpl. apply list_lookup_insert_eq.
          by rewrite streams_finally. }
        repeat split; try done. intros _. rewrite nothing_published.
        unfold view, queued, pending, backlog_rest, received. simpl.
        by rewrite Hfq, Hfr, Hpc.
      * exists G. repeat split; try done; [by rewrite Hpc|].
        intros _. by rewrite nothing_published.
    + unfold resume. destruct (streams s !! g') as [G2|] eqn:HG2.
      2:{ exists G. repeat split; try done. intros _. by rewrite nothing_published. }
      assert (Hqne : q G2 <> q G).
      { intros Heq. by apply Hne, (wf_own_queue _ Hwf g' g G2 G). }
      assert (Hlive : forall G0, q G0 = q G2 ->
        streams (live_step g' G0 s) !! g = Some G /\
        queues (live_step g' G0 s) !! q G = queues s !! q G /\
        ready (live_step g' G0 s) = ready s).
      { intros G0 HG0. unfold live_step, get. rewrite HG0.
        repeat case_match; simplify_eq/=;
          rewrite ?list_lookup_insert_ne by done; done. }
      assert (Hcase : forall s',
        streams s' !! g = Some G -> queues s' !! q G = queues s !! q G ->
        ready s' = ready s ->
        exists G', streams s' !! g = Some G' /\ q G' = q G /\ kind G' = kind G /\
          at_pc G' <> Created /\
          (lost (q G) s' = lost (q G) s ->
           view G' s' = view G s ++ (if bool_decide (q G ∈ subscribers_of (kind G) s)
                                     then published (kind G) (Resume g') else []))).
      { intros s' H1 H2 H3. exists G. repeat split; try done. intros _.
        rewrite nothing_published. by apply view_frame. }
      destruct (at_pc G2) as [|rest| | |] eqn:Hpc2.
      * destruct (buffer_of (kind G2) s) as [|x rest]; unfold backlog_step.
        -- destruct (Hlive G2 eq_refl) as (H1 & H2 & H3). by apply Hcase.
        -- apply Hcase; simpl; [by rewrite list_lookup_insert_ne|done..].
      * destruct rest as [|x rest]; unfold backlog_step.
        -- destruct (Hlive G2 eq_refl) as (H1 & H2 & H3). by apply Hcase.
        -- apply Hcase; simpl; [by rewrite list_lookup_insert_ne|done..].
      * destruct (Hlive G2 eq_refl) as (H1 & H2 & H3). by apply Hcase.
      * destruct (finally_fields (kind G2) (q G2) s) as (Hfq & Hfr & Hfd).
        apply Hcase; simpl;
          [by rewrite list_lookup_insert_ne, streams_finally|by rewrite Hfq|done].
      * by apply Hcase.
  - (* another generator is closed *)
    rename g0 into g'. simpl in Hclose. apply bool_decide_eq_false in Hclose.
    unfold close. destruct (streams s !! g') as [G2|] eqn:HG2.
    2:{ exists G. repeat split; try done. intros _. by rewrite nothing_published. }
    destruct (finally_fields (kind G2) (q G2) s) as (Hfq & Hfr & Hfd).
    exists G.
    assert (Hcase : forall s',
      streams s' !! g = Some G -> queues s' !! q G = queues s !! q G ->
      ready s' = ready s ->
      streams s' !! g = Some G /\ q G = q G /\ kind G = kind G /\
        at_pc G <> Created /\
        (lost (q G) s' = lost (q G) s ->
         view G s' = view G s ++ (if bool_decide (q G ∈ subscribers_of (kind G) s)
                                  then published (kind G) (Close g') else []))).
    { intros s' H1 H2 H3. repeat split; try done. intros _.
      rewrite nothing_published. by apply view_frame. }
    destruct (at_pc G2); apply Hcase; simpl;
      rewrite ?list_lookup_insert_ne, ?streams_finally, ?Hfq, ?Hfr by done; done.
Qed.

End subscriber_view_steps.

Section subscriber_view_runs.

Lemma loop_ok_step (a : action) (s : state) : loop_ok (step a s) = loop_ok s.
Proof.
  destruct a; cbn [step].
  - destruct (reader_line_effect raw s) as (s' & -> & _ & _ & _ & H & _). done.
  - apply reader_eof_effect.
  - unfold_ops. by repeat case_match.
  - unfold_ops. by repeat case_match.
  - unfold_ops. by repeat case_match.
  - unfold_ops. by repeat case_match.
  - by destruct k.
  - unfold_ops. by repeat case_match; simplify_eq/=.
  - unfold_ops. by repeat case_match; simplify_eq/=.
Qed.

Lemma loop_ok_run (acts : list action) (s : state) : loop_ok (run acts s) = loop_ok s.
Proof.
  revert s. induction acts as [|a acts IH]; intros s; [done|].
  simpl. by rewrite IH, loop_ok_step.
Qed.

Lemma reachable_loop_ok (s : state) : reachable s -> loop_ok s = true.
Proof. intros [acts ->]. by rewrite loop_ok_run. Qed.

Lemma published_all_snoc (k : channel) (acts : list action) (a : action) :
  published_all k (acts ++ [a]) = published_all k acts ++ published k a.
Proof. unfold published_all. by rewrite bind_app, bind_singleton. Qed.

(** Over a whole run: as long as the queue of generator [g] is still
    subscribed and nothing was lost for it, what [g] has sent and has
    still to send is what it had, followed by everything published on its
    channel since, in order. *)
Lemma view_run (acts : list action) (s : state) (g : nat) (G : Generator) :
  wf s -> loop_ok s = true -> streams s !! g = Some G -> at_pc G <> Created ->
  Forall (fun a => is_close g a = false) acts ->
  exists G', streams (run acts s) !! g = Some G' /\ q G' = q G /\ kind G' = kind G /\
    at_pc G' <> Created /\
    (q G ∈ subscribers_of (kind G) (run acts s) ->
     lost (q G) (run acts s) = lost (q G) s ->
     view G' (run acts s) = view G s ++ published_all (kind G) acts).
Proof.
  intros Hwf Hl HG HnC. induction acts as [|a acts IH] using rev_ind; intros Hcl.
  { exists G. repeat split; try done. intros _ _. by rewrite app_nil_r. }
  apply Forall_app in Hcl as [Hcl Ha]. apply Forall_inv in Ha.
  destruct (IH Hcl) as (G1 & HG1 & Hq1 & Hk1 & Hc1 & Hv1).
  rewrite run_snoc. set (s1 := run acts s) in *.
  assert (Hwf1 : wf s1) by by apply wf_run.
  assert (Hl1 : loop_ok s1 = true) by (unfold s1; by rewrite loop_ok_run).
  destruct (view_step a s1 g G1 Hwf1 Hl1 HG1 Hc1 Ha) as (G' & HG' & Hq' & Hk' & Hc' & Hv').
  exists G'. rewrite Hq', Hk', Hq1, Hk1 in *. repeat split; try done.
  intros Hreg Hlost.
  assert (Hreg1 : q G ∈ subscribers_of (kind G) s1).
  { destruct (subscribers_step _ _ _ _ Hreg) as [H|H]; [done|].
    destruct (wf_generator _ Hwf1 _ _ HG1) as (Q & HQ & _).
    apply lookup_lt_Some in HQ. rewrite Hq1 in HQ. lia. }
  assert (Hlost1 : lost (q G) s1 = lost (q G) s).
  { symmetry. apply prefix_length_eq; [apply lost_run|].
    rewrite <- Hlost. apply prefix_length, lost_step. }
  rewrite Hv', Hv1 by congruence.
  rewrite bool_decide_eq_true_2 by done.
  by rewrite published_all_snoc, app_assoc.
Qed.

Lemma buffer_of_stream (k k' : channel) (s : state) :
  buffer_of k' (stream k s).2 = buffer_of k' s.
Proof. by destruct k, k'. Qed.

Lemma live_step_subscribers (k : channel) (g : nat) (G : Generator) (s : state) :
  subscribers_of k (live_step g G s) = subscribers_of k s.
Proof. unfold_ops. by repeat case_match; simplify_eq/=. Qed.

(** A new subscriber that takes its copy of the buffer at once: it has
    the buffer to send, in order, and nothing else; its queue is
    subscribed and has lost nothing. *)
Lemma subscribe_view (k : channel) (s : state) :
  wf s ->
  let g := (stream k s).1 in
  let s2 := resume g (stream k s).2 in
  exists G, streams s2 !! g = Some G /\ kind G = k /\ at_pc G <> Created /\
    view G s2 = buffer_of k s /\ lost (q G) s2 = [] /\
    q G ∈ subscribers_of k s2.
Proof.
  intros Hwf g s2. subst g s2.
  set (G0 := {| kind := k; q := length (queues s); at_pc := Created; sent := [] |}).
  assert (Hg : (stream k s).1 = length (streams s)) by by destruct k.
  rewrite Hg.
  assert (Hbuf : buffer_of k (stream k s).2 = buffer_of k s) by apply buffer_of_stream.
  assert (HG0 : streams (stream k s).2 !! length (streams s) = Some G0).
  { rewrite streams_stream, lookup_app_r by lia. by rewrite Nat.sub_diag. }
  assert (Hwf1 : wf (stream k s).2) by by apply wf_stream.
  assert (Hreg : q G0 ∈ subscribers_of k (stream k s).2).
  { rewrite subscribers_of_stream, bool_decide_eq_true_2 by done.
    apply elem_of_app. right. apply list_elem_of_here. }
  assert (Hlost : lost (q G0) (stream k s).2 = []).
  { unfold lost. rewrite dropped_stream. apply for_queue_fresh, (wf_dropped _ Hwf). }
  assert (Hpend : pending (q G0) (stream k s).2 = []).
  { unfold pending. rewrite ready_stream. apply for_queue_fresh, (wf_ready _ Hwf). }
  assert (Hqueued : queued (q G0) (stream k s).2 = []).
  { unfold queued. rewrite queues_stream. simpl.
    rewrite lookup_app_r by lia. by rewrite Nat.sub_diag. }
  generalize dependent (stream k s).2. intros s1 Hbuf HG0 Hwf1 Hreg Hlost Hpend Hqueued.
  unfold resume. rewrite HG0. cbn [at_pc G0 kind]. rewrite Hbuf.
  destruct (buffer_of k s) as [|x rest]; unfold backlog_step.
  - destruct (live_step_view _ G0 s1 Hwf1 HG0 eq_refl)
      as (G' & HG' & Hq' & Hk' & Hc' & _ & Hv & Hd).
    exists G'. rewrite Hq'. split; [done|]. split; [done|]. split; [done|].
    split; [|split].
    + rewrite Hv. unfold view. by rewrite Hpend, Hqueued.
    + unfold lost in *. by rewrite Hd.
    + by rewrite live_step_subscribers.
  - eexists. split.
    { unfold set_generator. simpl. apply list_lookup_insert_eq.
      by eapply lookup_lt_Some. }
    cbn [yield kind q at_pc]. split; [done|]. split; [done|].
    split; [|split].
    + unfold view, received, backlog_rest. cbn [yield kind q at_pc sent].
      assert (Hp : pending (q G0) (set_generator (length (streams s))
                (yield (Data x) (Backlog rest) G0) s1) = []) by exact Hpend.
      assert (Hq : queued (q G0) (set_generator (length (streams s))
                (yield (Data x) (Backlog rest) G0) s1) = []) by exact Hqueued.
      rewrite Hp, Hq. simpl. by rewrite !app_nil_r.
    + exact Hlost.
    + by destruct k.
Qed.

Lemma run_cons (a : action) (acts : list action) (s : state) :
  run (a :: acts) s = run acts (step a s).
Proof. reflexivity. Qed.

Lemma logged_cons (a : action) (acts : list action) :
  logged (a :: acts) =
  match a with ReadLine raw => line_logs raw | _ => [] end ++ logged acts.
Proof. reflexivity. Qed.

Lemma transcripts_cons (a : action) (acts : list action) :
  transcripts (a :: acts) =
  match a with
  | ReadLine raw => filter (fun ev => is_transcript ev = true) (line_events raw)
  | _ => []
  end ++ transcripts acts.
Proof. reflexivity. Qed.

(** Without a restart the log buffer holds the last 500 lines and the
    events buffer every transcript. *)
Lemma run_log_buffer (acts : list action) (s : state) :
  Forall (fun a => is_start a = false) acts -> length (log_buffer s) <= 500 ->
  log_buffer (run acts s) = last_n 500 (log_buffer s ++ logged acts).
Proof.
  revert s. induction acts as [|a acts IH]; intros s Hns Hb.
  { unfold logged. simpl. by rewrite app_nil_r, last_n_short. }
  apply Forall_cons in Hns as [Ha Hns].
  rewrite run_cons, logged_cons, IH by (done || by apply step_log_buffer_bound).
  rewrite step_log_buffer, app_assoc.
  destruct a; try done; rewrite ?app_nil_r; try done.
  destruct (line_logs raw) eqn:E; [by rewrite app_nil_r|]. by rewrite last_n_app.
Qed.

Lemma run_tx_buffer (acts : list action) (s : state) :
  Forall (fun a => is_start a = false) acts ->
  tx_buffer (run acts s) = tx_buffer s ++ transcripts acts.
Proof.
  revert s. induction acts as [|a acts IH]; intros s Hns.
  { unfold transcripts. simpl. by rewrite app_nil_r. }
  apply Forall_cons in Hns as [Ha Hns].
  rewrite run_cons, transcripts_cons, IH by done.
  rewrite step_tx_buffer, app_assoc. destruct a; try done; by rewrite ?app_nil_r.
Qed.

(** A client that reads gets the next item of what its generator has
    still to send: first the rest of the backlog, then its queue. *)
Lemma resume_delivers_next (g : nat) (G : Generator) (s : state)
    (x : payload) (xs : list payload) :
  wf s -> streams s !! g = Some G ->
  at_pc G = Live \/ (exists rest, at_pc G = Backlog rest) ->
  backlog_rest G ++ queued (q G) s = x :: xs ->
  exists G', streams (resume g s) !! g = Some G' /\
    received G' = received G ++ [x] /\
    backlog_rest G' ++ queued (q G) (resume g s) = xs.
Proof.
  intros Hwf HG Hpc Hnext.
  pose proof (lookup_lt_Some _ _ _ HG) as Hg.
  destruct (wf_generator _ Hwf _ _ HG) as (Q & HQ & _).
  pose proof (lookup_lt_Some _ _ _ HQ) as Hq.
  assert (Hlive : backlog_rest G = [] -> resume g s = live_step g G s ->
            exists G', streams (resume g s) !! g = Some G' /\
              received G' = received G ++ [x] /\
              backlog_rest G' ++ queued (q G) (resume g s) = xs).
  { intros Hb ->. rewrite Hb in Hnext. simpl in Hnext.
    unfold queued in Hnext. rewrite HQ in Hnext.
    unfold live_step, get. rewrite HQ, Hnext.
    assert (Hcase : forall c at', payload_of c = [x] -> at' = Live \/ at' = Exiting ->
      exists G', streams (set_generator g (yield c at' G)
                   (with_queues (<[q G := {| maxsize := maxsize Q; items := xs |}]> (queues s)) s))
                 !! g = Some G' /\
        received G' = received G ++ [x] /\
        backlog_rest G' ++ queued (q G) (set_generator g (yield c at' G)
                   (with_queues (<[q G := {| maxsize := maxsize Q; items := xs |}]> (queues s)) s))
        = xs).
    { intros c at' Hc Hat. eexists. split; [apply list_lookup_insert_eq, Hg|].
      rewrite received_yield, Hc. split; [done|].
      unfold queued, backlog_rest. simpl. rewrite list_lookup_insert_eq by done.
      by destruct Hat as [-> | ->]. }
    destruct (kind G); [destruct x|]; apply Hcase; auto.
    destruct (leaves_events_loop x); auto. }
  destruct Hpc as [Hpc|[rest Hpc]].
  - apply Hlive; unfold backlog_rest, resume; by rewrite ?HG, Hpc.
  - destruct rest as [|y rest].
    + apply Hlive; unfold backlog_rest, resume; by rewrite ?HG, Hpc.
    + unfold backlog_rest in Hnext. rewrite Hpc in Hnext. injection Hnext as -> <-.
      unfold resume. rewrite HG, Hpc. simpl.
      eexists. split; [apply list_lookup_insert_eq, Hg|].
      rewrite received_yield. split; [done|]. by unfold backlog_rest, queued.
Qed.

End subscriber_view_runs.

(** ** Backlog and live stream *)

Section backlog_and_live.

(** C3, as amended: take a state with empty buffers (such as the one
    after [/start]) and any run without a restart. A client that then
    subscribes and takes its copy of the buffer at once has as backlog, on
    the log stream, the last min(K, 500) of the K lines published, oldest
    first, and on the events stream the transcript events published, all
    of them and oldest first (min(K, 200) of them when there are at most
    200): state events and the end of the output are never replayed.
    From then on, as long
    as its queue is subscribed and has lost nothing to a full queue, what
    the client has received and what is still on its way (the rest of the
    backlog, its queue, the callbacks not run yet) is exactly the backlog
    followed by everything published since, in order: nothing twice,
    nothing missing; and each time the client reads while something is
    left in the backlog or in its queue, it receives the next item. *)
Theorem subscriber_gets_backlog_then_live (k : channel) (s0 : state)
    (before after : list action) :
  wf s0 -> loop_ok s0 = true -> log_buffer s0 = [] -> tx_buffer s0 = [] ->
  Forall (fun a => is_start a = false) before ->
  let s := run before s0 in
  let g := (stream k s).1 in
  let s2 := resume g (stream k s).2 in
  Forall (fun a => is_close g a = false) after ->
  let s3 := run after s2 in
  let backlog := match k with
                 | Logs => PLine <$> last_n 500 (logged before)
                 | Events => PEvent <$> transcripts before
                 end in
  buffer_of k s = backlog /\
  length backlog = match k with
                   | Logs => length (logged before) `min` capacity Logs
                   | Events => length (transcripts before)
                   end /\
  (k = Events -> length (transcripts before) <= 200 ->
   length backlog = length (transcripts before) `min` capacity Events) /\
  exists G2 G3, streams s2 !! g = Some G2 /\ view G2 s2 = backlog /\
    streams s3 !! g = Some G3 /\ kind G3 = k /\ q G3 = q G2 /\
    (q G3 ∈ subscribers_of k s3 -> lost (q G3) s3 = [] ->
     view G3 s3 = backlog ++ published_all k after /\
     received G3 `prefix_of` backlog ++ published_all k after) /\
    (forall x xs,
       at_pc G3 = Live \/ (exists rest, at_pc G3 = Backlog rest) ->
       backlog_rest G3 ++ queued (q G3) s3 = x :: xs ->
       exists G4, streams (resume g s3) !! g = Some G4 /\
         received G4 = received G3 ++ [x]).
Proof.
  intros Hwf Hl Hlog Htx Hns s g s2 Hcl s3 backlog.
  assert (Hwfs : wf s) by by apply wf_run.
  assert (Hls : loop_ok s = true) by (unfold s; by rewrite loop_ok_run).
  assert (Hbuf : buffer_of k s = backlog).
  { unfold backlog, s. destruct k; simpl.
    - rewrite run_log_buffer, Hlog by (done || rewrite Hlog; simpl; lia). done.
    - by rewrite run_tx_buffer, Htx. }
  split; [done|]. split.
  { unfold backlog. destruct k; rewrite length_fmap; [apply length_last_n|done]. }
  split.
  { intros -> Hcap. unfold backlog. rewrite length_fmap. simpl. lia. }
  destruct (subscribe_view k s Hwfs) as (G2 & HG2 & Hk2 & Hc2 & Hv2 & Hlost2 & Hreg2).
  fold g s2 in HG2, Hv2, Hlost2, Hreg2.
  assert (Hwf2 : wf s2) by (by apply wf_resume, wf_stream).
  assert (Hl2 : loop_ok s2 = true).
  { unfold s2. rewrite <- Hls. etrans; [apply (loop_ok_step (Resume g))|].
    apply (loop_ok_step (Stream k)). }
  destruct (view_run after s2 g G2 Hwf2 Hl2 HG2 Hc2 Hcl)
    as (G3 & HG3 & Hq3 & Hk3 & Hc3 & Hv3).
  exists G2, G3. fold s3 in HG3, Hv3. rewrite Hk2 in *. rewrite Hq3.
  split; [done|]. split; [by rewrite Hv2|]. split; [done|]. split; [done|].
  split; [done|]. split.
  - intros Hreg Hlost.
    rewrite Hlost2 in Hv3. specialize (Hv3 Hreg Hlost). rewrite Hv2, Hbuf in Hv3.
    split; [done|]. rewrite <- Hv3. unfold view. by apply prefix_app_r.
  - intros x xs Hpc Hnext. rewrite <- Hq3 in Hnext.
    assert (Hwf3 : wf s3) by by apply wf_run.
    destruct (resume_delivers_next g G3 s3 x xs Hwf3 HG3 Hpc Hnext) as (G4 & HG4 & Hr & _).
    by exists G4.
Qed.

Lemma subscriber_gets_backlog_then_live_witness :
  wf after_start /\ loop_ok after_start = true /\
  log_buffer after_start = [] /\ tx_buffer after_start = [] /\
  Forall (fun a => is_start a = false) session_before /\
  Forall (fun a => is_close 0 a = false) session_after /\
  exists G3,
    streams (run session_after
               (resume 0 (stream Events (run session_before after_start)).2)) !! 0
    = Some G3 /\
    view G3 (run session_after
               (resume 0 (stream Events (run session_before after_start)).2))
    = [PEvent (Transcript User "hi"); PEvent (Transcript Agent "hello");
       PEvent (State "idle")].
Proof.
  assert (Hwf : wf after_start) by apply wf_run, wf_initial.
  assert (Hns : Forall (fun a => is_start a = false) session_before)
    by (repeat constructor).
  assert (Hcl : Forall (fun a => is_close 0 a = false) session_after)
    by (repeat constructor).
  repeat (split; [done|]).
  destruct (subscriber_gets_backlog_then_live Events after_start session_before
              session_after Hwf eq_refl eq_refl eq_refl Hns Hcl)
    as (_ & _ & _ & G2 & G3 & _ & _ & HG3 & _ & _ & Hv & _).
  exists G3. split; [exact HG3|].
  assert (HG3' := HG3). vm_compute in HG3'. injection HG3' as <-.
  destruct Hv as [Hview _]; [vm_compute; apply list_elem_of_here|reflexivity|].
  exact Hview.
Defined.

(** C3 as stated fails on the events stream: a state event is published
    but not kept, so after one state event (K = 1) a new subscriber has
    an empty backlog and its first chunk is a keep-alive; and after 201
    transcript events the backlog has 201 entries, not min(201, 200). *)
Lemma events_backlog_counterexample :
  published_all Events [ReadLine "AGENT_STATE: active"] = [PEvent (State "active")] /\
  buffer_of Events (run [ReadLine "AGENT_STATE: active"] after_start) = [] /\
  streams (resume 0 (stream Events (run [ReadLine "AGENT_STATE: active"] after_start)).2) !! 0
  = Some {| kind := Events; q := 0; at_pc := Live; sent := [Ping] |} /\
  1 `min` capacity Events = 1 /\
  length (buffer_of Events (run (transcript_lines 201) after_start)) = 201 /\
  201 `min` capacity Events = 200.
Proof. by vm_compute. Qed.

(** The handler subscribes the queue, the generator copies the buffer
    when it first runs: a line read in between is in the copy and in the
    queue, and the client receives it twice. *)
Example copy_after_publish_duplicates :
  (received <$> streams (run copy_after_publish initial) !! 0)
  = Some [PLine "hello"; PLine "hello"].
Proof. reflexivity. Qed.

End backlog_and_live.

(** ** The end of the worker's output *)

Section end_of_output.

Lemma other_channel (k k' : channel) (qu : qid) (s : state) :
  wf s -> qu ∈ subscribers_of k s -> qu ∈ subscribers_of k' s -> k' = k.
Proof.
  intros Hwf Hq Hq'.
  destruct (wf_subscribers _ Hwf _ _ Hq) as (Q & HQ & Hm).
  destruct (wf_subscribers _ Hwf _ _ Hq') as (Q' & HQ' & Hm').
  assert (Q = Q') as <- by congruence.
  destruct k, k'; simpl in *; congruence.
Qed.

Lemma run_callbacks_reader_eof (s : state) :
  loop_ok s = true ->
  run_callbacks (reader_eof s) =
  deliver ((fun x => (x, PEvent stopped)) <$> tx_subscribers s)
    (deliver ((fun x => (x, PNone)) <$> log_subscribers s) (run_callbacks s)).
Proof.
  intros Hl. unfold reader_eof.
  assert (Hl1 : loop_ok (_fan_out (log_subscribers s) PNone s) = true).
  { by rewrite _fan_out_eq, Hl. }
  assert (Ht : tx_subscribers (_fan_out (log_subscribers s) PNone s) = tx_subscribers s).
  { by rewrite _fan_out_eq, Hl. }
  rewrite run_callbacks_fan_out, Ht by done. by rewrite run_callbacks_fan_out.
Qed.

Lemma finally_unsubscribes (k : channel) (qu : qid) (s : state) :
  NoDup (subscribers_of k s) -> qu ∉ subscribers_of k (finally k qu s).
Proof.
  intros Hnd. unfold finally. case_bool_decide as Hin; [|done].
  destruct k; simpl in *; by apply list_remove_first_gone.
Qed.

(** A finished generator stays as it is: it sends nothing more. *)
Lemma done_step (a : action) (s : state) (g : nat) (G : Generator) :
  streams s !! g = Some G -> at_pc G = Done -> streams (step a s) !! g = Some G.
Proof.
  intros HG Hd. pose proof (lookup_lt_Some _ _ _ HG) as Hg.
  destruct a; cbn [step].
  - destruct (reader_line_effect raw s) as (s' & -> & H). simpl.
    by replace (streams s') with (streams s) by (symmetry; apply H).
  - by replace (streams (reader_eof s)) with (streams s)
      by (symmetry; apply reader_eof_effect).
  - unfold run_callback. destruct (ready s) as [|[x p] rest]; [done|].
    by destruct (put_nowait_other_fields x p (with_ready rest s)) as (_&_&_&_&_& ->).
  - by destruct (worker_exit_fields code s) as (-> & _).
  - by destruct (start_agent_fields config spawn s) as (-> & _).
  - by destruct (stop_agent_fields in_time s) as (-> & _).
  - by rewrite streams_stream, lookup_app_l.
  - rename g0 into g'. unfold resume.
    destruct (streams s !! g') as [G2|] eqn:HG2; [|done].
    destruct (decide (g' = g)) as [->|Hne].
    { assert (G2 = G) as -> by congruence. by rewrite Hd. }
    assert (Hlive : forall G0, streams (live_step g' G0 s) !! g = Some G).
    { intros G0. unfold live_step, get.
      repeat case_match; simplify_eq/=; by rewrite list_lookup_insert_ne. }
    destruct (at_pc G2) as [|rest| | |]; [| | | |done].
    + destruct (buffer_of (kind G2) s); unfold backlog_step; [done|].
      simpl. by rewrite list_lookup_insert_ne.
    + destruct rest; unfold backlog_step; [done|].
      simpl. by rewrite list_lookup_insert_ne.
    + done.
    + simpl. by rewrite list_lookup_insert_ne, streams_finally.
  - rename g0 into g'. unfold close.
    destruct (streams s !! g') as [G2|] eqn:HG2; [|done].
    destruct (decide (g' = g)) as [->|Hne].
    { assert (G2 = G) as -> by congruence. by rewrite Hd. }
    destruct (at_pc G2); simpl;
      by rewrite ?list_lookup_insert_ne, ?streams_finally.
Qed.

Lemma done_run (acts : list action) (s : state) (g : nat) (G : Generator) :
  streams s !! g = Some G -> at_pc G = Done -> streams (run acts s) !! g = Some G.
Proof.
  revert s. induction acts as [|a acts IH]; intros s HG Hd; [done|].
  apply IH; [by apply done_step|done].
Qed.

(** The generator takes the end item: it yields the last chunk, and its
    next step runs the [finally] block and finishes. *)
Lemma resume_at_end (k : channel) (s : state) (g : nat) (G : Generator)
    (rest : list payload) :
  wf s -> streams s !! g = Some G -> kind G = k ->
  at_pc G = Live \/ at_pc G = Backlog [] ->
  queued (q G) s = terminal k :: rest ->
  exists G1 G2,
    streams (resume g s) !! g = Some G1 /\ sent G1 = sent G ++ [end_chunk k] /\
    at_pc G1 = Exiting /\ queued (q G) (resume g s) = rest /\
    streams (resume g (resume g s)) !! g = Some G2 /\ sent G2 = sent G1 /\
    at_pc G2 = Done /\ q G ∉ subscribers_of k (resume g (resume g s)).
Proof.
  intros Hwf HG Hk Hpc Hqueued.
  pose proof (lookup_lt_Some _ _ _ HG) as Hg.
  unfold queued in Hqueued. destruct (queues s !! q G) as [Q|] eqn:HQ; [|done].
  pose proof (lookup_lt_Some _ _ _ HQ) as Hq.
  assert (Hstep : resume g s = live_step g G s).
  { unfold resume. rewrite HG. by destruct Hpc as [-> | ->]. }
  assert (Hlive : exists G1, streams (live_step g G s) !! g = Some G1 /\
            G1 = yield (end_chunk k) Exiting G /\
            queues (live_step g G s) !! q G = Some {| maxsize := maxsize Q; items := rest |} /\
            forall k', subscribers_of k' (live_step g G s) = subscribers_of k' s).
  { unfold live_step, get. rewrite HQ, Hqueued, Hk.
    destruct k; simpl; (eexists; split; [apply list_lookup_insert_eq, Hg|]);
      (split; [done|]); (split; [by apply list_lookup_insert_eq|]);
      by intros []. }
  destruct Hlive as (G1 & HG1 & -> & HQ1 & Hsubs).
  rewrite Hstep. eexists _, (finished (yield (end_chunk k) Exiting G)).
  split; [exact HG1|]. split; [done|]. split; [done|].
  split; [unfold queued; by rewrite HQ1|].
  assert (Hwf1 : wf (live_step g G s)) by by apply wf_live_step.
  assert (Hstep2 : resume g (live_step g G s) =
            set_generator g (finished (yield (end_chunk k) Exiting G))
              (finally k (q G) (live_step g G s))).
  { unfold resume. rewrite HG1. cbn [yield at_pc kind q]. by rewrite Hk. }
  rewrite Hstep2.
  split; [|split; [done|split; [done|]]].
  - unfold set_generator. simpl. apply list_lookup_insert_eq.
    rewrite streams_finally. by eapply lookup_lt_Some.
  - assert (Hs : subscribers_of k (set_generator g (finished (yield (end_chunk k) Exiting G))
                   (finally k (q G) (live_step g G s)))
                 = subscribers_of k (finally k (q G) (live_step g G s))) by by destruct k.
    rewrite Hs. apply finally_unsubscribes, (wf_nodup _ Hwf1).
Qed.

(** C4, as amended: when the worker's output ends, every subscribed
    queue that is not full when the loop gets to it receives the end item
    of its channel exactly once, after everything published before: the
    stopped state event on the events stream, [None] on the log stream.
    When a generator takes that item from its queue it yields it (as the
    stopped event, or as the line [agent process exited]); its next step
    unsubscribes the queue and finishes, and a finished generator yields
    nothing more. A queue that is full loses the end item like any
    other. *)
Theorem end_of_output_ends_streams (k : channel) (s : state) (qu : qid) (Q : Queue) :
  wf s -> loop_ok s = true -> qu ∈ subscribers_of k s ->
  queues (run_callbacks s) !! qu = Some Q -> full Q = false ->
  queues (run_callbacks (reader_eof s)) !! qu =
    Some {| maxsize := maxsize Q; items := items Q ++ [terminal k] |} /\
  lost qu (run_callbacks (reader_eof s)) = lost qu (run_callbacks s) /\
  forall s1 g G rest,
    wf s1 -> streams s1 !! g = Some G -> kind G = k -> q G = qu ->
    at_pc G = Live \/ at_pc G = Backlog [] ->
    queued qu s1 = terminal k :: rest ->
    exists G1 G2,
      streams (resume g s1) !! g = Some G1 /\ sent G1 = sent G ++ [end_chunk k] /\
      at_pc G1 = Exiting /\
      streams (resume g (resume g s1)) !! g = Some G2 /\ sent G2 = sent G1 /\
      at_pc G2 = Done /\ (qu ∉ subscribers_of k (resume g (resume g s1))) /\
      forall acts, streams (run acts (resume g (resume g s1))) !! g = Some G2.
Proof.
  intros Hwf Hl Hq HQ Hfull.
  assert (Hdeliver :
    queues (run_callbacks (reader_eof s)) !! qu =
      Some {| maxsize := maxsize Q; items := items Q ++ [terminal k] |} /\
    lost qu (run_callbacks (reader_eof s)) = lost qu (run_callbacks s)).
  { rewrite run_callbacks_reader_eof by done.
    pose proof (other_channel k Logs qu s Hwf Hq) as HL.
    pose proof (other_channel k Events qu s Hwf Hq) as HE.
    destruct (deliver_fan (log_subscribers s) PNone (run_callbacks s) qu Q
                (wf_nodup _ Hwf Logs) HQ) as [HQ1 Hl1].
    destruct (deliver_fan (tx_subscribers s) (PEvent stopped) _ qu _
                (wf_nodup _ Hwf Events) HQ1) as [HQ2 Hl2].
    cbv zeta in HQ2, Hl2. rewrite HQ2, Hl2, Hl1, Hfull. clear HQ1 HQ2 Hl1 Hl2.
    destruct k; simpl in *.
    - assert (Hno : qu ∉ tx_subscribers s) by (intros H; by specialize (HE H)).
      rewrite (bool_decide_eq_true_2 (qu ∈ log_subscribers s)) by done.
      rewrite (bool_decide_eq_false_2 (qu ∈ tx_subscribers s)) by done.
      simpl. by rewrite !app_nil_r.
    - assert (Hno : qu ∉ log_subscribers s) by (intros H; by specialize (HL H)).
      rewrite (bool_decide_eq_false_2 (qu ∈ log_subscribers s)) by done.
      rewrite (bool_decide_eq_true_2 (qu ∈ tx_subscribers s)) by done.
      simpl. rewrite Hfull. simpl. by rewrite !app_nil_r. }
  split; [apply Hdeliver|]. split; [apply Hdeliver|].
  intros s1 g G rest Hwf1 HG Hk <- Hpc Hqueued.
  destruct (resume_at_end k s1 g G rest Hwf1 HG Hk Hpc Hqueued)
    as (G1 & G2 & HG1 & Hs1 & Hp1 & _ & HG2 & Hs2 & Hp2 & Hun).
  exists G1, G2. repeat (split; [done|]). intros acts. by apply done_run.
Qed.

Lemma end_of_output_ends_streams_witness :
  wf before_the_end /\ loop_ok before_the_end = true /\
  0 ∈ subscribers_of Events before_the_end /\
  queues (run_callbacks before_the_end) !! 0
    = Some {| maxsize := 200; items := [PEvent (Transcript User "hi")] |} /\
  full {| maxsize := 200; items := [PEvent (Transcript User "hi")] |} = false /\
  queues (run_callbacks (reader_eof before_the_end)) !! 0
    = Some {| maxsize := 200;
              items := [PEvent (Transcript User "hi"); PEvent stopped] |} /\
  wf at_the_end /\ queued 0 at_the_end = [PEvent stopped] /\
  exists G2, streams (resume 0 (resume 0 at_the_end)) !! 0 = Some G2 /\
    at_pc G2 = Done /\
    sent G2 = [Ping; Data (PEvent (Transcript User "hi")); Data (PEvent stopped)].
Proof.
  assert (Hwf : wf before_the_end) by apply wf_run, wf_initial.
  assert (Hwf1 : wf at_the_end) by exact (wf_run _ _ Hwf).
  assert (Hin : 0 ∈ subscribers_of Events before_the_end) by apply list_elem_of_here.
  destruct (end_of_output_ends_streams Events before_the_end 0
              {| maxsize := 200; items := [PEvent (Transcript User "hi")] |}
              Hwf eq_refl Hin eq_refl eq_refl) as (Hq & _ & Hend).
  split; [exact Hwf|]. split; [reflexivity|]. split; [exact Hin|].
  split; [reflexivity|]. split; [reflexivity|]. split; [exact Hq|].
  split; [exact Hwf1|]. split; [reflexivity|].
  destruct (Hend at_the_end 0
              {| kind := Events; q := 0; at_pc := Live;
                 sent := [Ping; Data (PEvent (Transcript User "hi"))] |} []
              Hwf1 eq_refl eq_refl eq_refl (or_introl eq_refl) eq_refl)
    as (G1 & G2 & _ & Hs1 & _ & HG2 & Hs2 & Hd & _).
  exists G2. split; [exact HG2|]. split; [exact Hd|]. by rewrite Hs2, Hs1.
Defined.

(** C4 as stated fails for a subscriber whose queue is full: the put of
    the stopped event raises [QueueFull] in the loop and the event is
    lost; the client reads its 200 transcripts and then only keep-alives,
    its generator stays in the loop and its queue stays subscribed. *)
Lemma full_queue_counterexample :
  exists G, streams (run stalled_subscriber initial) !! 0 = Some G /\
    kind G = Events /\ q G = 0 /\
    0 ∈ tx_subscribers (run stalled_subscriber initial) /\
    lost 0 (run stalled_subscriber initial) = [PEvent stopped] /\
    at_pc G = Live /\
    (Data (PEvent stopped) ∉ sent G) /\
    length (received G) = 200 /\
    ready (run stalled_subscriber initial) = [] /\
    queued 0 (run stalled_subscriber initial) = [].
Proof.
  eexists. split; [vm_compute; reflexivity|].
  split; [reflexivity|]. split; [reflexivity|].
  split; [vm_compute; apply list_elem_of_here|].
  split; [vm_compute; reflexivity|]. split; [reflexivity|].
  split; [apply (bool_decide_eq_false_1 _); vm_compute; reflexivity|].
  split; [vm_compute; reflexivity|]. split; vm_compute; reflexivity.
Qed.

End end_of_output.

(** * Further properties *)

(** ** The life cycle of the worker *)

Section life_cycle.

(** X1: [/status] answers running exactly when [/start] would be refused.
    After [/stop] and after the worker has ended by itself it answers
    stopped; after a [/start] that was not refused it answers running if
    the worker was spawned and stopped if the spawn failed. *)
Theorem status_follows_life_cycle (config : AgentConfig) (spawn : option nat)
    (in_time : bool) (code : Z) (s : state) :
  (get_status s = StatusRunning <-> (start_agent config spawn s).1 = AlreadyRunning) /\
  get_status (stop_agent in_time s).2 = StatusStopped /\
  get_status (worker_exit code s) = StatusStopped /\
  (get_status s = StatusStopped ->
     get_status (start_agent config spawn s).2 =
       match spawn with Some _ => StatusRunning | None => StatusStopped end).
Proof.
  unfold get_status, start_agent, stop_agent, worker_exit, running.
  destruct (agent_process s) as [[p [rc|]]|] eqn:Hp; simpl;
    repeat split; try done; destruct spawn; simpl; try done; by rewrite ?Hp.
Qed.

Lemma status_follows_life_cycle_witness :
  get_status initial = StatusStopped /\
  get_status (start_agent a_config (Some 7) initial).2 = StatusRunning.
Proof.
  split; [reflexivity|].
  destruct (status_follows_life_cycle a_config (Some 7) true 0%Z initial) as (_ & _ & _ & H).
  exact (H eq_refl).
Defined.

(** X2: [/stop] on a running worker sends it [terminate()], and [kill()] only
    when it has not ended in time; it forgets the handle, and it leaves
    the buffers, the subscriber lists, the queues and the callbacks as
    they are: nothing is told to the clients by [/stop] itself. A [/start]
    that follows is not refused. *)
Theorem stop_running_worker (in_time : bool) (s : state) (p : Popen) :
  agent_process s = Some p -> poll p = None ->
  let s' := (stop_agent in_time s).2 in
  (stop_agent in_time s).1 = Stopped /\
  agent_process s' = None /\
  os_log s' = os_log s ++ Terminated (pid p) :: (if in_time then [] else [Killed (pid p)]) /\
  log_buffer s' = log_buffer s /\ tx_buffer s' = tx_buffer s /\
  log_subscribers s' = log_subscribers s /\ tx_subscribers s' = tx_subscribers s /\
  queues s' = queues s /\ ready s' = ready s /\ streams s' = streams s /\
  forall config p', (start_agent config (Some p') s').1 = Started p'.
Proof.
  intros Hp Hpoll. unfold stop_agent. rewrite Hp, Hpoll. simpl.
  destruct in_time; by repeat split.
Qed.

Lemma stop_running_worker_witness :
  agent_process after_start = Some {| pid := 7; returncode := None |} /\
  poll {| pid := 7; returncode := None |} = None /\
  os_log (stop_agent false after_start).2
  = [Spawned 7 (effective a_config); Terminated 7; Killed 7].
Proof.
  split; [reflexivity|]. split; [reflexivity|].
  destruct (stop_running_worker false after_start {| pid := 7; returncode := None |}
              eq_refl eq_refl) as (_ & _ & H & _).
  exact H.
Defined.

End life_cycle.

(** ** The reader thread as a whole *)

Section reader_thread.

(** The thread is the run of its iterations, followed by the end of the
    output when [readline] has raised nothing: no line makes the loop
    body raise. *)
Lemma _reader_thread_run (reads : list read) (s : state) :
  _reader_thread reads s =
  if complete reads
  then Returned (run ((ReadLine <$> decoded reads) ++ [ReadEOF]) s)
  else Died (run (ReadLine <$> decoded reads) s).
Proof.
  revert s. induction reads as [|[raw|] reads IH]; intros s; [done| |done].
  cbn [_reader_thread complete decoded]. rewrite fmap_cons.
  rewrite <- app_comm_cons, !run_cons. cbn [step].
  destruct (reader_line_total raw s) as [s' Hs']. rewrite Hs'.
  change (default s (Some s')) with s'. apply IH.
Qed.

Lemma decoded_lines (raws : list string) : decoded (Line <$> raws) = raws.
Proof.
  induction raws as [|raw raws IH]; [done|].
  rewrite fmap_cons. cbn [decoded]. by rewrite IH.
Qed.

Lemma complete_lines (raws : list string) : complete (Line <$> raws) = true.
Proof. by induction raws. Qed.

(** What a fan-out on both channels leaves for a subscribed queue, and
    for a queue that is not subscribed. *)
Lemma pending_publish_subscriber (k : channel) (qu : qid) (s : state)
    (pl pe : list payload) :
  wf s -> loop_ok s = true -> qu ∈ subscribers_of k s ->
  for_queue qu (scheduled s (log_subscribers s) pl ++ scheduled s (tx_subscribers s) pe)
  = match k with Logs => pl | Events => pe end.
Proof.
  intros Hwf Hl Hq. rewrite for_queue_app.
  rewrite (for_queue_scheduled _ _ (log_subscribers s)) by (done || exact (wf_nodup _ Hwf Logs)).
  rewrite (for_queue_scheduled _ _ (tx_subscribers s)) by (done || exact (wf_nodup _ Hwf Events)).
  pose proof (other_channel k Logs qu s Hwf Hq) as HL.
  pose proof (other_channel k Events qu s Hwf Hq) as HE.
  destruct k; simpl in *.
  - assert (Hno : qu ∉ tx_subscribers s) by (intros H; by specialize (HE H)).
    rewrite (bool_decide_eq_true_2 (qu ∈ log_subscribers s)) by done.
    rewrite (bool_decide_eq_false_2 (qu ∈ tx_subscribers s)) by done.
    by rewrite app_nil_r.
  - assert (Hno : qu ∉ log_subscribers s) by (intros H; by specialize (HL H)).
    rewrite (bool_decide_eq_false_2 (qu ∈ log_subscribers s)) by done.
    by rewrite (bool_decide_eq_true_2 (qu ∈ tx_subscribers s)) by done.
Qed.

Lemma for_queue_scheduled_absent (qu : qid) (s : state) (subs : list qid)
    (ps : list payload) :
  qu ∉ subs -> for_queue qu (scheduled s subs ps) = [].
Proof.
  intros Hno. unfold scheduled. destruct (loop_ok s); [|done].
  induction ps as [|p ps IH]; [done|].
  rewrite bind_cons, for_queue_app, IH, app_nil_r. unfold for_queue.
  clear IH. induction subs as [|x subs IH]; [done|].
  apply not_elem_of_cons in Hno as [Hne Hno].
  rewrite fmap_cons, filter_cons_False by (simpl; congruence). by apply IH.
Qed.

Lemma pending_publish_absent (qu : qid) (s : state) (pl pe : list payload) :
  (forall k, qu ∉ subscribers_of k s) ->
  for_queue qu (scheduled s (log_subscribers s) pl ++ scheduled s (tx_subscribers s) pe)
  = [].
Proof.
  intros Hno. rewrite for_queue_app.
  rewrite !for_queue_scheduled_absent; [done|apply (Hno Events)|apply (Hno Logs)].
Qed.

Lemma reader_lines_effect (raws : list string) (s : state) :
  wf s -> loop_ok s = true -> length (log_buffer s) <= 500 ->
  let s' := run (ReadLine <$> raws) s in
  wf s' /\ loop_ok s' = true /\
  log_buffer s' = last_n 500 (log_buffer s ++ (raws ≫= line_logs)) /\
  tx_buffer s' =
    tx_buffer s ++ (raws ≫= fun raw => filter (fun ev => is_transcript ev = true) (line_events raw)) /\
  (forall k qu, qu ∈ subscribers_of k s ->
     pending qu s' =
       pending qu s ++ match k with
                       | Logs => PLine <$> (raws ≫= line_logs)
                       | Events => PEvent <$> (raws ≫= line_events)
                       end) /\
  (forall qu, (forall k, qu ∉ subscribers_of k s) -> pending qu s' = pending qu s) /\
  queues s' = queues s /\ dropped s' = dropped s /\ streams s' = streams s /\
  log_subscribers s' = log_subscribers s /\ tx_subscribers s' = tx_subscribers s.
Proof.
  revert s. induction raws as [|raw raws IH]; intros s Hwf Hl Hb; cbv zeta.
  { simpl. rewrite !app_nil_r, last_n_short by done. split_and!; try done.
    intros k qu _. destruct k; by rewrite app_nil_r. }
  rewrite fmap_cons, run_cons. cbn [step].
  destruct (reader_line_effect raw s)
    as (s1 & Hs1 & Hlog & Htx & Hr & Hl1 & _ & HL & HT & Hqs & Hd & _ & Hst).
  rewrite Hs1. change (default s (Some s1)) with s1.
  assert (Hwf1 : wf s1) by by eapply wf_reader_line.
  assert (Hlog1 : log_buffer s1 = last_n 500 (log_buffer s ++ line_logs raw)).
  { rewrite Hlog. destruct (line_logs raw); [|done]. by rewrite app_nil_r, last_n_short. }
  assert (Hb1 : length (log_buffer s1) <= 500) by (rewrite Hlog1, length_last_n; lia).
  assert (Hsub : forall k, subscribers_of k s1 = subscribers_of k s)
    by (intros []; simpl; congruence).
  destruct (IH s1 Hwf1 (eq_trans Hl1 Hl) Hb1)
    as (Hwf' & Hl' & Hlog' & Htx' & Hp' & Hn' & Hqs' & Hd' & Hst' & HL' & HT').
  rewrite Hlog', Htx', Hqs', Hd', Hst', HL', HT'.
  rewrite Hlog1, Htx, Hqs, Hd, Hst, HL, HT.
  split_and!; try done.
  - by rewrite last_n_app, bind_cons, app_assoc.
  - by rewrite bind_cons, app_assoc.
  - intros k qu Hq. rewrite (Hp' k qu) by by rewrite Hsub.
    unfold pending. rewrite Hr, for_queue_app.
    rewrite (pending_publish_subscriber k qu s) by done.
    rewrite !bind_cons. destruct k; by rewrite fmap_app, <- !app_assoc.
  - intros qu Hno. rewrite (Hn' qu) by (intros k; by rewrite Hsub).
    unfold pending. rewrite Hr, for_queue_app.
    by rewrite (pending_publish_absent qu s), app_nil_r.
Qed.

(** X3: As long as [readline] gives lines, whatever they are,
    [_reader_thread] goes on without raising, and it returns when the
    output ends; when [readline] raises, the thread dies there, and the
    two calls that announce the end of the output are never made. Either
    way it leaves in the log buffer the last 500 of the old lines
    followed by the stripped non-blank lines read, and in the events
    buffer the old events followed by the transcripts read; for every
    subscribed queue it has handed to the loop, in order, the items of
    that queue's channel (lines, or events), followed by the end item
    only if it has returned; for a queue that is not subscribed it has
    handed over nothing. It puts nothing into a queue itself and leaves
    the subscriber lists as they are. *)
Theorem reader_thread_outcome (reads : list read) (s : state) :
  wf s -> loop_ok s = true -> length (log_buffer s) <= 500 ->
  exists s',
    _reader_thread reads s = (if complete reads then Returned s' else Died s') /\
    log_buffer s' = last_n 500 (log_buffer s ++ (decoded reads ≫= line_logs)) /\
    tx_buffer s' =
      tx_buffer s ++ (decoded reads ≫= fun raw =>
                        filter (fun ev => is_transcript ev = true) (line_events raw)) /\
    (forall k qu, qu ∈ subscribers_of k s ->
       pending qu s' =
         pending qu s ++ match k with
                         | Logs => PLine <$> (decoded reads ≫= line_logs)
                         | Events => PEvent <$> (decoded reads ≫= line_events)
                         end ++ (if complete reads then [terminal k] else [])) /\
    (forall qu, (forall k, qu ∉ subscribers_of k s) -> pending qu s' = pending qu s) /\
    queues s' = queues s /\
    log_subscribers s' = log_subscribers s /\ tx_subscribers s' = tx_subscribers s.
Proof.
  intros Hwf Hl Hb. rewrite _reader_thread_run.
  destruct (reader_lines_effect (decoded reads) s Hwf Hl Hb)
    as (Hwf' & Hl' & Hlog' & Htx' & Hp' & Hn' & Hqs' & Hd' & Hst' & HL' & HT').
  set (s1 := run (ReadLine <$> decoded reads) s) in *.
  destruct (complete reads).
  2:{ exists s1. split_and!; try done. intros k qu Hq.
      by rewrite (Hp' k qu Hq), app_nil_r. }
  rewrite run_app. fold s1. change (run [ReadEOF] s1) with (reader_eof s1).
  exists (reader_eof s1). split; [done|].
  destruct (reader_eof_effect s1) as (Hlog & Htx & Hr & _ & _ & HL & HT & Hqs & _).
  assert (Hsub : forall k, subscribers_of k s1 = subscribers_of k s)
    by (intros []; simpl; congruence).
  rewrite Hlog, Htx, Hqs, HL, HT, Hlog', Htx', Hqs', HL', HT'.
  split_and!; try done.
  - intros k qu Hq. unfold pending in *. rewrite Hr, for_queue_app.
    rewrite (pending_publish_subscriber k qu s1) by (done || by rewrite Hsub).
    rewrite (Hp' k qu Hq). destruct k; by rewrite <- !app_assoc.
  - intros qu Hno. unfold pending in *. rewrite Hr, for_queue_app.
    rewrite (pending_publish_absent qu s1) by (intros k; by rewrite Hsub).
    by rewrite app_nil_r, (Hn' qu Hno).
Qed.

Lemma reader_thread_outcome_witness :
  wf before_the_end /\ loop_ok before_the_end = true /\
  length (log_buffer before_the_end) <= 500 /\
  exists s', _reader_thread [Line "AGENT_STATE: idle"; DecodeError;
                             Line "TRANSCRIPT_AGENT: bye"] before_the_end = Died s' /\
    log_buffer s' = ["TRANSCRIPT_USER: hi"; "AGENT_STATE: idle"] /\
    pending 0 s' = [PEvent (Transcript User "hi"); PEvent (State "idle")].
Proof.
  assert (Hwf : wf before_the_end) by apply wf_run, wf_initial.
  assert (Hin : 0 ∈ subscribers_of Events before_the_end) by apply list_elem_of_here.
  assert (Hb : length (log_buffer before_the_end) <= 500) by (vm_compute; lia).
  split; [exact Hwf|]. split; [reflexivity|]. split; [exact Hb|].
  destruct (reader_thread_outcome
              [Line "AGENT_STATE: idle"; DecodeError; Line "TRANSCRIPT_AGENT: bye"]
              before_the_end Hwf eq_refl Hb)
    as (s' & Hs' & Hlog & _ & Hp & _).
  exists s'. split; [exact Hs'|]. split; [exact Hlog|]. exact (Hp Events 0 Hin).
Defined.

End reader_thread.

(** ** The end of one stream and the other subscribers *)

Section other_subscribers.

Lemma finally_other (k k0 : channel) (qu qu0 : qid) (s : state) :
  qu <> qu0 ->
  qu ∈ subscribers_of k (finally k0 qu0 s) <-> qu ∈ subscribers_of k s.
Proof.
  intros Hne. unfold finally. case_bool_decide; [|done].
  destruct k, k0; simpl; try done; split;
    (apply list_remove_first_subseteq || by apply list_remove_first_other).
Qed.

Lemma subscribers_of_set_generator (k : channel) (g : nat) (G : Generator) (s : state) :
  subscribers_of k (set_generator g G s) = subscribers_of k s.
Proof. by destruct k. Qed.

(** X4: When a generator runs its [finally] block, on a resumption or on a
    closing, the subscriber lists lose no queue but its own; every other
    client stays subscribed. *)
Theorem exit_removes_only_own_queue (g : nat) (s : state) (k : channel) (qu : qid) :
  (forall G, streams s !! g = Some G -> q G <> qu) ->
  (qu ∈ subscribers_of k (resume g s) <-> qu ∈ subscribers_of k s) /\
  (qu ∈ subscribers_of k (close g s) <-> qu ∈ subscribers_of k s).
Proof.
  intros Hown. unfold resume, close.
  destruct (streams s !! g) as [G|] eqn:HG; [|done].
  specialize (Hown G eq_refl). split.
  - destruct (at_pc G) as [|rest| | |].
    + destruct (buffer_of (kind G) s); unfold backlog_step;
        by rewrite ?live_step_subscribers, ?subscribers_of_set_generator.
    + destruct rest; unfold backlog_step;
        by rewrite ?live_step_subscribers, ?subscribers_of_set_generator.
    + by rewrite live_step_subscribers.
    + rewrite subscribers_of_set_generator. apply finally_other. congruence.
    + done.
  - destruct (at_pc G); rewrite ?subscribers_of_set_generator; try done;
      apply finally_other; congruence.
Qed.

Lemma exit_removes_only_own_queue_witness :
  (forall G, streams two_log_clients !! 0 = Some G -> q G <> 1) /\
  log_subscribers two_log_clients = [0; 1] /\
  1 ∈ subscribers_of Logs (close 0 two_log_clients) /\
  log_subscribers (close 0 two_log_clients) = [1].
Proof.
  assert (Hown : forall G, streams two_log_clients !! 0 = Some G -> q G <> 1).
  { intros G HG. vm_compute in HG. injection HG as <-. simpl. lia. }
  split; [exact Hown|]. split; [reflexivity|]. split; [|reflexivity].
  apply (exit_removes_only_own_queue 0 two_log_clients Logs 1 Hown).
  apply list_elem_of_further, list_elem_of_here.
Defined.

End other_subscribers.

(** ** Queues hold payloads of their channel, within their size *)

Section typed_states.

Lemma capacity_inj (k k' : channel) : capacity k = capacity k' -> k = k'.
Proof. by destruct k, k'. Qed.

Lemma typed_initial : typed initial.
Proof.
  split; simpl.
  - intros qu Q H. done.
  - intros qu p H. by apply elem_of_nil in H.
  - intros g G H. done.
Qed.

Lemma typed_frame (s s' : state) :
  queues s' = queues s -> ready s' = ready s -> streams s' = streams s ->
  typed s -> typed s'.
Proof. intros Hq Hr Hs [H1 H2 H3]. split; rewrite ?Hq, ?Hr, ?Hs; done. Qed.

(** More callbacks, each for a queue of the channel of its payload. *)
Lemma typed_more_ready (s s' : state) (new : list (qid * payload)) :
  queues s' = queues s -> ready s' = ready s ++ new -> streams s' = streams s ->
  (forall qu p, (qu, p) ∈ new ->
     exists Q k, queues s !! qu = Some Q /\ maxsize Q = capacity k /\ payload_ok k p = true) ->
  typed s -> typed s'.
Proof.
  intros Hq Hr Hs Hnew [H1 H2 H3]. split; rewrite ?Hq, ?Hr, ?Hs; try done.
  intros qu p [H|H]%elem_of_app; [by apply H2|by apply Hnew].
Qed.

Lemma scheduled_typed (s : state) (k : channel) (ps : list payload) (qu : qid) (p : payload) :
  wf s -> Forall (fun p => payload_ok k p = true) ps ->
  (qu, p) ∈ scheduled s (subscribers_of k s) ps ->
  exists Q k, queues s !! qu = Some Q /\ maxsize Q = capacity k /\ payload_ok k p = true.
Proof.
  intros Hwf Hps. unfold scheduled. destruct (loop_ok s); [|by intros ?%elem_of_nil].
  intros (p' & Hin & Hp')%list_elem_of_bind.
  apply list_elem_of_fmap in Hin as (qu' & [= -> ->] & Hqu).
  destruct (wf_subscribers _ Hwf _ _ Hqu) as (Q & HQ & Hm).
  exists Q, k. split; [done|]. split; [done|].
  by apply (proj1 (Forall_forall _ _) Hps).
Qed.

(** One queue is replaced by a queue of the same size whose items are
    of its channel and within its size. *)
Lemma typed_with_queue (qu : qid) (Q Q' : Queue) (k : channel) (s : state) :
  typed s -> queues s !! qu = Some Q -> maxsize Q = capacity k ->
  maxsize Q' = maxsize Q ->
  Forall (fun p => payload_ok k p = true) (items Q') ->
  length (items Q') <= maxsize Q' ->
  typed (with_queues (<[qu := Q']> (queues s)) s).
Proof.
  intros [H1 H2 H3] HQ Hk Hm Hit Hlen.
  pose proof (lookup_lt_Some _ _ _ HQ) as Hlt.
  split; simpl; [| |done].
  - intros x R [(-> & <- & _)|[Hne HR]]%list_lookup_insert_Some; [|by eapply H1].
    exists k. split; [congruence|done].
  - intros x p Hin. destruct (H2 _ _ Hin) as (R & k' & HR & Hk' & Hp).
    destruct (decide (qu = x)) as [->|Hne].
    + exists Q', k'. rewrite list_lookup_insert_eq by done.
      split; [done|]. split; [congruence|done].
    + exists R, k'. by rewrite list_lookup_insert_ne.
Qed.

Lemma typed_put_nowait (qu : qid) (p : payload) (s : state) :
  typed s ->
  (forall Q, queues s !! qu = Some Q ->
     exists k, maxsize Q = capacity k /\ payload_ok k p = true) ->
  typed (put_nowait qu p s).
Proof.
  intros Ht Hp. unfold put_nowait. destruct (queues s !! qu) as [Q|] eqn:HQ; [|done].
  destruct (Hp Q eq_refl) as (k & Hk & Hok).
  destruct (typed_queues _ Ht _ _ HQ) as (k' & Hk' & Hit & Hlen).
  assert (k' = k) as -> by (apply capacity_inj; congruence).
  destruct (full Q) eqn:Hfull.
  - by apply (typed_frame s).
  - apply (typed_with_queue qu Q _ k); simpl; try done.
    + apply Forall_app. split; [done|]. by apply Forall_singleton.
    + rewrite length_app. simpl. unfold full in Hfull.
      apply andb_false_iff in Hfull as [Hf|Hf].
      * apply Nat.ltb_ge in Hf. destruct k; simpl in *; lia.
      * apply Nat.leb_gt in Hf. lia.
Qed.

Lemma typed_run_callback (s : state) : typed s -> typed (run_callback s).
Proof.
  intros Ht. unfold run_callback. destruct (ready s) as [|[qu p] rest] eqn:Hr; [done|].
  assert (Ht' : typed (with_ready rest s)).
  { destruct Ht as [H1 H2 H3]. split; simpl; [done| |done].
    intros x y Hin. apply H2. rewrite Hr. by apply list_elem_of_further. }
  apply typed_put_nowait; [done|]. simpl. intros Q HQ.
  destruct (typed_ready _ Ht qu p) as (Q' & k & HQ' & Hk & Hok).
  { rewrite Hr. apply list_elem_of_here. }
  exists k. split; [congruence|done].
Qed.

Lemma typed_set_generator (g : nat) (G : Generator) (s : state) :
  typed s ->
  Forall (fun c => chunk_ok (kind G) c = true) (sent G) ->
  Forall (fun p => payload_ok (kind G) p = true /\ p <> PNone) (backlog_rest G) ->
  typed (set_generator g G s).
Proof.
  intros [H1 H2 H3] Hs Hb. split; simpl; [done..|].
  intros x X [(-> & <- & _)|[_ HX]]%list_lookup_insert_Some; [done|by apply (H3 x)].
Qed.

Lemma typed_live_step (g : nat) (G : Generator) (s : state) :
  wf s -> typed s -> streams s !! g = Some G -> typed (live_step g G s).
Proof.
  intros Hwf Ht HG.
  destruct (wf_generator _ Hwf _ _ HG) as (Q & HQ & Hm).
  destruct (typed_queues _ Ht _ _ HQ) as (k & Hk & Hit & Hlen).
  assert (k = kind G) as -> by (apply capacity_inj; congruence).
  destruct (typed_generators _ Ht _ _ HG) as [Hsent _].
  unfold live_step, get. rewrite HQ.
  destruct (items Q) as [|x xs] eqn:Hx.
  - apply typed_set_generator; simpl; [done| |by unfold backlog_rest].
    apply Forall_app. split; [done|]. by apply Forall_singleton.
  - apply Forall_cons in Hit as [Hx1 Hxs].
    assert (Ht' : typed (with_queues
              (<[q G := {| maxsize := maxsize Q; items := xs |}]> (queues s)) s)).
    { apply (typed_with_queue _ Q _ (kind G)); simpl; try done. simpl in Hlen. lia. }
    assert (Hgen : forall c at', chunk_ok (kind G) c = true ->
              at' = Live \/ at' = Exiting ->
              typed (set_generator g (yield c at' G) (with_queues
                (<[q G := {| maxsize := maxsize Q; items := xs |}]> (queues s)) s))).
    { intros c at' Hc Hat. apply typed_set_generator; simpl; [done| |].
      - apply Forall_app. split; [done|]. by apply Forall_singleton.
      - unfold backlog_rest. simpl. by destruct Hat as [-> | ->]. }
    destruct (kind G) eqn:HkG.
    + destruct x; try done; apply Hgen; auto; reflexivity.
    + destruct x; try done.
      apply Hgen; [reflexivity|]. destruct (leaves_events_loop _); auto.
Qed.

Lemma typed_backlog_step (g : nat) (G : Generator) (rest : list payload) (s : state) :
  wf s -> typed s -> streams s !! g = Some G ->
  Forall (fun p => payload_ok (kind G) p = true /\ p <> PNone) rest ->
  typed (backlog_step g G rest s).
Proof.
  intros Hwf Ht HG Hrest. destruct rest as [|x rest]; unfold backlog_step.
  - by apply typed_live_step.
  - apply Forall_cons in Hrest as [[Hx Hne] Hrest].
    destruct (typed_generators _ Ht _ _ HG) as [Hsent _].
    apply typed_set_generator; simpl; [done| |by unfold backlog_rest].
    apply Forall_app. split; [done|]. apply Forall_singleton. simpl.
    rewrite Hx. simpl. by rewrite bool_decide_eq_false_2.
Qed.

Lemma buffer_of_typed (k : channel) (s : state) :
  Forall (fun p => payload_ok k p = true /\ p <> PNone) (buffer_of k s).
Proof. destruct k; simpl; apply Forall_fmap, Forall_forall; by intros. Qed.

Lemma typed_finished (g : nat) (G : Generator) (s : state) :
  typed s -> streams s !! g = Some G -> typed (set_generator g (finished G) s).
Proof.
  intros Ht HG. destruct (typed_generators _ Ht _ _ HG) as [Hsent _].
  apply typed_set_generator; simpl; [done..|by unfold backlog_rest].
Qed.

Lemma typed_finally (k : channel) (qu : qid) (s : state) :
  typed s -> typed (finally k qu s).
Proof.
  intros Ht. unfold finally. case_bool_decide; [|done].
  apply (typed_frame s); by destruct k.
Qed.

Lemma typed_step (a : action) (s : state) : wf s -> typed s -> typed (step a s).
Proof.
  intros Hwf Ht. destruct a; cbn [step].
  - destruct (reader_line_effect raw s)
      as (s' & -> & _ & _ & Hr & _ & _ & _ & _ & Hq & _ & _ & Hs).
    change (default s (Some s')) with s'.
    apply (typed_more_ready s s' _ Hq Hr Hs); [|done].
    intros qu p [H|H]%elem_of_app.
    + apply (scheduled_typed s Logs (PLine <$> line_logs raw) qu p Hwf); [|done].
      apply Forall_fmap, Forall_forall. by intros.
    + apply (scheduled_typed s Events (PEvent <$> line_events raw) qu p Hwf); [|done].
      apply Forall_fmap, Forall_forall. by intros.
  - destruct (reader_eof_effect s) as (_ & _ & Hr & _ & _ & _ & _ & Hq & _ & _ & Hs).
    apply (typed_more_ready s _ _ Hq Hr Hs); [|done].
    intros qu p [H|H]%elem_of_app.
    + apply (scheduled_typed s Logs [PNone] qu p Hwf); [|done]. by apply Forall_singleton.
    + apply (scheduled_typed s Events [PEvent stopped] qu p Hwf); [|done].
      by apply Forall_singleton.
  - by apply typed_run_callback.
  - destruct (worker_exit_fields code s) as (Hs & Hq & Hr). by apply (typed_frame s).
  - destruct (start_agent_fields config spawn s) as (Hs & Hq & Hr). by apply (typed_frame s).
  - destruct (stop_agent_fields in_time s) as (Hs & Hq & Hr). by apply (typed_frame s).
  - destruct Ht as [H1 H2 H3]. split.
    + intros qu Q. rewrite queues_stream.
      intros [[_ HQ]|[_ <-]]%lookup_snoc_Some; [by eapply H1|].
      exists k. simpl. split; [done|]. split; [constructor|lia].
    + intros qu p. rewrite ready_stream, queues_stream. intros Hin.
      destruct (H2 _ _ Hin) as (Q & k' & HQ & Hk & Hp).
      exists Q, k'. split; [by apply lookup_app_l_Some|done].
    + intros g G. rewrite streams_stream.
      intros [[_ HG]|[_ <-]]%lookup_snoc_Some; [by eapply H3|].
      split; constructor.
  - unfold resume. destruct (streams s !! g) as [G|] eqn:HG; [|done].
    destruct (at_pc G) as [|rest| | |] eqn:Hpc.
    + apply typed_backlog_step; try done. apply buffer_of_typed.
    + apply typed_backlog_step; try done.
      destruct (typed_generators _ Ht _ _ HG) as [_ Hb].
      unfold backlog_rest in Hb. by rewrite Hpc in Hb.
    + by apply typed_live_step.
    + apply typed_finished; [by apply typed_finally|by rewrite streams_finally].
    + done.
  - unfold close. destruct (streams s !! g) as [G|] eqn:HG; [|done].
    destruct (at_pc G); try done; try (by apply typed_finished);
      (apply typed_finished; [by apply typed_finally|by rewrite streams_finally]).
Qed.

Lemma typed_run (acts : list action) (s : state) :
  wf s -> typed s -> typed (run acts s).
Proof.
  revert s. induction acts as [|a acts IH]; intros s Hwf Ht; [done|].
  apply IH; [by apply wf_step|by apply typed_step].
Qed.

End typed_states.

Section typed_theorems.

(** X5: In every state the server can reach, a queue is one made by
    [stream_logs] or [stream_events]: its size is 500 or 200, and it never
    holds more items than its size, however slowly its client reads. *)
Theorem queues_stay_within_capacity (acts : list action) (qu : qid) (Q : Queue) :
  queues (run acts initial) !! qu = Some Q ->
  (maxsize Q = 500 \/ maxsize Q = 200) /\ length (items Q) <= maxsize Q.
Proof.
  intros HQ.
  destruct (typed_queues _ (typed_run acts initial wf_initial typed_initial) _ _ HQ)
    as (k & Hk & _ & Hlen).
  split; [|done]. rewrite Hk. destruct k; auto.
Qed.

Lemma queues_stay_within_capacity_witness :
  exists Q, queues (run [Stream Events; ReadLine "TRANSCRIPT_USER: hi"; RunCallback]
                      initial) !! 0 = Some Q /\
    maxsize Q = 200 /\ length (items Q) <= maxsize Q.
Proof.
  exists {| maxsize := 200; items := [PEvent (Transcript User "hi")] |}.
  split; [reflexivity|]. split; [reflexivity|].
  apply (queues_stay_within_capacity
           [Stream Events; ReadLine "TRANSCRIPT_USER: hi"; RunCallback] 0).
  reflexivity.
Defined.

(** X6: In every state the server can reach, the log stream and the events
    stream stay apart: a generator of the events stream has yielded only
    keep-alives and event dicts, so its [ev.get] has never raised; a
    generator of the log stream has yielded only keep-alives, lines and
    the line of the end; and the items of a generator's queue, and the
    rest of its backlog, are payloads of its channel. *)
Theorem streams_carry_their_channel (acts : list action) (g : nat) (G : Generator) :
  streams (run acts initial) !! g = Some G ->
  Forall (fun c => chunk_ok (kind G) c = true) (sent G) /\
  Forall (fun p => payload_ok (kind G) p = true) (backlog_rest G) /\
  Forall (fun p => payload_ok (kind G) p = true) (queued (q G) (run acts initial)) /\
  (kind G = Events -> Forall (fun c => c = Ping \/ exists ev, c = Data (PEvent ev)) (sent G)).
Proof.
  intros HG.
  pose proof (typed_run acts initial wf_initial typed_initial) as Ht.
  pose proof (wf_run acts initial wf_initial) as Hwf.
  destruct (typed_generators _ Ht _ _ HG) as [Hsent Hb].
  split; [done|]. split; [|split].
  - eapply Forall_impl; [exact Hb|]. by intros p [? _].
  - destruct (wf_generator _ Hwf _ _ HG) as (Q & HQ & Hm).
    destruct (typed_queues _ Ht _ _ HQ) as (k & Hk & Hit & _).
    assert (k = kind G) as -> by (apply capacity_inj; congruence).
    unfold queued. by rewrite HQ.
  - intros Hk. rewrite Hk in Hsent. eapply Forall_impl; [exact Hsent|].
    intros [[| |ev]| |]; simpl; try done; [by right; exists ev|by left].
Qed.

Lemma streams_carry_their_channel_witness :
  Forall (fun c => c = Ping \/ exists ev, c = Data (PEvent ev))
    [Ping; Data (PEvent (Transcript User "hi"))].
Proof.
  destruct (streams_carry_their_channel
              [Stream Events; Resume 0; ReadLine "TRANSCRIPT_USER: hi"; RunCallback;
               Resume 0] 0
              {| kind := Events; q := 0; at_pc := Live;
                 sent := [Ping; Data (PEvent (Transcript User "hi"))] |})
    as (_ & _ & _ & H); [reflexivity|].
  exact (H eq_refl).
Defined.

End typed_theorems.

(** ** The terminal chunk is the last chunk *)

Section terminal_chunk.

Lemma terminal_only_last_ends (G : Generator) :
  terminal_only_last G -> ends_at_terminal G.
Proof.
  intros (l & tail & Hs & Hl & Htail) l0 c l' Heq Hc.
  assert (Hnot : c ∉ l).
  { intros Hin. apply (proj1 (Forall_forall _ _) Hl) in Hin. congruence. }
  rewrite Hs in Heq. destruct Htail as [-> | (c' & -> & Hpc)].
  - rewrite app_nil_r in Heq. destruct Hnot. rewrite Heq.
    apply elem_of_app. right. apply list_elem_of_here.
  - destruct l' as [|x l'] using rev_ind.
    + by apply app_inj_tail in Heq as [_ _].
    + rewrite app_comm_cons, app_assoc in Heq. apply app_inj_tail in Heq as [Heq _].
      destruct Hnot. rewrite Heq. apply elem_of_app. right. apply list_elem_of_here.
Qed.

Lemma terminal_only_last_yield (c : chunk) (at' : pc) (G : Generator) :
  terminal_only_last G ->
  at_pc G <> Exiting -> at_pc G <> Done ->
  (is_terminal_chunk (kind G) c = true -> at' = Exiting) ->
  terminal_only_last (yield c at' G).
Proof.
  intros (l & tail & Hs & Hl & Htail) Hne Hnd Hc.
  assert (tail = []) as ->.
  { destruct Htail as [-> | (c' & _ & [H|H])]; done. }
  rewrite app_nil_r in Hs. unfold terminal_only_last. simpl. rewrite Hs.
  destruct (is_terminal_chunk (kind G) c) eqn:E.
  - exists l, [c]. split; [done|]. split; [done|]. right. exists c.
    split; [done|]. left. by apply Hc.
  - exists (l ++ [c]), []. rewrite app_nil_r. split; [done|].
    split; [|by left]. apply Forall_app. split; [done|]. by apply Forall_singleton.
Qed.

Lemma terminal_only_last_finished (G : Generator) :
  terminal_only_last G -> terminal_only_last (finished G).
Proof.
  intros (l & tail & Hs & Hl & Htail). exists l, tail. simpl.
  split; [done|]. split; [done|].
  destruct Htail as [-> | (c & -> & _)]; [by left|]. right. exists c. auto.
Qed.

(** Every generator of [s] has its terminal chunk, if any, last. *)
Lemma terminal_set_generator (g : nat) (G : Generator) (s : state) :
  (forall x X, streams s !! x = Some X -> terminal_only_last X) ->
  terminal_only_last G ->
  forall x X, streams (set_generator g G s) !! x = Some X -> terminal_only_last X.
Proof.
  intros H HG x X. unfold set_generator. simpl.
  intros [(-> & <- & _)|[_ HX]]%list_lookup_insert_Some; [done|by apply (H x)].
Qed.

Lemma terminal_live_step (g : nat) (G : Generator) (s : state) :
  (forall x X, streams s !! x = Some X -> terminal_only_last X) ->
  streams s !! g = Some G -> at_pc G <> Exiting -> at_pc G <> Done ->
  forall x X, streams (live_step g G s) !! x = Some X -> terminal_only_last X.
Proof.
  intros H HG Hne Hnd. specialize (H g G HG) as HGl.
  assert (Hcase : forall c at' s',
    streams s' = streams s ->
    (is_terminal_chunk (kind G) c = true -> at' = Exiting) ->
    forall x X, streams (set_generator g (yield c at' G) s') !! x = Some X ->
      terminal_only_last X).
  { intros c at' s' Hs Hc. apply terminal_set_generator.
    - intros x X. rewrite Hs. apply H.
    - by apply terminal_only_last_yield. }
  assert (Hping : is_terminal_chunk (kind G) Ping = true -> Live = Exiting)
    by by destruct (kind G).
  unfold live_step, get.
  destruct (queues s !! q G) as [Q|]; [|by apply Hcase].
  destruct (items Q) as [|y ys]; [by apply Hcase|].
  destruct (kind G) eqn:Hk.
  - destruct y; apply Hcase; rewrite ?Hk; done.
  - apply Hcase; [done|]. rewrite ?Hk. simpl. by intros ->.
Qed.

Lemma terminal_step (a : action) (s : state) :
  Forall (fun ev => is_transcript ev = true) (tx_buffer s) ->
  backlogs_transcripts_only s ->
  (forall x X, streams s !! x = Some X -> terminal_only_last X) ->
  forall x X, streams (step a s) !! x = Some X -> terminal_only_last X.
Proof.
  intros Hbuf Hback H. destruct a; cbn [step].
  - destruct (reader_line_effect raw s) as (s' & -> & Heq).
    change (default s (Some s')) with s'.
    replace (streams s') with (streams s) by (symmetry; apply Heq). done.
  - by replace (streams (reader_eof s)) with (streams s)
      by (symmetry; apply reader_eof_effect).
  - unfold run_callback. destruct (ready s) as [|[qu p] rest]; [done|].
    by destruct (put_nowait_other_fields qu p (with_ready rest s)) as (_&_&_&_&_& ->).
  - by destruct (worker_exit_fields code s) as (-> & _).
  - by destruct (start_agent_fields config spawn s) as (-> & _).
  - by destruct (stop_agent_fields in_time s) as (-> & _).
  - intros x X. rewrite streams_stream.
    intros [[_ HX]|[_ <-]]%lookup_snoc_Some; [by apply (H x)|].
    exists [], []. simpl. split; [done|]. split; [constructor|by left].
  - unfold resume. destruct (streams s !! g) as [G|] eqn:HG; [|done].
    assert (Hrest : forall y rest,
      (kind G = Events -> is_transcript_payload y = true) ->
      at_pc G <> Exiting -> at_pc G <> Done ->
      forall x X, streams (set_generator g (yield (Data y) (Backlog rest) G) s) !! x = Some X ->
        terminal_only_last X).
    { intros y rest Hy Hne Hnd. apply terminal_set_generator; [done|].
      apply terminal_only_last_yield; [by apply (H g)|done..|].
      destruct (kind G); simpl; [done|]. specialize (Hy eq_refl).
      destruct y as [| |[]]; done. }
    destruct (at_pc G) as [|rest| | |] eqn:Hpc.
    + pose proof (buffer_of_events_transcripts s Hbuf) as Hb.
      destruct (buffer_of (kind G) s) as [|y rest] eqn:Hbo; unfold backlog_step.
      * apply terminal_live_step; try done; by rewrite Hpc.
      * apply Hrest; try done. intros Hk. rewrite Hk in Hbo.
        rewrite Hbo in Hb. by apply Forall_cons in Hb as [? _].
    + destruct rest as [|y rest]; unfold backlog_step.
      * apply terminal_live_step; try done; by rewrite Hpc.
      * apply Hrest; try done. intros Hk.
        specialize (Hback _ _ HG Hk). unfold backlog_rest in Hback.
        rewrite Hpc in Hback. by apply Forall_cons in Hback as [? _].
    + apply terminal_live_step; try done; by rewrite Hpc.
    + apply terminal_set_generator.
      * intros x X. rewrite streams_finally. apply H.
      * by apply terminal_only_last_finished, (H g).
    + done.
  - unfold close. destruct (streams s !! g) as [G|] eqn:HG; [|done].
    destruct (at_pc G); try done;
      (apply terminal_set_generator;
        [intros x X; rewrite ?streams_finally; apply H
        |by apply terminal_only_last_finished, (H g)]).
Qed.

Lemma terminal_run (acts : list action) (s : state) :
  Forall (fun ev => is_transcript ev = true) (tx_buffer s) ->
  backlogs_transcripts_only s ->
  (forall x X, streams s !! x = Some X -> terminal_only_last X) ->
  forall x X, streams (run acts s) !! x = Some X -> terminal_only_last X.
Proof.
  revert s. induction acts as [|a acts IH]; intros s Hbuf Hback H; [done|].
  apply IH; [by apply step_transcripts_only|by apply step_backlogs|
             by apply terminal_step].
Qed.

(** X7: In every state the server can reach, a generator has run the
    [yield] that is followed by [break] (line 296, taken for the [None]
    of the end, on the log stream; line 321 for a state event [stopped]
    on the events stream) at most once, nothing was yielded after it,
    and the generator is then finishing or finished; the backlog loop
    never ends a stream. This is about the [yield] statement, not about
    the text: see [exit_line_text_is_not_distinctive]. *)
Theorem nothing_after_terminal_chunk (acts : list action) (g : nat) (G : Generator)
    (l l' : list chunk) (c : chunk) :
  streams (run acts initial) !! g = Some G ->
  sent G = l ++ c :: l' -> is_terminal_chunk (kind G) c = true ->
  l' = [] /\ (at_pc G = Exiting \/ at_pc G = Done) /\
  Forall (fun c' => is_terminal_chunk (kind G) c' = false) l.
Proof.
  intros HG Hs Hc.
  assert (Hlast : terminal_only_last G).
  { apply (terminal_run acts initial) with (x := g); done. }
  destruct (terminal_only_last_ends G Hlast l c l' Hs Hc) as [-> Hpc].
  split; [done|]. split; [done|].
  destruct Hlast as (l0 & tail & Hs0 & Hl0 & Htail). rewrite Hs in Hs0.
  destruct Htail as [-> | (c' & -> & _)].
  - rewrite app_nil_r in Hs0. subst l0. apply Forall_app in Hl0 as [_ Hl0].
    apply Forall_inv in Hl0. congruence.
  - by apply app_inj_tail in Hs0 as [-> _].
Qed.

Lemma nothing_after_terminal_chunk_witness :
  Forall (fun c' => is_terminal_chunk Events c' = false)
    [Ping; Data (PEvent (Transcript User "hi"))].
Proof.
  destruct (nothing_after_terminal_chunk
              [Stream Events; Resume 0; ReadLine "TRANSCRIPT_USER: hi"; ReadEOF;
               RunCallback; RunCallback; Resume 0; Resume 0] 0
              {| kind := Events; q := 0; at_pc := Exiting;
                 sent := [Ping; Data (PEvent (Transcript User "hi"));
                          Data (PEvent (State "stopped"))] |}
              [Ping; Data (PEvent (Transcript User "hi"))] []
              (Data (PEvent (State "stopped"))))
    as (_ & _ & H); [reflexivity..|].
  exact H.
Defined.

(** On the log stream the text does not tell the end: line 298 yields for
    a worker line [agent process exited] the string that line 296 yields
    for the end of the output, and goes on. Here the client has received
    that string twice and the generator is still in its loop. *)
Example exit_line_text_is_not_distinctive :
  log_chunk_text (Data (PLine "agent process exited")) = log_chunk_text Exited /\
  is_terminal_chunk Logs (Data (PLine "agent process exited")) = false /\
  streams (run worker_writes_exit_line initial) !! 0
  = Some {| kind := Logs; q := 0; at_pc := Live;
            sent := [Ping; Data (PLine "agent process exited");
                     Data (PLine "agent process exited")] |}.
Proof. split; [reflexivity|]. split; reflexivity. Qed.

End terminal_chunk.

(** ** Generators over the steps *)

Section generators.

(** A generator keeps its queue and its channel, and what it has yielded
    stays yielded. *)
Lemma generator_step (a : action) (s : state) (g : nat) (G : Generator) :
  streams s !! g = Some G ->
  exists G', streams (step a s) !! g = Some G' /\ q G' = q G /\ kind G' = kind G /\
    sent G `prefix_of` sent G'.
Proof.
  intros HG.
  assert (Hsame : forall s', streams s' = streams s ->
    exists G', streams s' !! g = Some G' /\ q G' = q G /\ kind G' = kind G /\
      sent G `prefix_of` sent G').
  { intros s' ->. by exists G. }
  assert (Hset : forall x X X' s', streams s' = streams s -> streams s !! x = Some X ->
    q X' = q X -> kind X' = kind X -> sent X `prefix_of` sent X' ->
    exists G', streams (set_generator x X' s') !! g = Some G' /\ q G' = q G /\
      kind G' = kind G /\ sent G `prefix_of` sent G').
  { intros x X X' s' Hs HX Hq Hk Hp. unfold set_generator. simpl. rewrite Hs.
    destruct (decide (x = g)) as [->|Hne].
    - exists X'. rewrite list_lookup_insert_eq by by eapply lookup_lt_Some.
      split; [done|]. split_and!; congruence.
    - exists G. by rewrite list_lookup_insert_ne. }
  assert (Hyield : forall x X c at' s', streams s' = streams s -> streams s !! x = Some X ->
    exists G', streams (set_generator x (yield c at' X) s') !! g = Some G' /\ q G' = q G /\
      kind G' = kind G /\ sent G `prefix_of` sent G').
  { intros x X c at' s' Hs HX. apply (Hset x X); try done. by apply prefix_app_r. }
  assert (Hlive : forall x X, streams s !! x = Some X ->
    exists G', streams (live_step x X s) !! g = Some G' /\ q G' = q G /\
      kind G' = kind G /\ sent G `prefix_of` sent G').
  { intros x X HX. unfold live_step, get.
    repeat case_match; simplify_eq/=; by apply Hyield. }
  destruct a; cbn [step].
  - destruct (reader_line_effect raw s) as (s' & -> & Heq).
    apply Hsame. change (default s (Some s')) with s'. apply Heq.
  - apply Hsame, reader_eof_effect.
  - apply Hsame. unfold run_callback. destruct (ready s) as [|[x p] rest]; [done|].
    by destruct (put_nowait_other_fields x p (with_ready rest s)) as (_&_&_&_&_& ->).
  - apply Hsame, worker_exit_fields.
  - apply Hsame, start_agent_fields.
  - apply Hsame, stop_agent_fields.
  - exists G. by rewrite streams_stream, lookup_app_l by by eapply lookup_lt_Some.
  - rename g0 into x. unfold resume. destruct (streams s !! x) as [X|] eqn:HX; [|by exists G].
    destruct (at_pc X) as [|rest| | |].
    + destruct (buffer_of (kind X) s); unfold backlog_step; [by apply Hlive|by apply Hyield].
    + destruct rest; unfold backlog_step; [by apply Hlive|by apply Hyield].
    + by apply Hlive.
    + apply (Hset x X); [apply streams_finally|done..].
    + by exists G.
  - rename g0 into x. unfold close. destruct (streams s !! x) as [X|] eqn:HX; [|by exists G].
    destruct (at_pc X); try (by exists G);
      (apply (Hset x X); [by rewrite ?streams_finally|done..]).
Qed.

Lemma generator_run (acts : list action) (s : state) (g : nat) (G : Generator) :
  streams s !! g = Some G ->
  exists G', streams (run acts s) !! g = Some G' /\ q G' = q G /\ kind G' = kind G /\
    sent G `prefix_of` sent G'.
Proof.
  revert s G. induction acts as [|a acts IH]; intros s G HG; [by exists G|].
  destruct (generator_step a s g G HG) as (G1 & HG1 & Hq1 & Hk1 & Hp1).
  destruct (IH (step a s) G1 HG1) as (G' & HG' & Hq' & Hk' & Hp').
  exists G'. rewrite run_cons. split; [done|]. split_and!; try congruence. by etrans.
Qed.

End generators.

(** ** What a stream shows is a subsequence of what was published *)

Section delivery_order.

Lemma dropped_step_other (a : action) (s : state) :
  a <> RunCallback -> dropped (step a s) = dropped s.
Proof.
  intros Ha. destruct a; cbn [step]; try done.
  - destruct (reader_line_effect raw s) as (s' & -> & H). simpl. apply H.
  - apply reader_eof_effect.
  - unfold_ops. by repeat case_match.
  - unfold_ops. by repeat case_match.
  - unfold_ops. by repeat case_match.
  - apply dropped_stream.
  - unfold_ops. by repeat case_match; simplify_eq/=.
  - unfold_ops. by repeat case_match; simplify_eq/=.
Qed.

(** A step adds to what generator [g] has sent and has still to send at
    most what the step publishes on its channel, at the end and only
    when its queue is subscribed, and otherwise only takes away: a
    payload that finds the queue full, or the rest of the backlog when
    the generator is closed. *)
Lemma view_step_sublist (a : action) (s : state) (g : nat) (G : Generator) :
  wf s -> loop_ok s = true -> streams s !! g = Some G -> at_pc G <> Created ->
  exists G', streams (step a s) !! g = Some G' /\ q G' = q G /\ kind G' = kind G /\
    at_pc G' <> Created /\
    view G' (step a s) `sublist_of`
      view G s ++ (if bool_decide (q G ∈ subscribers_of (kind G) s)
                   then published (kind G) a else []).
Proof.
  intros Hwf Hl HG HnC.
  destruct (wf_generator _ Hwf _ _ HG) as (Q & HQ & _).
  pose proof (lookup_lt_Some _ _ _ HG) as Hg.
  destruct (is_close g a) eqn:Hclose.
  - (* the generator itself is closed *)
    destruct a; try done. simpl in Hclose. apply bool_decide_eq_true in Hclose as ->.
    cbn [step]. unfold close. rewrite HG. rewrite nothing_published.
    destruct (finally_fields (kind G) (q G) s) as (Hfq & Hfr & _).
    assert (Hdone : forall s', streams s' = streams s -> queues s' = queues s ->
      ready s' = ready s ->
      exists G', streams (set_generator g (finished G) s') !! g = Some G' /\
        q G' = q G /\ kind G' = kind G /\ at_pc G' <> Created /\
        view G' (set_generator g (finished G) s') `sublist_of` view G s).
    { intros s' Hs Hq Hr. exists (finished G). split.
      { unfold set_generator. simpl. apply list_lookup_insert_eq. by rewrite Hs. }
      repeat split; try done.
      unfold view, queued, pending, received, backlog_rest. simpl. rewrite Hq, Hr.
      apply sublist_app; [done|]. by apply sublist_inserts_l. }
    destruct (at_pc G) eqn:Hpc; [done| | | |].
    + by apply Hdone.
    + apply Hdone; [apply streams_finally|done..].
    + apply Hdone; [apply streams_finally|done..].
    + exists G. repeat split; try done. by rewrite Hpc.
  - destruct (view_step a s g G Hwf Hl HG HnC Hclose) as (G' & HG' & Hq' & Hk' & Hc' & Hv).
    exists G'. repeat split; try done.
    assert (Ha : a = RunCallback \/ a <> RunCallback)
      by (destruct a; (by left) || by right).
    destruct Ha as [->|Ha].
    2:{ rewrite Hv; [done|]. unfold lost. by rewrite dropped_step_other. }
    rewrite nothing_published. rewrite nothing_published in Hv.
    revert HG' Hv. cbn [step]. unfold run_callback.
    destruct (ready s) as [|[x p] rest] eqn:Hr.
    { intros _ Hv. by rewrite Hv. }
    intros HG' Hv.
    destruct (decide (x = q G)) as [->|Hne].
    2:{ rewrite Hv; [done|]. by rewrite put_nowait_lost_ne. }
    destruct (full Q) eqn:Hfull.
    2:{ rewrite Hv; [done|]. rewrite (put_nowait_lost_eq _ _ _ Q) by done.
        by rewrite Hfull, app_nil_r. }
    destruct (put_nowait_other_fields (q G) p (with_ready rest s)) as (Hr' & _ & _ & _ & _ & Hst).
    rewrite Hst in HG'. simpl in HG'. assert (G' = G) as -> by congruence.
    unfold view, queued, pending.
    rewrite (put_nowait_lookup_eq _ _ _ Q), Hfull, Hr', Hr by done. simpl.
    rewrite HQ. repeat (apply sublist_app; [done|]).
    unfold for_queue. rewrite filter_cons_True by done. rewrite fmap_cons.
    by apply sublist_cons.
Qed.

Lemma view_run_sublist (acts : list action) (s : state) (g : nat) (G : Generator) :
  wf s -> loop_ok s = true -> streams s !! g = Some G -> at_pc G <> Created ->
  exists G', streams (run acts s) !! g = Some G' /\ q G' = q G /\ kind G' = kind G /\
    at_pc G' <> Created /\
    view G' (run acts s) `sublist_of` view G s ++ published_all (kind G) acts.
Proof.
  intros Hwf Hl HG HnC. induction acts as [|a acts IH] using rev_ind.
  { exists G. repeat split; try done. by rewrite app_nil_r. }
  destruct IH as (G1 & HG1 & Hq1 & Hk1 & Hc1 & Hv1).
  rewrite run_snoc. set (s1 := run acts s) in *.
  assert (Hwf1 : wf s1) by by apply wf_run.
  assert (Hl1 : loop_ok s1 = true) by (unfold s1; by rewrite loop_ok_run).
  destruct (view_step_sublist a s1 g G1 Hwf1 Hl1 HG1 Hc1) as (G' & HG' & Hq' & Hk' & Hc' & Hv').
  exists G'. rewrite Hq', Hk', Hq1, Hk1 in *. repeat split; try done.
  etrans; [apply Hv'|]. rewrite published_all_snoc, app_assoc.
  apply sublist_app; [done|]. case_bool_decide; [done|apply sublist_nil_l].
Qed.

(** A queue that is not subscribed is never subscribed again. *)
Lemma unsubscribed_step (a : action) (s : state) (k : channel) (qu : qid) :
  qu < length (queues s) -> qu ∉ subscribers_of k s ->
  qu ∉ subscribers_of k (step a s).
Proof.
  intros Hlt Hno Hin. destruct (subscribers_step _ _ _ _ Hin) as [H|H]; [done|lia].
Qed.

Lemma view_run_unsubscribed (acts : list action) (s : state) (g : nat) (G : Generator) :
  wf s -> loop_ok s = true -> streams s !! g = Some G -> at_pc G <> Created ->
  q G ∉ subscribers_of (kind G) s ->
  exists G', streams (run acts s) !! g = Some G' /\ q G' = q G /\ kind G' = kind G /\
    (q G ∉ subscribers_of (kind G) (run acts s)) /\
    view G' (run acts s) `sublist_of` view G s.
Proof.
  revert s G. induction acts as [|a acts IH]; intros s G Hwf Hl HG HnC Hno.
  { by exists G. }
  destruct (view_step_sublist a s g G Hwf Hl HG HnC) as (G1 & HG1 & Hq1 & Hk1 & Hc1 & Hv1).
  rewrite bool_decide_eq_false_2, app_nil_r in Hv1 by done.
  destruct (wf_generator _ Hwf _ _ HG) as (Q & HQ%lookup_lt_Some & _).
  destruct (IH (step a s) G1) as (G' & HG' & Hq' & Hk' & Hno' & Hv'); try done.
  - by apply wf_step.
  - by rewrite loop_ok_step.
  - rewrite Hq1, Hk1. by apply unsubscribed_step.
  - exists G'. rewrite run_cons. rewrite Hq1, Hk1 in *. repeat split; try done.
    by etrans.
Qed.

(** What is waiting for a queue that is subscribed to no channel only
    shrinks: a line or the end of the output schedules nothing for it,
    the loop moves payloads from the callbacks to its items or drops
    them, and its generator takes items away. *)
Lemma live_step_waiting (g : nat) (G : Generator) (qu : qid) (s : state) :
  waiting qu (live_step g G s) `sublist_of` waiting qu s.
Proof.
  unfold live_step, get, waiting, queued, pending.
  destruct (queues s !! q G) as [Q|] eqn:HQ; [|done].
  destruct (items Q) as [|x xs] eqn:Hit; [done|].
  assert (Hcase : forall s', ready s' = ready s ->
    queues s' = <[q G := {| maxsize := maxsize Q; items := xs |}]> (queues s) ->
    match queues s' !! qu with Some Q0 => items Q0 | None => [] end
      ++ for_queue qu (ready s')
    `sublist_of`
    match queues s !! qu with Some Q0 => items Q0 | None => [] end
      ++ for_queue qu (ready s)).
  { intros s' -> ->. apply sublist_app; [|done].
    destruct (decide (q G = qu)) as [<-|Hne].
    - rewrite list_lookup_insert_eq by by eapply lookup_lt_Some.
      rewrite HQ, Hit. simpl. by apply sublist_cons.
    - by rewrite list_lookup_insert_ne. }
  destruct (kind G); [destruct x|]; by apply Hcase.
Qed.

Lemma waiting_step (a : action) (s : state) (qu : qid) :
  qu < length (queues s) -> (forall k, qu ∉ subscribers_of k s) ->
  waiting qu (step a s) `sublist_of` waiting qu s.
Proof.
  intros Hlt Hno.
  assert (Hsame : forall s', queues s' = queues s -> ready s' = ready s ->
    waiting qu s' `sublist_of` waiting qu s).
  { intros s' Hq Hr. unfold waiting, queued, pending. by rewrite Hq, Hr. }
  destruct a; cbn [step].
  - destruct (reader_line_effect raw s)
      as (s' & -> & _ & _ & Hr & _ & _ & _ & _ & Hqs & _).
    change (default s (Some s')) with s'. unfold waiting, queued, pending.
    by rewrite Hqs, Hr, for_queue_app, pending_publish_absent, app_nil_r.
  - destruct (reader_eof_effect s) as (_ & _ & Hr & _ & _ & _ & _ & Hqs & _).
    unfold waiting, queued, pending.
    by rewrite Hqs, Hr, for_queue_app, pending_publish_absent, app_nil_r.
  - unfold run_callback. destruct (ready s) as [|[x p] rest] eqn:Hr; [done|].
    destruct (put_nowait_other_fields x p (with_ready rest s)) as (Hr' & _).
    unfold waiting, queued, pending. rewrite Hr', Hr. simpl.
    destruct (decide (x = qu)) as [->|Hne].
    + destruct (lookup_lt_is_Some_2 _ _ Hlt) as [Q HQ].
      rewrite (put_nowait_lookup_eq _ _ _ Q), HQ by done.
      unfold for_queue. rewrite filter_cons_True by done. rewrite fmap_cons. simpl.
      destruct (full Q); simpl.
      * apply sublist_app; [done|]. by apply sublist_cons.
      * by rewrite <- app_assoc.
    + rewrite put_nowait_lookup_ne by done. simpl.
      unfold for_queue. by rewrite filter_cons_False by done.
  - destruct (worker_exit_fields code s) as (_ & Hq & Hr). by apply Hsame.
  - destruct (start_agent_fields config spawn s) as (_ & Hq & Hr). by apply Hsame.
  - destruct (stop_agent_fields in_time s) as (_ & Hq & Hr). by apply Hsame.
  - unfold waiting, queued, pending.
    by rewrite queues_stream, ready_stream, lookup_app_l.
  - unfold resume. destruct (streams s !! g) as [G|]; [|done].
    destruct (finally_fields (kind G) (q G) s) as (Hfq & Hfr & _).
    destruct (at_pc G) as [|rest| | |].
    + destruct (buffer_of (kind G) s); unfold backlog_step;
        [apply live_step_waiting|by apply Hsame].
    + destruct rest; unfold backlog_step; [apply live_step_waiting|by apply Hsame].
    + apply live_step_waiting.
    + by apply Hsame.
    + done.
  - unfold close. destruct (streams s !! g) as [G|]; [|done].
    destruct (finally_fields (kind G) (q G) s) as (Hfq & Hfr & _).
    destruct (at_pc G); try done; by apply Hsame.
Qed.

(** A queue that is subscribed to no channel stays so, and what is
    waiting for it only shrinks. *)
Lemma cut_off_run (acts : list action) (s : state) (qu : qid) :
  qu < length (queues s) -> (forall k, qu ∉ subscribers_of k s) ->
  (forall k, qu ∉ subscribers_of k (run acts s)) /\
  waiting qu (run acts s) `sublist_of` waiting qu s.
Proof.
  revert s. induction acts as [|a acts IH]; intros s Hlt Hno; [done|].
  rewrite run_cons. destruct (IH (step a s)) as [Hno' Hw'].
  - pose proof (queues_length_step a s). lia.
  - intros k. by apply unsubscribed_step.
  - split; [done|]. etrans; [apply Hw'|]. by apply waiting_step.
Qed.

(** X8: Take a state in which a generator has taken its copy of the
    buffer. Whatever happens next (lines and ends of output, callbacks
    that find its queue full, requests to start and stop, other streams,
    the generator resumed or closed), what the generator yields from
    then on is a subsequence of what was waiting for it in that state
    (the rest of its backlog, the items of its queue, the callbacks
    scheduled for it) followed by what is published on its channel
    afterwards. From that state on items can be lost, but none is
    yielded out of order, none more often than it is in that list, and
    none that is not in it. (The list itself holds an item twice when the
    item was published between the subscription and the copy of the
    buffer, see [copy_after_publish_duplicates].) *)
Theorem delivery_keeps_order (acts : list action) (s : state) (g : nat) (G : Generator) :
  reachable s -> streams s !! g = Some G -> at_pc G <> Created ->
  exists G' new, streams (run acts s) !! g = Some G' /\
    received G' = received G ++ new /\
    new `sublist_of`
      (backlog_rest G ++ waiting (q G) s) ++ published_all (kind G) acts.
Proof.
  intros Hs HG HnC.
  destruct (view_run_sublist acts s g G) as (G' & HG' & _ & _ & _ & Hv);
    [by apply reachable_wf|by apply reachable_loop_ok|done..|].
  destruct (generator_run acts s g G HG) as (G'' & HG'' & _ & _ & [more Hmore]).
  assert (G'' = G') as -> by congruence.
  exists G', (more ≫= payload_of). split; [done|].
  assert (Hrec : received G' = received G ++ (more ≫= payload_of)).
  { unfold received. by rewrite Hmore, bind_app. }
  split; [done|].
  apply (sublist_app_inv_l (received G)). rewrite <- Hrec.
  etrans; [|etrans; [apply Hv|]].
  - unfold view. by apply sublist_inserts_r.
  - unfold view, waiting. by rewrite <- !app_assoc.
Qed.

Lemma delivery_keeps_order_witness :
  exists G' new,
    streams (run [ReadLine "one"; ReadLine "two"; RunCallback; RunCallback; Resume 0]
               (run [Stream Logs; Resume 0] initial)) !! 0 = Some G' /\
    received G' = [] ++ new /\
    new `sublist_of` ([] ++ []) ++ [PLine "one"; PLine "two"].
Proof.
  destruct (delivery_keeps_order
              [ReadLine "one"; ReadLine "two"; RunCallback; RunCallback; Resume 0]
              (run [Stream Logs; Resume 0] initial) 0
              {| kind := Logs; q := 0; at_pc := Live; sent := [Ping] |})
    as (G' & new & HG' & Hr & Hn).
  - by exists [Stream Logs; Resume 0].
  - reflexivity.
  - done.
  - exists G', new. split; [exact HG'|]. split; [exact Hr|exact Hn].
Defined.

(** X9: A request to start that finds no worker running empties both
    lists of subscribers, so the queue of a stream opened before it is
    cut off from the new worker: whatever happens next, the queue is
    never subscribed again, and nothing is added to what is waiting for
    it (its items and the callbacks scheduled for it), so that it never
    gets a line, an event or the end of the output of the new worker. A
    generator that has taken its copy of the buffer before the request
    yields nothing but what it had then. A generator that has not
    started yet is not covered by that: it still copies the buffer when
    it starts, which is then the buffer of the new worker, see
    [late_generator_replays_new_worker]. *)
Theorem restart_cuts_off_open_streams (config : AgentConfig) (spawn : option nat)
    (acts : list action) (s : state) (g : nat) (G : Generator) :
  reachable s -> running s = false -> streams s !! g = Some G ->
  exists G', streams (run acts (start_agent config spawn s).2) !! g = Some G' /\
    q G' = q G /\
    (forall k, q G ∉ subscribers_of k (run acts (start_agent config spawn s).2)) /\
    waiting (q G) (run acts (start_agent config spawn s).2)
      `sublist_of` waiting (q G) s /\
    (at_pc G <> Created ->
     view G' (run acts (start_agent config spawn s).2) `sublist_of` view G s).
Proof.
  intros Hs Hrun HG.
  pose proof (reachable_wf s Hs) as Hwf.
  change ((start_agent config spawn s).2) with (step (StartAgent config spawn) s).
  set (s1 := step (StartAgent config spawn) s).
  destruct (start_agent_fields config spawn s) as (Hst & Hqs & Hr).
  assert (Hno : forall k, q G ∉ subscribers_of k s1).
  { intros k. unfold s1. cbn [step]. unfold start_agent. rewrite Hrun.
    destruct spawn, k; simpl; apply not_elem_of_nil. }
  assert (Hlt : q G < length (queues s1)).
  { unfold s1. cbn [step]. rewrite Hqs.
    destruct (wf_generator _ Hwf _ _ HG) as (Q & HQ & _). by eapply lookup_lt_Some. }
  assert (HG1 : streams s1 !! g = Some G) by (unfold s1; cbn [step]; by rewrite Hst).
  assert (Hw1 : waiting (q G) s1 = waiting (q G) s).
  { unfold s1, waiting, queued, pending. cbn [step]. by rewrite Hqs, Hr. }
  destruct (generator_run acts s1 g G HG1) as (G' & HG' & Hq' & _).
  destruct (cut_off_run acts s1 (q G) Hlt Hno) as [Hno' Hw'].
  exists G'. split; [done|]. split; [done|]. split; [done|].
  split; [by rewrite <- Hw1|].
  intros HnC.
  destruct (view_run_unsubscribed acts s1 g G) as (G'' & HG'' & _ & _ & _ & Hv);
    [by apply wf_step|unfold s1; rewrite loop_ok_step; by apply reachable_loop_ok
    |done|done|apply Hno|].
  assert (G'' = G') as -> by congruence.
  etrans; [apply Hv|]. unfold view. fold (waiting (q G) s1) (waiting (q G) s).
  by rewrite Hw1.
Qed.

Lemma restart_cuts_off_open_streams_witness :
  exists G', streams (run [ReadLine "new worker"; ReadEOF; RunCallback; Resume 0]
                        (start_agent a_config (Some 8)
                           (run [Stream Logs; Resume 0] initial)).2) !! 0 = Some G' /\
    waiting (q G') (run [ReadLine "new worker"; ReadEOF; RunCallback; Resume 0]
                      (start_agent a_config (Some 8)
                         (run [Stream Logs; Resume 0] initial)).2) = [] /\
    received G' = [].
Proof.
  destruct (restart_cuts_off_open_streams a_config (Some 8)
              [ReadLine "new worker"; ReadEOF; RunCallback; Resume 0]
              (run [Stream Logs; Resume 0] initial) 0
              {| kind := Logs; q := 0; at_pc := Live; sent := [Ping] |})
    as (G' & HG' & Hq & _ & Hw & Hv).
  - by exists [Stream Logs; Resume 0].
  - reflexivity.
  - reflexivity.
  - exists G'. split; [exact HG'|]. split.
    + rewrite Hq. apply sublist_nil_r. exact Hw.
    + apply sublist_nil_r. etrans; [|exact (Hv ltac:(done))].
      unfold view. by apply sublist_inserts_r.
Defined.

(** A stream whose generator has not started when the request to start
    comes: the handler has returned before the request, the generator
    starts after the new worker has written a line, and the client
    receives that line as backlog. Its queue stays cut off. *)
Example late_generator_replays_new_worker :
  (received <$> streams (run generator_starts_after_restart initial) !! 0)
  = Some [PLine "new worker"] /\
  log_subscribers (run generator_starts_after_restart initial) = [].
Proof. split; reflexivity. Qed.

End delivery_order.

(** ** The reader thread without a loop *)

Section without_loop.

Lemma reader_line_without_loop (raw : string) (s : state) :
  loop_ok s = false ->
  exists s', reader_line raw s = Some s' /\ loop_ok s' = false /\
    ready s' = ready s /\ queues s' = queues s /\ dropped s' = dropped s /\
    streams s' = streams s /\
    tx_buffer s' = tx_buffer s ++ filter (fun ev => is_transcript ev = true) (line_events raw) /\
    (length (log_buffer s) <= 500 ->
     log_buffer s' = last_n 500 (log_buffer s ++ line_logs raw)).
Proof.
  intros Hl.
  destruct (reader_line_effect raw s)
    as (s' & Hs' & Hlog & Htx & Hr & Hl' & _ & _ & _ & Hq & Hd & _ & Hst).
  exists s'. unfold scheduled in Hr. rewrite Hl, !app_nil_r in Hr.
  split_and!; try done; [congruence|].
  intros Hb. rewrite Hlog. destruct (line_logs raw); [|done].
  by rewrite app_nil_r, last_n_short.
Qed.

(** X10: When [_loop] is unset or closed, [_reader_thread] still reads
    what [readline] gives, to the end of the output or to the exception
    that ends the thread, and still fills the two buffers, but every
    [_fan_out] returns at once: no callback is scheduled, no queue gets
    an item, and the end of the output is announced to nobody. *)
Theorem reader_thread_without_loop (reads : list read) (s : state) :
  loop_ok s = false -> length (log_buffer s) <= 500 ->
  exists s',
    _reader_thread reads s = (if complete reads then Returned s' else Died s') /\
    ready s' = ready s /\ queues s' = queues s /\ dropped s' = dropped s /\
    streams s' = streams s /\
    log_buffer s' = last_n 500 (log_buffer s ++ (decoded reads ≫= line_logs)) /\
    tx_buffer s' =
      tx_buffer s ++ (decoded reads ≫= fun raw =>
                        filter (fun ev => is_transcript ev = true) (line_events raw)).
Proof.
  revert s. induction reads as [|[raw|] reads IH]; intros s Hl Hb.
  - exists (reader_eof s). split; [done|].
    destruct (reader_eof_effect s) as (Hlog & Htx & Hr & _ & _ & _ & _ & Hq & Hd & _ & Hst).
    unfold scheduled in Hr. rewrite Hl, !app_nil_r in Hr.
    rewrite Hlog, Htx. simpl. rewrite !app_nil_r, last_n_short by done. done.
  - destruct (reader_line_without_loop raw s Hl)
      as (s1 & Hs1 & Hl1 & Hr1 & Hq1 & Hd1 & Hst1 & Htx1 & Hlog1).
    specialize (Hlog1 Hb).
    assert (Hb1 : length (log_buffer s1) <= 500) by (rewrite Hlog1, length_last_n; lia).
    destruct (IH s1 Hl1 Hb1) as (s' & Hs' & Hr & Hq & Hd & Hst & Hlog & Htx).
    exists s'. split; [cbn [_reader_thread complete]; by rewrite Hs1|].
    cbn [decoded].
    rewrite Hr, Hq, Hd, Hst, Hlog, Htx, Hr1, Hq1, Hd1, Hst1, Hlog1, Htx1.
    split_and!; try done.
    + by rewrite last_n_app, bind_cons, app_assoc.
    + by rewrite bind_cons, app_assoc.
  - exists s. split; [done|]. simpl. by rewrite !app_nil_r, last_n_short by done.
Qed.

Lemma reader_thread_without_loop_witness :
  exists s', _reader_thread [Line "TRANSCRIPT_USER: hi"; Line "done"] imported
             = Returned s' /\
    ready s' = [] /\
    log_buffer s' = ["TRANSCRIPT_USER: hi"; "done"] /\
    tx_buffer s' = [Transcript User "hi"].
Proof.
  destruct (reader_thread_without_loop [Line "TRANSCRIPT_USER: hi"; Line "done"] imported)
    as (s' & Hs' & Hr & _ & _ & _ & Hlog & Htx).
  - reflexivity.
  - simpl. lia.
  - exists s'. split; [exact Hs'|]. split; [exact Hr|]. split; [exact Hlog|exact Htx].
Defined.

End without_loop.

(** ** The lists of subscribers *)

Section subscriber_lists.

Lemma queues_length_other (a : action) (s : state) :
  (forall k, a <> Stream k) -> length (queues (step a s)) = length (queues s).
Proof.
  intros Ha. destruct a; cbn [step].
  - destruct (reader_line_effect raw s) as (s' & -> & _ & _ & _ & _ & _ & _ & _ & Hq & _).
    simpl. by rewrite Hq.
  - destruct (reader_eof_effect s) as (_ & _ & _ & _ & _ & _ & _ & Hq & _). by rewrite Hq.
  - unfold_ops. repeat case_match; simplify_eq/=; rewrite ?length_insert; done.
  - unfold_ops. repeat case_match; simplify_eq/=; done.
  - unfold_ops. repeat case_match; simplify_eq/=; done.
  - unfold_ops. repeat case_match; simplify_eq/=; done.
  - by destruct (Ha k).
  - unfold_ops. repeat case_match; simplify_eq/=; rewrite ?length_insert; done.
  - unfold_ops. repeat case_match; simplify_eq/=; rewrite ?length_insert; done.
Qed.

(** Only a new stream subscribes a queue. *)
Lemma subscribers_step_other (a : action) (s : state) (k : channel) (qu : qid) :
  wf s -> (forall k', a <> Stream k') ->
  qu ∈ subscribers_of k (step a s) -> qu ∈ subscribers_of k s.
Proof.
  intros Hwf Ha Hin. destruct (subscribers_step _ _ _ _ Hin) as [H| ->]; [done|].
  pose proof (subscriber_allocated _ _ _ (wf_step a s Hwf) Hin) as Hlt.
  rewrite queues_length_other in Hlt by done. lia.
Qed.

Lemma owned_step (a : action) (s : state) : wf s -> owned s -> owned (step a s).
Proof.
  intros Hwf Hown k qu Hin.
  assert (Hold : qu ∈ subscribers_of k s ->
    exists g G, streams (step a s) !! g = Some G /\ q G = qu /\ kind G = k).
  { intros Hs. destruct (Hown k qu Hs) as (g & G & HG & Hq & Hk).
    destruct (generator_step a s g G HG) as (G' & HG' & Hq' & Hk' & _).
    exists g, G'. split; [done|]. split; congruence. }
  assert (Ha : (exists k0, a = Stream k0) \/ forall k0, a <> Stream k0).
  { destruct a; (by right) || (left; by eexists). }
  destruct Ha as [[k0 ->]|Ha].
  2:{ by apply Hold, (subscribers_step_other a). }
  revert Hin. cbn [step]. rewrite subscribers_of_stream.
  intros [Hin|Hin]%elem_of_app; [by apply Hold|].
  case_bool_decide as Hk; [|by apply elem_of_nil in Hin].
  apply list_elem_of_singleton in Hin. subst.
  exists (length (streams s)), {| kind := k0; q := length (queues s); at_pc := Created; sent := [] |}.
  rewrite streams_stream. split; [|done]. by rewrite lookup_app_r, Nat.sub_diag.
Qed.

Lemma owned_run (acts : list action) (s : state) : wf s -> owned s -> owned (run acts s).
Proof.
  revert s. induction acts as [|a acts IH]; intros s Hwf Hown; [done|].
  apply IH; [by apply wf_step|by apply owned_step].
Qed.

(** X11: In every state the server can reach, a queue found in a list of
    subscribers is there once, is in no other list, has the size of the
    list's channel, and is the queue of exactly one generator, a
    generator of that channel: nothing but a new stream ever subscribes
    a queue. *)
Theorem subscriber_lists_invariant (acts : list action) (k : channel) (qu : qid) :
  qu ∈ subscribers_of k (run acts initial) ->
  NoDup (subscribers_of k (run acts initial)) /\
  (forall k', qu ∈ subscribers_of k' (run acts initial) -> k' = k) /\
  (exists Q, queues (run acts initial) !! qu = Some Q /\ maxsize Q = capacity k) /\
  (exists g G, streams (run acts initial) !! g = Some G /\ q G = qu /\ kind G = k /\
     forall g' G', streams (run acts initial) !! g' = Some G' -> q G' = qu -> g' = g).
Proof.
  intros Hin.
  assert (Hwf : wf (run acts initial)) by apply wf_run, wf_initial.
  split; [apply (wf_nodup _ Hwf)|].
  split; [intros k' Hin'; by apply (other_channel k k' qu (run acts initial))|].
  split; [by apply (wf_subscribers _ Hwf)|].
  assert (Hown : owned (run acts initial)).
  { apply owned_run; [apply wf_initial|]. intros k' qu' H. destruct k'; by apply elem_of_nil in H. }
  destruct (Hown k qu Hin) as (g & G & HG & Hq & Hk).
  exists g, G. split_and!; try done.
  intros g' G' HG' Hq'. apply (wf_own_queue _ Hwf g' g G' G); congruence.
Qed.

Lemma subscriber_lists_invariant_witness :
  NoDup (subscribers_of Events (run [Stream Logs; Stream Events; Stream Events] initial)) /\
  exists g G, streams (run [Stream Logs; Stream Events; Stream Events] initial) !! g = Some G /\
    q G = 2 /\ kind G = Events.
Proof.
  destruct (subscriber_lists_invariant [Stream Logs; Stream Events; Stream Events] Events 2)
    as (Hnd & _ & _ & g & G & HG & Hq & Hk & _).
  - apply list_elem_of_further, list_elem_of_here.
  - split; [exact Hnd|]. exists g, G. split; [exact HG|]. split; [exact Hq|exact Hk].
Defined.

End subscriber_lists.
